(** * MCMC visualizer: target density and sampler state machines

    A shallow embedding of [services/distribution.ts] (the Gaussian-mixture
    log-density and its gradient) and of [services/samplers.ts] (the
    Metropolis-Hastings, Gibbs, HMC and NUTS generators).

    The TypeScript code computes on [number].  The embedding is written once
    over an interface [Num] of the arithmetic the source uses, and is then
    read at two instances:
    - [RealNum], the real numbers, for the analytic statements about the
      density (closed-form inverse, sums, [exp]/[ln]);
    - [FloatNum], IEEE-754 binary64 (Rocq's primitive floats), on which the
      samplers run by computation.
    Statements about the shape of the emitted records are proved for every
    instance of [Num]. *)

From Stdlib Require Import List ZArith Bool String Lia.
From Stdlib Require Import Reals Lra.
From Stdlib Require Floats.
From Stdlib Require Permutation.
Import ListNotations.

Set Implicit Arguments.

(** ** The arithmetic interface *)

(** The operations of JavaScript's [number] that the two source files use.
    Only operations: no law is assumed, so every generic theorem below holds
    for binary64 with its rounding, infinities and NaN as well as for the
    reals. *)
Class Num (T : Type) : Type := {
  lit : Z -> T;                 (* an integer literal: 0, 1, 2, 1000 *)
  dec : Z -> nat -> T;          (* a decimal literal: [dec m k] is m / 10^k *)
  Math_PI : T;
  add : T -> T -> T;
  sub : T -> T -> T;
  mul : T -> T -> T;
  div : T -> T -> T;
  neg : T -> T;
  Math_sqrt : T -> T;
  Math_abs : T -> T;
  Math_exp : T -> T;
  Math_log : T -> T;
  Math_cos : T -> T;
  Math_floor : T -> T;
  Math_min : T -> T -> T;
  lt : T -> T -> bool;          (* a < b *)
  gt : T -> T -> bool;          (* a > b *)
  ge : T -> T -> bool;          (* a >= b *)
  strict_eq : T -> T -> bool;   (* a === b *)
  of_length : nat -> T;         (* an array length read as a number *)
  to_index : T -> option nat    (* a number used as an array index *)
}.

Declare Scope num_scope.
Delimit Scope num_scope with num.
Infix "+" := add : num_scope.
Infix "-" := sub : num_scope.
Infix "*" := mul : num_scope.
Infix "/" := div : num_scope.
Notation "- a" := (neg a) : num_scope.
Infix "<" := lt : num_scope.
Infix ">" := gt : num_scope.
Infix ">=" := ge : num_scope.
Infix "===" := strict_eq (at level 70, no associativity) : num_scope.
Notation "a !== b" := (negb (strict_eq a b)) (at level 70, no associativity) : num_scope.

(** The decimal literals of the source. *)
Definition c_half {T} {N : Num T} : T := dec 5 1.     (* 0.5 *)
Definition c_0_4 {T} {N : Num T} : T := dec 4 1.      (* 0.4 *)
Definition c_0_6 {T} {N : Num T} : T := dec 6 1.      (* 0.6 *)
Definition c_1_2 {T} {N : Num T} : T := dec 12 1.     (* 1.2 *)
Definition c_floor {T} {N : Num T} : T := dec 1 20.   (* 1e-20 *)

(** ** Data model ([types.ts]) *)

Section DataModel.
Variable T : Type.

Record Point : Type := mkPoint { x : T; y : T }.

Record SimulationParams : Type := mkParams {
  stepSize : T;
  numSteps : option Z;        (* numSteps?: number, an integer count *)
  friction : option T
}.

Record GMMComponent : Type := mkGMM {
  mu : T * T;
  sigma : (T * T) * (T * T);
  weight : T;
  id : Z
}.

(** One fragment of a template string: literal text, or an interpolated
    value ([Fixed v d] stands for [v.toFixed(d)]). *)
Inductive Fragment : Type :=
| Txt (s : string)
| Val (v : T)
| Fixed (v : T) (digits : nat)
| Int (n : Z).

Record StepDetails : Type := mkDetails {
  logProbCurrent : option T;
  logProbProposal : option T;
  acceptanceProb : option T;
  currentH : option T;
  proposedH : option T;
  gradient : option Point;
  description : option (list Fragment);
  phase : option string
}.

Record StepResult : Type := mkStep {
  current : Point;
  proposal : option Point;
  accepted : option bool;
  path : option (list Point);
  details : StepDetails;
  isFinishedStep : bool;
  delay : option Z
}.

(** The object literal [{}] used for [details] in the return values. *)
Definition no_details : StepDetails :=
  mkDetails None None None None None None None None.
End DataModel.

Arguments mkPoint {T} _ _.
Arguments mkParams {T} _ _ _.
Arguments mkGMM {T} _ _ _ _.
Arguments Txt {T} _.
Arguments Val {T} _.
Arguments Fixed {T} _ _.
Arguments Int {T} _.
Arguments mkDetails {T} _ _ _ _ _ _ _ _.
Arguments mkStep {T} _ _ _ _ _ _ _.
Arguments no_details {T}.

(** Array indexing [a[0]], [a[1]] on the fixed-size tuples of [GMMComponent]. *)
Notation "a .[0]" := (fst a) (at level 1, left associativity, format "a .[0]").
Notation "a .[1]" := (snd a) (at level 1, left associativity, format "a .[1]").

(** ** Target density ([services/distribution.ts]) *)

Section Distribution.
Context {T : Type} {N : Num T}.
Local Open Scope num_scope.

(** [getGaussianProps]: determinant and closed-form inverse of [sigma]. *)
Definition getGaussianProps (g : GMMComponent T) : T * ((T * T) * (T * T)) :=
  let det := (sigma g).[0].[0] * (sigma g).[1].[1]
             - (sigma g).[0].[1] * (sigma g).[1].[0] in
  let invSig :=
    (((sigma g).[1].[1] / det, (- (sigma g).[0].[1]) / det),
     ((- (sigma g).[1].[0]) / det, (sigma g).[0].[0] / det)) in
  (det, invSig).

(** The body of the [forEach] callback of [getLogProb]: the density of one
    component at [p]. *)
Definition component_density (p : Point T) (g : GMMComponent T) : T :=
  let '(det, invSig) := getGaussianProps g in
  let dx := (x p - (mu g).[0], y p - (mu g).[1]) in
  let mahalanobis :=
    dx.[0] * (invSig.[0].[0] * dx.[0] + invSig.[0].[1] * dx.[1])
    + dx.[1] * (invSig.[1].[0] * dx.[0] + invSig.[1].[1] * dx.[1]) in
  let norm := lit 1 / (lit 2 * Math_PI * Math_sqrt (Math_abs det)) in
  weight g * norm * Math_exp ((- c_half) * mahalanobis).

(** [getLogProb]: [sumProb] starts at 0 and is increased component by
    component, in list order. *)
Definition getLogProb (p : Point T) (components : list (GMMComponent T)) : T :=
  let sumProb :=
    fold_left (fun sumProb g => sumProb + component_density p g)
              components (lit 0) in
  Math_log (sumProb + c_floor).

(** The body of the [forEach] callback of [getGradLogProb]: it recomputes
    the density (the source repeats the code of [getLogProb]) and the
    gradient of the exponent, and updates the three accumulators. *)
Definition grad_callback (p : Point T)
    (acc : T * (T * T)) (g : GMMComponent T) : T * (T * T) :=
  let '(sumProb, gradSum) := acc in
  let '(det, invSig) := getGaussianProps g in
  let dx := (x p - (mu g).[0], y p - (mu g).[1]) in
  let mahalanobis :=
    dx.[0] * (invSig.[0].[0] * dx.[0] + invSig.[0].[1] * dx.[1])
    + dx.[1] * (invSig.[1].[0] * dx.[0] + invSig.[1].[1] * dx.[1]) in
  let norm := lit 1 / (lit 2 * Math_PI * Math_sqrt (Math_abs det)) in
  let density := weight g * norm * Math_exp ((- c_half) * mahalanobis) in
  let gradExp :=
    (- (invSig.[0].[0] * dx.[0] + invSig.[0].[1] * dx.[1]),
     - (invSig.[1].[0] * dx.[0] + invSig.[1].[1] * dx.[1])) in
  (sumProb + density,
   (gradSum.[0] + density * gradExp.[0], gradSum.[1] + density * gradExp.[1])).

Definition getGradLogProb (p : Point T) (components : list (GMMComponent T))
  : Point T :=
  let '(sumProb, gradSum) :=
    fold_left (grad_callback p) components (lit 0, (lit 0, lit 0)) in
  let safeProb := sumProb + c_floor in
  mkPoint (gradSum.[0] / safeProb) (gradSum.[1] / safeProb).

Definition DEFAULT_GMM : list (GMMComponent T) :=
  [ mkGMM (- lit 2, - lit 2)
          ((lit 1, c_half), (c_half, lit 1)) c_0_4 1;
    mkGMM (lit 2, lit 2)
          ((c_1_2, - c_0_6), (- c_0_6, c_1_2)) c_0_6 2 ].
End Distribution.

(** ** Generators ([services/samplers.ts]) *)

(** A generator is run against a finite supply of [Math.random()] results.
    It produces the records it yields, in order, and either its return value
    with the unused draws, or [None] when it is still waiting for a draw the
    supply does not hold (the records yielded before that point are kept). *)
Section GenMonad.
Variable T : Type.

Definition Gen (A : Type) : Type :=
  list T -> list (StepResult T) * option (A * list T).

Definition ret {A} (a : A) : Gen A := fun d => ([], Some (a, d)).

Definition bind {A B} (m : Gen A) (f : A -> Gen B) : Gen B :=
  fun d =>
    match m d with
    | (es, None) => (es, None)
    | (es, Some (a, d')) =>
        let '(es', r) := f a d' in (es ++ es', r)
    end.

(** [yield r]. *)
Definition yield (r : StepResult T) : Gen unit := fun d => ([r], Some (tt, d)).

(** [Math.random()]: the next draw of the supply. *)
Definition Math_random : Gen T :=
  fun d => match d with
           | [] => ([], None)
           | u :: d' => ([], Some (u, d'))
           end.

(** [defined o] passes on the value of [o]; the run stops at [None] (a
    value that is [undefined] where the code needs a [Point], or a loop
    cut short by its fuel). *)
Definition defined {A} (o : option A) : Gen A :=
  fun d => match o with
           | Some a => ([], Some (a, d))
           | None => ([], None)
           end.

Definition emitted {A} (r : list (StepResult T) * option (A * list T)) :=
  fst r.
Definition returned {A} (r : list (StepResult T) * option (A * list T))
  : option A :=
  option_map fst (snd r).
End GenMonad.

Arguments ret {T A} _ _.
Arguments bind {T A B} _ _ _.
Arguments yield {T} _ _.
Arguments Math_random {T} _.
Arguments defined {T A} _ _.
Arguments emitted {T A} _.
Arguments returned {T A} _.

Declare Scope gen_scope.
Delimit Scope gen_scope with gen.
Notation "v <- m ;; k" := (bind m (fun v => k))
  (at level 61, m at next level, right associativity) : gen_scope.
Notation "m ;; k" := (bind m (fun _ => k))
  (at level 61, right associativity) : gen_scope.

Section Samplers.
Context {T : Type} {N : Num T}.
Local Open Scope string_scope.
Local Open Scope list_scope.
Local Open Scope num_scope.
Local Open Scope gen_scope.

(** [let u = 0; while (u === 0) u = Math.random();] -- the loop body runs
    at least once and again for as long as the draw is zero. *)
Fixpoint redraw_while_zero (d : list T)
  : list (StepResult T) * option (T * list T) :=
  match d with
  | [] => ([], None)
  | u :: d' => if u === lit 0 then redraw_while_zero d' else ([], Some (u, d'))
  end.

(** [randn]: Box-Muller from two non-zero uniform draws. *)
Definition randn : Gen T T :=
  u <- redraw_while_zero ;;
  v <- redraw_while_zero ;;
  ret (Math_sqrt ((- lit 2) * Math_log u) * Math_cos (lit 2 * Math_PI * v)).

Definition mhGenerator (current : Point T) (params : SimulationParams T)
    (gmm : list (GMMComponent T)) : Gen T (StepResult T) :=
  (* Step 1: Propose *)
  r_x <- randn ;;
  r_y <- randn ;;
  let proposal := mkPoint (x current + r_x * stepSize params)
                          (y current + r_y * stepSize params) in
  let logProbCurrent := getLogProb current gmm in
  yield {| current := current;
           proposal := Some proposal;
           accepted := None;
           path := None;
           isFinishedStep := false;
           delay := Some 1500%Z;
           details := {|
             description := Some
               [Txt "Step 1: Propose candidate x' ~ N(x, σ²). σ=";
                Val (stepSize params)];
             logProbCurrent := Some logProbCurrent;
             logProbProposal := None;
             acceptanceProb := None;
             currentH := None;
             proposedH := None;
             gradient := None;
             phase := Some "proposal" |} |} ;;
  (* Step 2: Compute probabilities *)
  let logProbProposal := getLogProb proposal gmm in
  let acceptProb :=
    Math_min (lit 1) (Math_exp (logProbProposal - logProbCurrent)) in
  yield {| current := current;
           proposal := Some proposal;
           accepted := None;
           path := None;
           isFinishedStep := false;
           delay := Some 1500%Z;
           details := {|
             description := Some
               [Txt "Step 2: Calculate ratio. α = min(1, P(x')/P(x)) = ";
                Fixed acceptProb 4];
             logProbCurrent := Some logProbCurrent;
             logProbProposal := Some logProbProposal;
             acceptanceProb := Some acceptProb;
             currentH := None;
             proposedH := None;
             gradient := None;
             phase := Some "compute" |} |} ;;
  (* Step 3: Accept/Reject *)
  dice <- Math_random ;;
  let accepted := dice < acceptProb in
  yield {| current := if accepted then proposal else current;
           proposal := Some proposal;
           accepted := Some accepted;
           path := None;
           isFinishedStep := true;
           delay := Some 2000%Z;
           details := {|
             description := Some
               (if accepted
                then [Txt "Step 3: Accept! Random number u=";
                      Fixed dice 3;
                      Txt " < α. Move to new position."]
                else [Txt "Step 3: Reject. Random number u=";
                      Fixed dice 3;
                      Txt " > α. Stay at current position."]);
             logProbCurrent := Some logProbCurrent;
             logProbProposal := Some logProbProposal;
             acceptanceProb := Some acceptProb;
             currentH := None;
             proposedH := None;
             gradient := None;
             phase := Some (if accepted then "accept" else "reject") |} |} ;;
  ret {| current := if accepted then proposal else current;
         proposal := None;
         accepted := None;
         path := None;
         details := no_details;
         isFinishedStep := true;
         delay := None |}.

Definition gibbsGenerator (current : Point T) (params : SimulationParams T)
    (gmm : list (GMMComponent T)) : Gen T (StepResult T) :=
  (* Start step *)
  yield {| current := current;
           proposal := None;
           accepted := None;
           path := None;
           isFinishedStep := false;
           delay := Some 1000%Z;
           details := {|
             description := Some
               [Txt "Step 1: Start Gibbs cycle. Hold Y fixed, sample X."];
             logProbCurrent := None;
             logProbProposal := None;
             acceptanceProb := None;
             currentH := None;
             proposedH := None;
             gradient := None;
             phase := Some "compute" |} |} ;;
  r_x <- randn ;;
  let propX := x current + r_x * stepSize params in
  let logProbCurrX := getLogProb current gmm in
  let logProbPropX := getLogProb (mkPoint propX (y current)) gmm in
  let acceptProbX :=
    Math_min (lit 1) (Math_exp (logProbPropX - logProbCurrX)) in
  dice_x <- Math_random ;;
  let nextX := if dice_x < acceptProbX then propX else x current in
  let intermediate := mkPoint nextX (y current) in
  (* Update X *)
  yield {| current := intermediate;
           proposal := Some (mkPoint propX (y current));
           accepted := None;
           path := None;
           isFinishedStep := false;
           delay := Some 2000%Z;
           details := {|
             description := Some
               [Txt "Step 2: Sampled X (Metropolis-within-Gibbs). New x=";
                Fixed nextX 2;
                Txt ". Now hold X, sample Y."];
             logProbCurrent := Some logProbCurrX;
             logProbProposal := None;
             acceptanceProb := Some acceptProbX;
             currentH := None;
             proposedH := None;
             gradient := None;
             phase := Some "move_x" |} |} ;;
  (* Update Y *)
  r_y <- randn ;;
  let propY := y current + r_y * stepSize params in
  let logProbCurrY := getLogProb intermediate gmm in
  let logProbPropY := getLogProb (mkPoint nextX propY) gmm in
  let acceptProbY :=
    Math_min (lit 1) (Math_exp (logProbPropY - logProbCurrY)) in
  dice_y <- Math_random ;;
  let acceptedY := dice_y < acceptProbY in
  let nextY := if acceptedY then propY else y current in
  let final := mkPoint nextX nextY in
  (* Check if we effectively moved relative to START of the step *)
  let moved := (x final !== x current) || (y final !== y current) in
  yield {| current := final;
           proposal := Some (mkPoint nextX propY);
           accepted := Some moved;
           path := None;
           isFinishedStep := true;
           delay := Some 2000%Z;
           details := {|
             description := Some
               [Txt "Step 3: Sampled Y. Cycle complete. Final: (";
                Fixed nextX 2; Txt ", "; Fixed nextY 2; Txt ")"];
             logProbCurrent := Some logProbCurrY;
             logProbProposal := None;
             acceptanceProb := Some acceptProbY;
             currentH := None;
             proposedH := None;
             gradient := None;
             phase := Some "move_y" |} |} ;;
  ret {| current := final;
         proposal := None;
         accepted := None;
         path := None;
         details := no_details;
         isFinishedStep := true;
         delay := None |}.

(** The mutable locals of [hmcGenerator] that its [for] loop updates. *)
Record Leapfrog : Type := mkLeapfrog {
  l_q : Point T;
  l_p : Point T;
  l_grad : Point T;
  l_path : list (Point T)
}.

(** [params.numSteps || 10]: [undefined] and [0] are falsy. *)
Definition leapfrog_count (params : SimulationParams T) : Z :=
  match numSteps params with
  | Some n => if (n =? 0)%Z then 10%Z else n
  | None => 10%Z
  end.

(** [for (let i = 0; i < L; i++) { ... }]: [n] counts the iterations
    that remain, [i] is the loop variable. *)
Fixpoint leapfrog_for (current : Point T) (gmm : list (GMMComponent T))
    (epsilon : T) (L stepDelay : Z)
    (n : nat) (i : Z) (st : Leapfrog) {struct n} : Gen T Leapfrog :=
  match n with
  | O => ret st
  | S n' =>
      (* Full step q *)
      let q := mkPoint (x (l_q st) + epsilon * x (l_p st))
                       (y (l_q st) + epsilon * y (l_p st)) in
      let path := l_path st ++ [q] in
      yield {| current := current;
               proposal := None;
               accepted := None;
               path := Some path;
               isFinishedStep := false;
               delay := Some stepDelay;
               details := {|
                 description := Some
                   [Txt "Leapfrog Step "; Int (i + 1); Txt "/"; Int L;
                    Txt ": Integrating Hamiltonian dynamics..."];
                 logProbCurrent := None;
                 logProbProposal := None;
                 acceptanceProb := None;
                 currentH := None;
                 proposedH := None;
                 gradient := Some (l_grad st);
                 phase := Some "leapfrog" |} |} ;;
      let grad := getGradLogProb q gmm in
      (* Full step p (except last) *)
      let p := if negb (i =? L - 1)%Z
               then mkPoint (x (l_p st) - epsilon * x grad)
                            (y (l_p st) - epsilon * y grad)
               else l_p st in
      leapfrog_for current gmm epsilon L stepDelay
                   n' (i + 1)%Z (mkLeapfrog q p grad path)
  end.

Definition hmcGenerator (current : Point T) (params : SimulationParams T)
    (gmm : list (GMMComponent T)) : Gen T (StepResult T) :=
  let epsilon := stepSize params * c_half in
  let L := leapfrog_count params in
  (* Step 1: Momentum *)
  let q := current in
  p_x <- randn ;;
  p_y <- randn ;;
  let p := mkPoint p_x p_y in
  let currentK := c_half * (x p * x p + y p * y p) in
  let currentU := - getLogProb current gmm in
  let currentH := currentU + currentK in
  yield {| current := current;
           proposal := None;
           accepted := None;
           path := None;
           isFinishedStep := false;
           delay := Some 1500%Z;
           details := {|
             description := Some
               [Txt "Step 1: Sample Momentum p. Initial Energy H = ";
                Fixed currentH 2];
             logProbCurrent := None;
             logProbProposal := None;
             acceptanceProb := None;
             currentH := Some currentH;
             proposedH := None;
             gradient := None;
             phase := Some "momentum" |} |} ;;
  (* Step 2: Leapfrog *)
  let path := [q] in
  let grad := getGradLogProb q gmm in
  (* Half step p *)
  let p := mkPoint (x p - epsilon * x grad / lit 2)
                   (y p - epsilon * y grad / lit 2) in
  let stepDelay := Z.max 100 (2500 / L) in
  st <- leapfrog_for current gmm epsilon L stepDelay
                     (Z.to_nat L) 0%Z (mkLeapfrog q p grad path) ;;
  let q := l_q st in
  let grad := l_grad st in
  let path := l_path st in
  (* Final half step p *)
  let p := mkPoint (x (l_p st) - epsilon * x grad / lit 2)
                   (y (l_p st) - epsilon * y grad / lit 2) in
  (* Step 3: Accept *)
  let proposedU := - getLogProb q gmm in
  let proposedK := c_half * (x p * x p + y p * y p) in
  let proposedH := proposedU + proposedK in
  let acceptProb := Math_min (lit 1) (Math_exp (currentH - proposedH)) in
  dice <- Math_random ;;
  let accepted := dice < acceptProb in
  yield {| current := if accepted then q else current;
           proposal := None;
           accepted := Some accepted;
           path := Some path;
           isFinishedStep := true;
           delay := Some 1500%Z;
           details := {|
             description := Some
               (if accepted
                then [Txt "Step 3: Metropolis Accept. ΔH=";
                      Fixed (proposedH - currentH) 4; Txt "."]
                else [Txt "Step 3: Reject (High Energy Error). ΔH=";
                      Fixed (proposedH - currentH) 4; Txt "."]);
             logProbCurrent := None;
             logProbProposal := None;
             acceptanceProb := Some acceptProb;
             currentH := Some currentH;
             proposedH := Some proposedH;
             gradient := None;
             phase := Some (if accepted then "accept" else "reject") |} |} ;;
  ret {| current := if accepted then q else current;
         proposal := None;
         accepted := None;
         path := None;
         details := no_details;
         isFinishedStep := true;
         delay := None |}.

(** The mutable locals of [nutsGenerator] that its [while] loop updates. *)
Record Tree : Type := mkTree {
  t_q : Point T;
  t_p : Point T;
  t_grad : Point T;
  t_stopped : bool;
  t_steps : nat;
  t_reason : string;
  t_path : list (Point T);
  t_validCandidates : list (Point T)
}.

Definition maxSteps : nat := 50.

(** The energy [currH] that one pass of the loop body computes. *)
Definition tree_energy (gmm : list (GMMComponent T)) (epsilon : T)
    (st : Tree) : T :=
  let q := mkPoint (x (t_q st) + epsilon * x (t_p st))
                   (y (t_q st) + epsilon * y (t_p st)) in
  let grad := getGradLogProb q gmm in
  let currU := - getLogProb q gmm in
  let p_full_x := x (t_p st) - epsilon * x grad / lit 2 in
  let p_full_y := y (t_p st) - epsilon * y grad / lit 2 in
  let currK := c_half * (p_full_x * p_full_x + p_full_y * p_full_y) in
  currU + currK.

(** The U-turn diagnostic [dot] that one pass of the loop body computes. *)
Definition tree_dot (current : Point T) (epsilon : T) (st : Tree) : T :=
  let q := mkPoint (x (t_q st) + epsilon * x (t_p st))
                   (y (t_q st) + epsilon * y (t_p st)) in
  let dx := x q - x current in
  let dy := y q - y current in
  dx * x (t_p st) + dy * y (t_p st).

(** One pass of the body of the [while] loop: the updated locals and the
    record it yields. *)
Definition tree_body (current : Point T) (gmm : list (GMMComponent T))
    (epsilon startH log_u : T) (st : Tree) : Tree * StepResult T :=
  let q := mkPoint (x (t_q st) + epsilon * x (t_p st))
                   (y (t_q st) + epsilon * y (t_p st)) in
  let grad := getGradLogProb q gmm in
  let currH := tree_energy gmm epsilon st in
  let diverged := (currH - startH) > lit 1000 in
  let stopped := if diverged then true else t_stopped st in
  let reason := if diverged then "Divergence" else t_reason st in
  let dot := tree_dot current epsilon st in
  let path := t_path st ++ [q] in
  let validCandidates :=
    if (- currH) >= log_u
    then t_validCandidates st ++ [q]
    else t_validCandidates st in
  let emission :=
    {| current := current;
       proposal := None;
       accepted := None;
       path := Some path;
       isFinishedStep := false;
       delay := Some 150%Z;
       details := {|
         description := Some
           [Txt "Tree Step "; Int (Z.of_nat (t_steps st) + 1);
            Txt ": Check U-Turn (dot="; Fixed dot 2; Txt ")..."];
         logProbCurrent := None;
         logProbProposal := None;
         acceptanceProb := None;
         currentH := None;
         proposedH := None;
         gradient := None;
         phase := Some "tree_build" |} |} in
  if dot < lit 0
  then (mkTree q (t_p st) grad true (t_steps st) "U-Turn Detected"
               path validCandidates,
        emission)
  else (mkTree q (mkPoint (x (t_p st) - epsilon * x grad)
                          (y (t_p st) - epsilon * y grad))
               grad stopped (S (t_steps st)) reason
               path validCandidates,
        emission).

(** [while (!stopped && steps < maxSteps) { ... }], run with [fuel]
    passes at most; [None] is returned when the fuel is used up while
    the loop condition still holds. *)
Fixpoint tree_loop (current : Point T) (gmm : list (GMMComponent T))
    (epsilon startH log_u : T)
    (fuel : nat) (st : Tree) {struct fuel} : Gen T (option Tree) :=
  if negb (t_stopped st) && (t_steps st <? maxSteps)%nat then
    match fuel with
    | O => ret None
    | S fuel' =>
        let '(st', emission) :=
          tree_body current gmm epsilon startH log_u st in
        yield emission ;;
        tree_loop current gmm epsilon startH log_u fuel' st'
    end
  else ret (Some st).

Definition nutsGenerator (current : Point T) (params : SimulationParams T)
    (gmm : list (GMMComponent T)) : Gen T (StepResult T) :=
  let epsilon := stepSize params * c_0_4 in
  (* 1. Momentum & Slice *)
  let q := current in
  p_x <- randn ;;
  p_y <- randn ;;
  let p := mkPoint p_x p_y in
  let startU := - getLogProb current gmm in
  let startK := c_half * (x p * x p + y p * y p) in
  let startH := startU + startK in
  u <- Math_random ;;
  let log_u := Math_log u - startH in
  yield {| current := current;
           proposal := None;
           accepted := None;
           path := None;
           isFinishedStep := false;
           delay := Some 1500%Z;
           details := {|
             description := Some
               [Txt "Step 1: Sample Momentum & Slice u. Start building tree..."];
             logProbCurrent := None;
             logProbProposal := None;
             acceptanceProb := None;
             currentH := Some startH;
             proposedH := None;
             gradient := None;
             phase := Some "momentum" |} |} ;;
  let path := [q] in
  let validCandidates := [q] in
  let grad := getGradLogProb q gmm in
  let p := mkPoint (x p - epsilon * x grad / lit 2)
                   (y p - epsilon * y grad / lit 2) in
  (* Tree building loop *)
  exit <- tree_loop current gmm epsilon startH log_u maxSteps
                    (mkTree q p grad false 0 "" path validCandidates) ;;
  st <- defined exit ;;
  let path := t_path st in
  let validCandidates := t_validCandidates st in
  (* Final Selection *)
  selection <-
    (if (0 <? List.length validCandidates)%nat
     then
       r <- Math_random ;;
       let idx := Math_floor (r * of_length (List.length validCandidates)) in
       nextQ <- defined match to_index idx with
                        | Some i => nth_error validCandidates i
                        | None => None
                        end ;;
       ret (nextQ, true)
     else ret (current, false)) ;;
  let '(nextQ, accepted) := selection in
  yield {| current := nextQ;
           proposal := None;
           accepted := Some accepted;
           path := Some path;
           isFinishedStep := true;
           delay := Some 2000%Z;
           details := {|
             description := Some
               [Txt "Step 3: "; Txt (t_reason st);
                Txt ". Sampling from trajectory... Done."];
             logProbCurrent := None;
             logProbProposal := None;
             acceptanceProb := None;
             currentH := Some startH;
             proposedH := None;
             gradient := None;
             phase := Some "accept" |} |} ;;
  ret {| current := nextQ;
         proposal := None;
         accepted := None;
         path := None;
         details := no_details;
         isFinishedStep := true;
         delay := None |}.
End Samplers.

(** ** The real-number instance *)

(** Division, the logarithm and the square root of Rocq's reals are total
    ([x / 0 = 0], [ln x = 0] for [x <= 0], [sqrt x = 0] for [x < 0]) where
    JavaScript yields an infinity or [NaN].
    The instance is the code's arithmetic wherever no divisor is zero, no
    logarithm is taken of a number that is not positive and no root of a
    negative one; the theorems
    over the reals carry the hypotheses that keep a run there (non-zero
    determinants, non-negative weights, positive draws) unless they hold of
    the code's non-finite values as well. *)

Module RealModel.
Local Open Scope R_scope.

Definition ltb (a b : R) : bool := if Rlt_dec a b then true else false.
Definition gtb (a b : R) : bool := if Rgt_dec a b then true else false.
Definition geb (a b : R) : bool := if Rge_dec a b then true else false.
Definition eqb (a b : R) : bool := if Req_dec_T a b then true else false.

Definition floor (a : R) : R := IZR (Int_part a).

Definition index_of (a : R) : option nat :=
  if Req_dec_T a (IZR (Int_part a))
  then if (0 <=? Int_part a)%Z then Some (Z.to_nat (Int_part a)) else None
  else None.

#[export] Instance RealNum : Num R := {|
  lit := IZR;
  dec := fun m k => IZR m / IZR (10 ^ Z.of_nat k);
  Math_PI := PI;
  add := Rplus;
  sub := Rminus;
  mul := Rmult;
  div := Rdiv;
  neg := Ropp;
  Math_sqrt := sqrt;
  Math_abs := Rabs;
  Math_exp := exp;
  Math_log := ln;
  Math_cos := cos;
  Math_floor := floor;
  Math_min := Rmin;
  lt := ltb;
  gt := gtb;
  ge := geb;
  strict_eq := eqb;
  of_length := INR;
  to_index := index_of
|}.
End RealModel.

(** ** The binary64 instance *)

(** Rocq's primitive floats are IEEE-754 binary64, the format of
    JavaScript's [number]; [+], [-], [*], [/], [sqrt], [abs] and the
    comparisons are the primitive, correctly rounded operations.
    [Math.exp], [Math.log] and [Math.cos], which ECMAScript leaves
    implementation-approximated, are evaluated by series (relative error
    about 1e-13); they serve the concrete runs only. *)
Module Float64.
Import Floats.
Local Open Scope float_scope.

Definition of_Z (z : Z) : float :=
  match z with
  | Z0 => 0
  | Zpos _ => of_uint63 (Uint63.of_Z z)
  | Zneg p => - of_uint63 (Uint63.of_Z (Zpos p))
  end.

Fixpoint pow10 (k : nat) : float :=
  match k with O => 1 | S k' => pow10 k' * 10 end.

(** [m / 10^k]: both operands are exact for the literals of the source,
    so the quotient is the binary64 value nearest to the decimal literal. *)
Definition decimal (m : Z) (k : nat) : float := of_Z m / pow10 k.

Definition PI : float := 0x1.921fb54442d18p+1.
Definition LN2 : float := 0x1.62e42fefa39efp-1.

Definition floor (a : float) : float :=
  let two52 := 0x1p+52 in
  if abs a <? two52 then
    let r := if a <? 0 then (a - two52) + two52 else (a + two52) - two52 in
    if a <? r then r - 1 else r
  else a.

Definition min (a b : float) : float :=
  if is_nan a || is_nan b then nan
  else if b <? a then b
  else if (a =? b) && get_sign b then b
  else a.

Fixpoint exp_series (t : float) (k : nat) (acc : float) : float :=
  match k with
  | O => acc
  | S k' => exp_series t k' (1 + t / of_Z (Z.of_nat k) * acc)
  end.

Fixpoint square_n (n : nat) (a : float) : float :=
  match n with O => a | S n' => square_n n' (a * a) end.

Definition exp (a : float) : float :=
  if is_nan a then nan
  else if 710 <? a then infinity
  else if a <? -750 then 0
  else square_n 10 (exp_series (a / 1024) 20 1).

Fixpoint atanh_series (z2 : float) (k : nat) (acc : float) : float :=
  match k with
  | O => acc
  | S k' => atanh_series z2 k' (1 / of_Z (2 * Z.of_nat k - 1) + z2 * acc)
  end.

Definition log (a : float) : float :=
  if is_nan a then nan
  else if a <? 0 then nan
  else if a =? 0 then neg_infinity
  else if is_infinity a then infinity
  else
    let '(m, e) := Z.frexp a in
    let '(m, e) :=
      if m <? 0x1.6a09e667f3bcdp-1 then (m * 2, (e - 1)%Z) else (m, e) in
    let z := (m - 1) / (m + 1) in
    of_Z e * LN2 + 2 * z * atanh_series (z * z) 30 0.

Fixpoint cos_series (r2 : float) (k : nat) (acc : float) : float :=
  match k with
  | O => acc
  | S k' =>
      cos_series r2 k'
        (1 - r2 / of_Z ((2 * Z.of_nat k - 1) * (2 * Z.of_nat k)) * acc)
  end.

Definition cos (a : float) : float :=
  if is_nan a || is_infinity a then nan
  else
    let k := floor (a / (2 * PI) + 0.5) in
    let r := a - k * (2 * PI) in
    cos_series (r * r) 18 1.

Definition index_of (a : float) : option nat :=
  match Prim2SF a with
  | S754_zero _ => Some O
  | S754_finite false m e =>
      if (0 <=? e)%Z then Some (Z.to_nat (Zpos m * 2 ^ e))
      else if (Zpos m mod 2 ^ (- e) =? 0)%Z
           then Some (Z.to_nat (Zpos m / 2 ^ (- e)))
           else None
  | _ => None
  end.

#[export] Instance FloatNum : Num float :=
  Build_Num
    of_Z                                  (* lit *)
    decimal                               (* dec *)
    PI                                    (* Math_PI *)
    PrimFloat.add PrimFloat.sub PrimFloat.mul PrimFloat.div
    PrimFloat.opp                         (* neg *)
    PrimFloat.sqrt PrimFloat.abs          (* Math_sqrt, Math_abs *)
    exp log cos floor min
    PrimFloat.ltb                         (* a < b *)
    (fun a b => PrimFloat.ltb b a)        (* a > b *)
    (fun a b => PrimFloat.leb b a)        (* a >= b *)
    PrimFloat.eqb                         (* a === b *)
    (fun n => of_Z (Z.of_nat n))          (* of_length *)
    index_of.                             (* to_index *)
End Float64.

(** * Observations on a run *)

(** Quantities the statements below speak about: the draws a cycle
    consumes, the acceptance probability, the energies, the leapfrog scheme
    as the generators run it and as the specification words it, and the
    passes of the NUTS loop. *)
Section Observations.
Context {T : Type} {N : Num T}.
Local Open Scope string_scope.
Local Open Scope list_scope.
Local Open Scope num_scope.

Implicit Types (start q : Point T) (params : SimulationParams T)
               (gmm : list (GMMComponent T)) (d : list T).

(** The supply of draws: how many of them are non-zero. *)
Definition nonzero_draws (d : list T) : nat :=
  List.length (filter (fun u => u !== lit 0) d).

(** The Box-Muller transform of [randn], as a function of its two draws. *)
Definition box_muller (u v : T) : T :=
  Math_sqrt ((- lit 2) * Math_log u) * Math_cos (lit 2 * Math_PI * v).

(** Draws that the [while (u === 0)] loops of [randn] throw away. *)
Definition zeros (z : list T) : Prop :=
  Forall (fun a => (a === lit 0) = true) z.

(** [min(1, exp(logP(to) - logP(from)))], the acceptance probability of a
    move. *)
Definition acceptance gmm (from to : Point T) : T :=
  Math_min (lit 1) (Math_exp (getLogProb to gmm - getLogProb from gmm)).

(** [0.5 * (p.x * p.x + p.y * p.y)] *)
Definition kinetic (p : Point T) : T :=
  c_half * (x p * x p + y p * y p).

(** [U + K] with [U = -getLogProb(q, gmm)]. *)
Definition hamiltonian gmm (q p : Point T) : T :=
  - getLogProb q gmm + kinetic p.

(** The leapfrog scheme as the generators run it: a position step
    [drift]; a momentum step [kick] of a given length, which subtracts
    [epsilon * grad], [grad] being the gradient of the log density, as
    [p.x -= epsilon * grad.x] does; and [k] position steps, each followed
    by a full momentum step except the last.  The momentum steps go
    against the force of the specification, for which see [force_kick]. *)
Definition drift (epsilon : T) (q p : Point T) : Point T :=
  mkPoint (x q + epsilon * x p) (y q + epsilon * y p).

Definition kick gmm (epsilon : T) (q p : Point T) : Point T :=
  let grad := getGradLogProb q gmm in
  mkPoint (x p - epsilon * x grad) (y p - epsilon * y grad).

Definition half_kick gmm (epsilon : T) (q p : Point T) : Point T :=
  let grad := getGradLogProb q gmm in
  mkPoint (x p - epsilon * x grad / lit 2) (y p - epsilon * y grad / lit 2).

Fixpoint leapfrog_steps gmm (epsilon : T) (k : nat) (q p : Point T)
  : list (Point T) * (Point T * Point T) :=
  match k with
  | O => ([], (q, p))
  | S k' =>
      let q' := drift epsilon q p in
      let p' := match k' with
                | O => p
                | S _ => kick gmm epsilon q' p
                end in
      let '(visited, final) := leapfrog_steps gmm epsilon k' q' p' in
      (q' :: visited, final)
  end.

(** Positions visited (the start first), final position and final
    momentum of [k] leapfrog steps from [(q, p)]. *)
Definition leapfrog_trajectory gmm (epsilon : T) (k : nat) (q p : Point T)
  : list (Point T) * (Point T * Point T) :=
  let '(visited, (q_k, p_k)) :=
    leapfrog_steps gmm epsilon k q (half_kick gmm epsilon q p) in
  (q :: visited, (q_k, half_kick gmm epsilon q_k p_k)).

(** The leapfrog scheme in the words of the specification, where the
    gradient of the log density supplies the force
    ([grad U = - grad logDensity]): the momentum step [p - epsilon * grad U]
    adds [epsilon * grad]. *)
Definition force_kick gmm (epsilon : T) (q p : Point T) : Point T :=
  let grad := getGradLogProb q gmm in
  mkPoint (x p + epsilon * x grad) (y p + epsilon * y grad).

Definition force_half_kick gmm (epsilon : T) (q p : Point T) : Point T :=
  let grad := getGradLogProb q gmm in
  mkPoint (x p + epsilon * x grad / lit 2) (y p + epsilon * y grad / lit 2).

Fixpoint reference_steps gmm (epsilon : T) (k : nat) (q p : Point T)
  : list (Point T) * (Point T * Point T) :=
  match k with
  | O => ([], (q, p))
  | S k' =>
      let q' := drift epsilon q p in
      let p' := match k' with
                | O => p
                | S _ => force_kick gmm epsilon q' p
                end in
      let '(visited, final) := reference_steps gmm epsilon k' q' p' in
      (q' :: visited, final)
  end.

Definition reference_trajectory gmm (epsilon : T) (k : nat) (q p : Point T)
  : list (Point T) * (Point T * Point T) :=
  let '(visited, (q_k, p_k)) :=
    reference_steps gmm epsilon k q (force_half_kick gmm epsilon q p) in
  (q :: visited, (q_k, force_half_kick gmm epsilon q_k p_k)).

(** [validCandidates[Math.floor(r * validCandidates.length)]] *)
Definition select (candidates : list (Point T)) (r : T) : option (Point T) :=
  match to_index (Math_floor (r * of_length (List.length candidates))) with
  | Some i => nth_error candidates i
  | None => None
  end.

(** [r] selects an element of every non-empty array of at most
    [maxSteps + 1] entries, as every [Math.random()] result in [0, 1) does. *)
Definition selectable (r : T) : bool :=
  forallb (fun n => match to_index (Math_floor (r * of_length n)) with
                    | Some i => (i <? n)%nat
                    | None => false
                    end)
          (List.seq 1 (S maxSteps)).


Section TreeObservations.
Variable start : Point T.
Variable gmm : list (GMMComponent T).
Variables epsilon startH log_u : T.

(** The condition of the [while] loop. *)
Definition loop_continues (st : @Tree T) : bool :=
  negb (t_stopped st) && (t_steps st <? maxSteps)%nat.

(** What one pass from [st] has to observe, written from the position
    and the momentum [st] holds and not from what the loop body computes:
    the position [q] the pass moves to; the energy [H = U(q) + K(p')] at
    that position, [p'] being the momentum after the half step the
    generator takes (see [half_kick]); the product of the displacement
    from the start of the cycle with the momentum; and the three tests, the
    divergence [H - H0 > 1000], the U-turn (a negative product) and the
    slice [-H >= log_u]. *)
Definition pass_position (st : @Tree T) : Point T :=
  drift epsilon (t_q st) (t_p st).
Definition pass_energy (st : @Tree T) : T :=
  hamiltonian gmm (pass_position st)
              (half_kick gmm epsilon (pass_position st) (t_p st)).
Definition pass_dot (st : @Tree T) : T :=
  (x (pass_position st) - x start) * x (t_p st)
  + (y (pass_position st) - y start) * y (t_p st).
Definition pass_diverges (st : @Tree T) : bool :=
  (pass_energy st - startH) > lit 1000.
Definition pass_turns (st : @Tree T) : bool :=
  pass_dot st < lit 0.
Definition pass_in_slice (st : @Tree T) : bool :=
  (- pass_energy st) >= log_u.

(** The semantics of the [while] loop: [tree_passes st ss st'] when the
    loop entered at [st] runs its body from the states [ss], in this
    order, and exits at [st']. *)
Inductive tree_passes : @Tree T -> list (@Tree T) -> @Tree T -> Prop :=
| passes_exit st :
    loop_continues st = false -> tree_passes st [] st
| passes_step st ss st' :
    loop_continues st = true ->
    tree_passes (fst (tree_body start gmm epsilon startH log_u st)) ss st' ->
    tree_passes st (st :: ss) st'.
End TreeObservations.
End Observations.

(** * The mixture density in the words of the specification *)

Module DensitySpec.
Import RealModel.
Local Open Scope R_scope.

Definition Mat : Type := (R * R) * (R * R).

Definition det2 (s : Mat) : R :=
  s.[0].[0] * s.[1].[1] - s.[0].[1] * s.[1].[0].

Definition adjugate (s : Mat) : Mat :=
  ((s.[1].[1], - s.[0].[1]), (- s.[1].[0], s.[0].[0])).

Definition scale (c : R) (m : Mat) : Mat :=
  ((c * m.[0].[0], c * m.[0].[1]), (c * m.[1].[0], c * m.[1].[1])).

(** The closed-form inverse of a 2x2 matrix: the adjugate scaled by
    [1/det]. *)
Definition inverse2 (s : Mat) : Mat := scale (1 / det2 s) (adjugate s).

Definition mat_mul (a b : Mat) : Mat :=
  ((a.[0].[0] * b.[0].[0] + a.[0].[1] * b.[1].[0],
    a.[0].[0] * b.[0].[1] + a.[0].[1] * b.[1].[1]),
   (a.[1].[0] * b.[0].[0] + a.[1].[1] * b.[1].[0],
    a.[1].[0] * b.[0].[1] + a.[1].[1] * b.[1].[1])).

Definition identity2 : Mat := ((1, 0), (0, 1)).

Definition mat_vec (m : Mat) (v : R * R) : R * R :=
  (m.[0].[0] * v.[0] + m.[0].[1] * v.[1],
   m.[1].[0] * v.[0] + m.[1].[1] * v.[1]).

Definition dot2 (u v : R * R) : R := u.[0] * v.[0] + u.[1] * v.[1].

(** [dx] and the Mahalanobis form [dx^T Sigma^-1 dx]. *)
Definition displacement (p : Point R) (g : GMMComponent R) : R * R :=
  (x p - (mu g).[0], y p - (mu g).[1]).

Definition mahalanobis (p : Point R) (g : GMMComponent R) : R :=
  dot2 (displacement p g)
       (mat_vec (inverse2 (sigma g)) (displacement p g)).

(** [weight * (1 / (2 pi sqrt |det|)) * exp (-0.5 * m)] *)
Definition gaussian_term (p : Point R) (g : GMMComponent R) : R :=
  weight g * (1 / (2 * PI * sqrt (Rabs (det2 (sigma g)))))
  * exp (- 0.5 * mahalanobis p g).

(** The local gradient contribution [- Sigma^-1 dx] of one component. *)
Definition local_gradient (p : Point R) (g : GMMComponent R) : R * R :=
  let v := mat_vec (inverse2 (sigma g)) (displacement p g) in
  (- v.[0], - v.[1]).

Fixpoint Rsum {A} (f : A -> R) (l : list A) : R :=
  match l with
  | [] => 0
  | a :: l' => f a + Rsum f l'
  end.

Definition mixture_sum (p : Point R) (G : list (GMMComponent R)) : R :=
  Rsum (gaussian_term p) G.
End DensitySpec.

(** * The scenario of the specification, on binary64 *)

Module Scenario.
Import Floats.
Import Float64.
Local Open Scope float_scope.

(** The scenario of the specification: the chain at the origin, the default
    mixture, [stepSize = 0.5] and [numSteps = 10]. *)
Definition origin : Point float := mkPoint 0 0.
Definition demo_params : SimulationParams float :=
  mkParams 0.5 (Some 10%Z) None.
Definition no_steps_params : SimulationParams float :=
  mkParams 0.5 None None.
Definition demo_gmm : list (GMMComponent float) := DEFAULT_GMM.

(** A supply of [Math.random()] results; the zero is thrown away by
    [randn]. *)
Definition demo_draws : list float :=
  [0.5; 0.125; 0; 0.5; 0.375; 0.875; 0.5; 0.25].

(** A supply that drives the NUTS loop to its step cap: two momentum
    coordinates, the slice draw [0.875], the selection draw [0.5]; and the
    quantities the generator derives from it before the loop. *)
Definition cap_draws : list float := [0.5; 0.125; 0.5; 0.375; 0.875; 0.5].

Definition cap_epsilon : float := (stepSize demo_params * c_0_4)%num.
Definition cap_p0 : Point float :=
  mkPoint (box_muller 0.5 0.125) (box_muller 0.5 0.375).
Definition cap_startH : float := hamiltonian demo_gmm origin cap_p0.
Definition cap_log_u : float := (Math_log 0.875 - cap_startH)%num.
Definition cap_st0 : Tree :=
  mkTree origin (half_kick demo_gmm cap_epsilon origin cap_p0)
         (getGradLogProb origin demo_gmm) false 0 "" [origin] [origin].


(** [a.x === b.x && a.y === b.y] *)
Definition same_point (a b : Point float) : bool :=
  (x a =? x b) && (y a =? y b).
End Scenario.

(** * The driver ([App.tsx]) *)

(** [enum AlgorithmType] *)
Inductive AlgorithmType : Type := MH | GIBBS | HMC | NUTS.

Section App.
Context {T : Type} {N : Num T}.
Local Open Scope string_scope.
Local Open Scope list_scope.

Definition INITIAL_POINT : Point T := mkPoint (lit 0) (lit 0).

Definition INITIAL_PARAMS : SimulationParams T :=
  mkParams c_half (Some 10%Z) None.

(** The [stats] state: [{ accepted, total }], two counters. *)
Record Stats : Type := mkStats {
  stats_accepted : nat;
  stats_total : nat
}.

(** The React state of [App] that the animation loop writes, and whether
    [generatorRef.current] holds a generator. *)
Record AppState : Type := mkApp {
  app_history : list (Point T);
  app_current : Point T;
  app_proposal : option (Point T);
  app_stats : Stats;
  app_lastPath : option (list (Point T));
  app_stepLogs : list (StepDetails T);
  app_generator : bool
}.

(** [arr.slice(-n)]: the last [n] elements, all of them when there are
    fewer. *)
Definition slice_last {A} (n : nat) (arr : list A) : list A :=
  skipn (List.length arr - n) arr.

(** The text of a template is non-empty (a truthy string): an interpolated
    number always prints at least one character. *)
Definition truthy_text (t : list (Fragment T)) : bool :=
  existsb (fun f => match f with
                    | Txt s => negb (String.eqb s "")
                    | _ => true
                    end) t.

(** The updater passed to [setHistory] at the end of a sample. *)
Definition push_history (prev : list (Point T)) (value : StepResult T)
  : list (Point T) :=
  let newHistory := prev ++ [current value] in
  if (2000 <? List.length newHistory)%nat
  then slice_last 2000 newHistory
  else newHistory.

(** The updater passed to [setStats]: [value.accepted ? 1 : 0]. *)
Definition count_sample (prev : Stats) (value : StepResult T) : Stats :=
  mkStats (stats_accepted prev
           + match accepted value with Some true => 1 | _ => 0 end)
          (stats_total prev + 1).

(** The block [if (value) { ... }] of [tick]: what one yielded record does
    to the state. *)
Definition apply_value (st : AppState) (value : StepResult T) : AppState :=
  let lastPath := match path value with
                  | Some p => Some p
                  | None => app_lastPath st
                  end in
  let stepLogs :=
    match description (details value) with
    | Some t => if truthy_text t
                then app_stepLogs st ++ [details value]
                else app_stepLogs st
    | None => app_stepLogs st
    end in
  if isFinishedStep value
  then mkApp (push_history (app_history st) value)
             (current value) (proposal value)
             (count_sample (app_stats st) value)
             lastPath stepLogs false
  else mkApp (app_history st)
             (current value) (proposal value)
             (app_stats st)
             lastPath stepLogs (app_generator st).

(** [handleReset]: the state it sets ([params], [gmmParams], [algorithm]
    and [detailedMode] are left alone). *)
Definition handleReset : AppState :=
  mkApp [INITIAL_POINT] INITIAL_POINT None (mkStats 0 0) None [] false.

(** The [switch (algorithm)] of [tick]. *)
Definition new_generator (algorithm : AlgorithmType) (current : Point T)
    (params : SimulationParams T) (gmmParams : list (GMMComponent T))
  : Gen T (StepResult T) :=
  match algorithm with
  | MH => mhGenerator current params gmmParams
  | GIBBS => gibbsGenerator current params gmmParams
  | HMC => hmcGenerator current params gmmParams
  | NUTS => nutsGenerator current params gmmParams
  end.

(** The branch [if (!generatorRef.current)] of [tick], on the state. *)
Definition prepare_sample (detailedMode : bool) (st : AppState) : AppState :=
  mkApp (app_history st) (app_current st) (app_proposal st) (app_stats st)
        (app_lastPath st)
        (if detailedMode then [] else app_stepLogs st)
        true.

(** [nextDelay]: 30 ms unless the detailed mode is on and the record
    recommends a (non-zero) delay. *)
Definition nextDelay (detailedMode : bool) (value : StepResult T) : Z :=
  if detailedMode
  then match delay value with
       | Some ms => if (ms =? 0)%Z then 30%Z else ms
       | None => 30%Z
       end
  else 30%Z.

(** The ticks of one sample, timing apart: a generator is made from the
    current position, and each record it yields is applied in turn. *)
Definition sample_once (detailedMode : bool) (algorithm : AlgorithmType)
    (params : SimulationParams T) (gmmParams : list (GMMComponent T))
    (st : AppState) (d : list T) : AppState :=
  fold_left apply_value
            (emitted (new_generator algorithm (app_current st) params
                                    gmmParams d))
            (prepare_sample detailedMode st).

(** [n] samples in a row: each generator is made from the point the
    previous sample ended at, and draws from what the previous ones left
    of the supply; a generator that is starved of draws never finishes its
    sample and no further one is started. *)
Fixpoint sample_many (detailedMode : bool) (algorithm : AlgorithmType)
    (params : SimulationParams T) (gmmParams : list (GMMComponent T))
    (n : nat) (st : AppState) (d : list T) : AppState :=
  match n with
  | O => st
  | S n' =>
      let st' := sample_once detailedMode algorithm params gmmParams st d in
      match snd (new_generator algorithm (app_current st) params gmmParams d)
      with
      | Some (_, rest) =>
          sample_many detailedMode algorithm params gmmParams n' st' rest
      | None => st'
      end
  end.
End App.

(** * The control panel ([ControlPanel.tsx]) *)

(** [keyof GMMComponent | 'muX' | 'muY' | 'weight'] *)
Inductive GMMField : Type :=
| field_mu | field_sigma | field_weight | field_id | field_muX | field_muY.

Section ControlPanel.
Context {T : Type} {N : Num T}.
Local Open Scope string_scope.
Local Open Scope list_scope.
Local Open Scope num_scope.

(** [newGmm[index] = comp] for an index inside the array. *)
Fixpoint set_index {A} (arr : list A) (index : nat) (a : A) : list A :=
  match arr, index with
  | [], _ => []
  | _ :: arr', O => a :: arr'
  | b :: arr', S i => b :: set_index arr' i a
  end.

(** What a call of [updateGMM] comes to. *)
Inductive Update : Type :=
| Updated (newGmm : list (GMMComponent T))
    (* [setGmmParams(newGmm); reset()] *)
| Malformed
    (* [newGmm[index]] is set to an object without [mu], [sigma], [id] *)
| TypeError.
    (* [comp.mu[1]] with [comp.mu] undefined: nothing is set *)

(** [updateGMM].  Outside the array [newGmm[index]] is [undefined] and its
    copy is [{}]: reading [comp.mu[..]] throws, and the other fields leave
    an object that is no [GMMComponent]. *)
Definition updateGMM (gmmParams : list (GMMComponent T)) (index : nat)
    (field : GMMField) (value : T) : Update :=
  let newGmm := gmmParams in
  match nth_error newGmm index with
  | Some comp =>
      let comp :=
        match field with
        | field_muX => mkGMM (value, (mu comp).[1]) (sigma comp)
                             (weight comp) (id comp)
        | field_muY => mkGMM ((mu comp).[0], value) (sigma comp)
                             (weight comp) (id comp)
        | field_weight => mkGMM (mu comp) (sigma comp) value (id comp)
        | _ => comp
        end in
      Updated (set_index newGmm index comp)
  | None =>
      match field with
      | field_muX | field_muY => TypeError
      | _ => Malformed
      end
  end.

(** [acceptanceRate]: the text shown, [((accepted / total) * 100).toFixed(1)]
    or ['0.0']. *)
Definition acceptanceRate (stats : Stats) : Fragment T :=
  if (0 <? stats_total stats)%nat
  then Fixed (of_length (stats_accepted stats) / of_length (stats_total stats)
              * lit 100) 1
  else Txt "0.0".
End ControlPanel.

Arguments Update T : clear implicits.

(** * The density heat map and the history ([MCMCVis.tsx]) *)

Section MCMCVis.
Context {T : Type} {N : Num T}.
Local Open Scope list_scope.
Local Open Scope num_scope.

Definition domainX : T * T := (- lit 6, lit 6).
Definition domainY : T * T := (- lit 6, lit 6).
Definition resolution : nat := 50.

(** One entry [{x, y, prob}] of [densityData]. *)
Definition density_sample (gmmParams : list (GMMComponent T)) (i j : nat)
  : T * T * T :=
  let x := domainX.[0]
           + (of_length i / of_length resolution) * (domainX.[1] - domainX.[0]) in
  let y := domainY.[0]
           + (of_length j / of_length resolution) * (domainY.[1] - domainY.[0]) in
  let logP := getLogProb (mkPoint x y) gmmParams in
  (x, y, Math_exp logP).

(** The two nested [for] loops that fill [densityData]. *)
Definition densityData (gmmParams : list (GMMComponent T))
  : list (T * T * T) :=
  flat_map (fun i => map (fun j => density_sample gmmParams i j)
                         (List.seq 0 resolution))
           (List.seq 0 resolution).

(** [history.slice(-2000)], the points drawn. *)
Definition visibleHistory (history : list (Point T)) : list (Point T) :=
  slice_last 2000 history.
End MCMCVis.

(** * Observations on the records of a cycle *)

Section RecordObservations.
Context {T : Type} {N : Num T}.
Local Open Scope list_scope.

(** The record carries a non-empty description: the test under which
    [tick] appends its [details] to the step log. *)
Definition described (r : StepResult T) : bool :=
  match description (details r) with
  | Some t => truthy_text t
  | None => false
  end.

(** The time the timers of [tick] are set for while the records [es] are
    consumed. *)
Definition scheduled (detailedMode : bool) (es : list (StepResult T)) : Z :=
  fold_right (fun r ms => (nextDelay detailedMode r + ms)%Z) 0%Z es.

(** A record before the terminal one, as the driver sees it; [moving]
    tells whether the record may show the chain away from [start]. *)
Definition interim_record (moving : bool) (start : Point T)
    (e : StepResult T) : Prop :=
  isFinishedStep e = false /\ accepted e = None /\ described e = true
  /\ (exists ms, delay e = Some ms /\ (100 <= ms)%Z)
  /\ (moving = false -> current e = start).

(** The terminal record; [always] tells whether it is accepted whatever
    happened. *)
Definition terminal_record (always : bool) (r : StepResult T) : Prop :=
  isFinishedStep r = true /\ described r = true
  /\ (exists ms, delay r = Some ms /\ (100 <= ms)%Z)
  /\ (exists b, accepted r = Some b /\ (always = true -> b = true)).
End RecordObservations.

(** * More scenarios *)

(** Over the reals: the chain at the origin, [stepSize = 0.5], a supply of
    draws in [[0, 1)], a state of the NUTS loop, counters, and a component
    with mean [(1, 1)]. *)
Module RealScenario.
Import RealModel.
Local Open Scope R_scope.

Definition real_origin : Point R := mkPoint 0 0.
Definition real_params : SimulationParams R :=
  mkParams (1 / 2) (Some 10%Z) None.
Definition unit_draws : list R :=
  [1 / 2; 1 / 4; 1 / 2; 1 / 4; 3 / 4; 1 / 2].
Definition resting_tree : @Tree R :=
  mkTree real_origin (mkPoint 1 0) (mkPoint 0 0) false 0 EmptyString
         [real_origin] [real_origin].
Definition one_of_two : Stats := mkStats 1 2.
Definition unit_component : GMMComponent R :=
  mkGMM (1, 1) ((2, 1), (1, 2)) 1 1%Z.
End RealScenario.

(** On binary64: a negative number of leapfrog steps, the driver after a
    reset, and a supply for two samples. *)
Module FloatScenario.
Import Floats.
Import Float64.
Local Open Scope float_scope.

Definition negative_steps_params : SimulationParams float :=
  mkParams 0.5 (Some (-3)%Z) None.
Definition reset_state : @AppState float := handleReset.
Definition two_sample_draws : list float :=
  Scenario.demo_draws ++ Scenario.demo_draws.
End FloatScenario.

(** * Facts about running generators *)

Section GenFacts.
Context {T : Type}.

Lemma bind_run {A B} (m : Gen T A) (f : A -> Gen T B) d es a d' :
  m d = (es, Some (a, d')) ->
  bind m f d = (es ++ fst (f a d'), snd (f a d')).
Proof.
  intros E. unfold bind. rewrite E. now destruct (f a d').
Qed.

Lemma bind_silent {A B} (m : Gen T A) (f : A -> Gen T B) d a d' :
  m d = ([], Some (a, d')) -> bind m f d = f a d'.
Proof.
  intros E. unfold bind. rewrite E. now destruct (f a d').
Qed.

Lemma bind_stuck {A B} (m : Gen T A) (f : A -> Gen T B) d es :
  m d = (es, None) -> bind m f d = (es, None).
Proof. intros E. unfold bind. now rewrite E. Qed.

Lemma bind_yield {B} (r : StepResult T) (f : unit -> Gen T B) d :
  bind (yield r) f d = (r :: fst (f tt d), snd (f tt d)).
Proof. unfold bind, yield. now destruct (f tt d). Qed.

Lemma bind_ret {A B} (a : A) (f : A -> Gen T B) d :
  bind (ret a) f d = f a d.
Proof. unfold bind, ret. now destruct (f a d). Qed.

Lemma bind_assoc {A B C} (m : Gen T A) (g : A -> Gen T B)
    (f : B -> Gen T C) d :
  bind (bind m g) f d = bind m (fun a => bind (g a) f) d.
Proof.
  unfold bind. destruct (m d) as [es [[a d1]|]]; auto.
  destruct (g a d1) as [es1 [[b d2]|]]; auto.
  destruct (f b d2) as [es2 o]. now rewrite app_assoc.
Qed.

Lemma bind_defined {A B} (a : A) (f : A -> Gen T B) d :
  bind (defined (Some a)) f d = f a d.
Proof. unfold bind, defined. now destruct (f a d). Qed.

Lemma bind_undefined {A B} (f : A -> Gen T B) d :
  bind (defined None) f d = ([], None).
Proof. reflexivity. Qed.
End GenFacts.

(** * The supply of draws *)

Section Draws.
Context {T : Type} {N : Num T}.
Local Open Scope num_scope.

Lemma nonzero_draws_app d1 d2 :
  nonzero_draws (d1 ++ d2) = (nonzero_draws d1 + nonzero_draws d2)%nat.
Proof. unfold nonzero_draws. now rewrite filter_app, length_app. Qed.

Lemma redraw_enough d :
  (1 <= nonzero_draws d)%nat ->
  exists z u d', d = z ++ u :: d' /\ zeros z /\ (u === lit 0) = false
                 /\ redraw_while_zero d = ([], Some (u, d'))
                 /\ nonzero_draws d' = (nonzero_draws d - 1)%nat.
Proof.
  unfold nonzero_draws. induction d as [|u d IH]; simpl; intros H.
  - lia.
  - destruct (u === lit 0) eqn:E; simpl in *.
    + destruct (IH H) as (z & v & d' & -> & Hz & Hv & Hr & Hc).
      exists (u :: z), v, d'. repeat split; auto. constructor; auto.
    + exists [], u, d. repeat split; auto; [constructor | lia].
Qed.

Lemma redraw_silent d : fst (redraw_while_zero d) = [].
Proof.
  induction d as [|u d IH]; simpl; auto. now destruct (u === lit 0).
Qed.

Lemma randn_enough d :
  (2 <= nonzero_draws d)%nat ->
  exists z1 u z2 v d',
    d = z1 ++ u :: z2 ++ v :: d'
    /\ zeros z1 /\ (u === lit 0) = false
    /\ zeros z2 /\ (v === lit 0) = false
    /\ randn d = ([], Some (box_muller u v, d'))
    /\ nonzero_draws d' = (nonzero_draws d - 2)%nat.
Proof.
  intros H.
  destruct (redraw_enough d) as (z1 & u & d1 & -> & Hz1 & Hu & E1 & C1); [lia|].
  destruct (redraw_enough d1) as (z2 & v & d2 & -> & Hz2 & Hv & E2 & C2); [lia|].
  exists z1, u, z2, v, d2. unfold randn.
  rewrite (bind_silent redraw_while_zero _ _ E1).
  rewrite (bind_silent redraw_while_zero _ _ E2).
  repeat split; auto. lia.
Qed.

Lemma random_enough d :
  (1 <= nonzero_draws d)%nat ->
  exists u d', Math_random d = ([], Some (u, d'))
               /\ (nonzero_draws d - 1 <= nonzero_draws d')%nat.
Proof.
  unfold nonzero_draws. destruct d as [|u d]; simpl; intros H.
  - lia.
  - exists u, d. split; auto. destruct (u === lit 0); simpl; lia.
Qed.

(** A generator never yields while it draws. *)
Lemma randn_silent d : fst (randn d) = [].
Proof.
  unfold randn, bind.
  destruct (redraw_while_zero d) as [es [[u d1]|]] eqn:E1;
    pose proof (redraw_silent d) as S1; rewrite E1 in S1; simpl in S1; subst;
    auto.
  destruct (redraw_while_zero d1) as [es [[v d2]|]] eqn:E2;
    pose proof (redraw_silent d1) as S2; rewrite E2 in S2; simpl in S2; subst;
    auto.
Qed.
End Draws.

(** * One cycle of each sampler, record by record *)

Section Cycles.
Context {T : Type} {N : Num T}.
Local Open Scope string_scope.
Local Open Scope list_scope.
Local Open Scope num_scope.

Implicit Types (start q : Point T) (params : SimulationParams T)
               (gmm : list (GMMComponent T)) (d : list T).

(** ** Metropolis-Hastings *)

Lemma mh_run start params gmm d z_x d1 z_y d2 dice d3 :
  randn d = ([], Some (z_x, d1)) ->
  randn d1 = ([], Some (z_y, d2)) ->
  d2 = dice :: d3 ->
  let candidate := mkPoint (x start + z_x * stepSize params)
                           (y start + z_y * stepSize params) in
  let alpha := acceptance gmm start candidate in
  let acc := dice < alpha in
  exists r1 r2 r3 final,
    mhGenerator start params gmm d = ([r1; r2; r3], Some (final, d3))
    /\ (current r1 = start /\ proposal r1 = Some candidate
        /\ phase (details r1) = Some "proposal"
        /\ isFinishedStep r1 = false
        /\ logProbCurrent (details r1) = Some (getLogProb start gmm))
    /\ (current r2 = start /\ proposal r2 = Some candidate
        /\ phase (details r2) = Some "compute"
        /\ isFinishedStep r2 = false
        /\ acceptanceProb (details r2) = Some alpha)
    /\ (current r3 = (if acc then candidate else start)
        /\ proposal r3 = Some candidate
        /\ accepted r3 = Some acc
        /\ phase (details r3) = Some (if acc then "accept" else "reject")
        /\ isFinishedStep r3 = true
        /\ acceptanceProb (details r3) = Some alpha)
    /\ current final = current r3 /\ isFinishedStep final = true.
Proof.
  intros E1 E2 -> candidate alpha acc.
  unfold mhGenerator.
  rewrite (bind_silent randn _ _ E1), (bind_silent randn _ _ E2).
  rewrite bind_yield, bind_yield. cbn [fst snd].
  rewrite (bind_silent Math_random _ (dice :: d3) (eq_refl _)).
  rewrite bind_yield. cbn [fst snd ret].
  do 4 eexists. split; [reflexivity|].
  cbn. repeat split; reflexivity.
Qed.

(** ** Gibbs *)

Lemma gibbs_run start params gmm d z_x d1 dice_x d2 z_y d3 dice_y d4 :
  randn d = ([], Some (z_x, d1)) ->
  d1 = dice_x :: d2 ->
  randn d2 = ([], Some (z_y, d3)) ->
  d3 = dice_y :: d4 ->
  let propX := x start + z_x * stepSize params in
  let acc_x := dice_x < acceptance gmm start (mkPoint propX (y start)) in
  let nextX := if acc_x then propX else x start in
  let propY := y start + z_y * stepSize params in
  let acc_y := dice_y < acceptance gmm (mkPoint nextX (y start))
                                       (mkPoint nextX propY) in
  let nextY := if acc_y then propY else y start in
  exists r1 r2 r3 final,
    gibbsGenerator start params gmm d = ([r1; r2; r3], Some (final, d4))
    /\ (current r1 = start /\ proposal r1 = None
        /\ phase (details r1) = Some "compute"
        /\ isFinishedStep r1 = false)
    /\ (current r2 = mkPoint nextX (y start)
        /\ proposal r2 = Some (mkPoint propX (y start))
        /\ phase (details r2) = Some "move_x"
        /\ isFinishedStep r2 = false)
    /\ (current r3 = mkPoint nextX nextY
        /\ proposal r3 = Some (mkPoint nextX propY)
        /\ accepted r3 = Some ((nextX !== x start) || (nextY !== y start))
        /\ phase (details r3) = Some "move_y"
        /\ isFinishedStep r3 = true)
    /\ current final = current r3 /\ isFinishedStep final = true.
Proof.
  intros E1 -> E2 -> propX acc_x nextX propY acc_y nextY.
  unfold gibbsGenerator.
  rewrite bind_yield. cbn [fst snd].
  rewrite (bind_silent randn _ _ E1).
  rewrite (bind_silent Math_random _ (dice_x :: d2) (eq_refl _)).
  rewrite bind_yield. cbn [fst snd].
  rewrite (bind_silent randn _ _ E2).
  rewrite (bind_silent Math_random _ (dice_y :: d4) (eq_refl _)).
  rewrite bind_yield. cbn [fst snd ret].
  do 4 eexists. split; [reflexivity|].
  cbn. repeat split; reflexivity.
Qed.

(** ** Hamiltonian Monte Carlo *)

Lemma last_nonempty {A} (l : list A) (a d1 d2 : A) :
  last (a :: l) d1 = last (a :: l) d2.
Proof.
  revert a. induction l as [|b l IH]; intros a; auto.
  change (last (b :: l) d1 = last (b :: l) d2). apply IH.
Qed.

Lemma leapfrog_steps_length gmm epsilon k q p :
  List.length (fst (leapfrog_steps gmm epsilon k q p)) = k.
Proof.
  revert q p. induction k as [|k IH]; intros q p; simpl; auto.
  specialize (IH (drift epsilon q p)
                 (match k with O => p
                  | S _ => kick gmm epsilon (drift epsilon q p) p end)).
  destruct (leapfrog_steps _ _ k _ _) as [visited final]. simpl in *.
  now rewrite IH.
Qed.

Lemma leapfrog_steps_last gmm epsilon k q p :
  last (fst (leapfrog_steps gmm epsilon k q p)) q
  = fst (snd (leapfrog_steps gmm epsilon k q p)).
Proof.
  revert q p. induction k as [|k IH]; intros q p; simpl; auto.
  specialize (IH (drift epsilon q p)
                 (match k with O => p
                  | S _ => kick gmm epsilon (drift epsilon q p) p end)).
  destruct (leapfrog_steps _ _ k _ _) as [visited final].
  simpl in *. rewrite <- IH. destruct visited as [|v visited]; auto.
  apply last_nonempty.
Qed.

(** The [for] loop of [hmcGenerator] performs the leapfrog steps, yields
    one record per step and consumes no draw. *)
Lemma leapfrog_for_run start gmm epsilon L stepDelay n i st d :
  (n <> O -> (i + Z.of_nat n = L)%Z) ->
  l_grad st = getGradLogProb (l_q st) gmm ->
  exists es st',
    leapfrog_for start gmm epsilon L stepDelay n i st d
    = (es, Some (st', d))
    /\ List.length es = n
    /\ Forall (fun r => current r = start
                        /\ isFinishedStep r = false
                        /\ proposal r = None
                        /\ phase (details r) = Some "leapfrog") es
    /\ l_path st'
       = l_path st ++ fst (leapfrog_steps gmm epsilon n (l_q st) (l_p st))
    /\ (l_q st', l_p st')
       = snd (leapfrog_steps gmm epsilon n (l_q st) (l_p st))
    /\ l_grad st' = getGradLogProb (l_q st') gmm.
Proof.
  revert i st d. induction n as [|n IH]; intros i st d Hi Hg.
  - exists [], st. simpl. rewrite app_nil_r. repeat split; auto.
  - assert (Hi' : (i + Z.of_nat (S n) = L)%Z) by (apply Hi; discriminate).
    clear Hi.
    cbn [leapfrog_for]. rewrite bind_yield.
    set (q' := mkPoint (x (l_q st) + epsilon * x (l_p st))
                       (y (l_q st) + epsilon * y (l_p st))).
    set (p' := if negb (i =? L - 1)%Z then _ else _).
    set (st1 := mkLeapfrog q' p' _ _).
    destruct (IH (i + 1)%Z st1 d) as (es & st' & E & Hlen & Hall & Hp & Hqp & Hg');
      [intros _; lia | reflexivity |].
    rewrite E. cbn [fst snd].
    eexists _, st'. split; [reflexivity|].
    assert (Hp' : p' = match n with
                       | O => l_p st
                       | S _ => kick gmm epsilon q' (l_p st)
                       end).
    { subst p'. destruct n as [|n].
      - replace (i =? L - 1)%Z with true by (symmetry; apply Z.eqb_eq; lia).
        reflexivity.
      - replace (i =? L - 1)%Z with false by (symmetry; apply Z.eqb_neq; lia).
        reflexivity. }
    cbn [leapfrog_steps]. fold (drift epsilon (l_q st) (l_p st)).
    change (drift epsilon (l_q st) (l_p st)) with q'.
    rewrite <- Hp'.
    change q' with (l_q st1) in Hp, Hqp |- * at 1.
    cbn [l_q l_p l_path st1] in Hp, Hqp.
    destruct (leapfrog_steps gmm epsilon n q' p') as [visited fin].
    cbn [fst snd] in *.
    split; [simpl; now rewrite Hlen|].
    split; [constructor; auto; cbn; repeat split; reflexivity|].
    split; [rewrite Hp, <- app_assoc; reflexivity|].
    split; assumption.
Qed.

Lemma hmc_run start params gmm d z_x d1 z_y d2 dice d3 :
  randn d = ([], Some (z_x, d1)) ->
  randn d1 = ([], Some (z_y, d2)) ->
  d2 = dice :: d3 ->
  let L := leapfrog_count params in
  let epsilon := stepSize params * c_half in
  let p0 := mkPoint z_x z_y in
  let traj := leapfrog_trajectory gmm epsilon (Z.to_nat L) start p0 in
  let q_L := fst (snd traj) in
  let p_L := snd (snd traj) in
  let H0 := hamiltonian gmm start p0 in
  let H1 := hamiltonian gmm q_L p_L in
  let acc := dice < Math_min (lit 1) (Math_exp (H0 - H1)) in
  exists r1 leap r3 final,
    hmcGenerator start params gmm d = (r1 :: leap ++ [r3], Some (final, d3))
    /\ (current r1 = start /\ phase (details r1) = Some "momentum"
        /\ isFinishedStep r1 = false /\ proposal r1 = None
        /\ currentH (details r1) = Some H0)
    /\ List.length leap = Z.to_nat L
    /\ Forall (fun r => current r = start
                        /\ isFinishedStep r = false
                        /\ proposal r = None
                        /\ phase (details r) = Some "leapfrog") leap
    /\ (current r3 = (if acc then q_L else start)
        /\ accepted r3 = Some acc
        /\ path r3 = Some (fst traj)
        /\ proposal r3 = None
        /\ phase (details r3) = Some (if acc then "accept" else "reject")
        /\ proposedH (details r3) = Some H1
        /\ isFinishedStep r3 = true)
    /\ current final = current r3 /\ isFinishedStep final = true.
Proof.
  intros E1 E2 -> L epsilon p0 traj q_L p_L H0 H1 acc.
  unfold hmcGenerator.
  rewrite (bind_silent randn _ _ E1), (bind_silent randn _ _ E2).
  rewrite bind_yield. cbn [fst snd].
  fold L. fold epsilon.
  set (st0 := mkLeapfrog _ _ _ _).
  destruct (@leapfrog_for_run start gmm epsilon L (Z.max 100 (2500 / L))
              (Z.to_nat L) 0%Z st0 (dice :: d3))
    as (es & st' & E & Hlen & Hall & Hp & Hqp & Hg);
    [intros Hn; lia | reflexivity |].
  rewrite (bind_run _ _ _ E). cbn [fst snd].
  rewrite (bind_silent Math_random _ (dice :: d3) (eq_refl _)).
  rewrite bind_yield. cbn [fst snd ret].
  assert (Htraj : fst traj = l_path st'
                  /\ q_L = l_q st'
                  /\ p_L = half_kick gmm epsilon (l_q st') (l_p st')).
  { subst q_L p_L traj. unfold leapfrog_trajectory.
    change (l_p st0) with (half_kick gmm epsilon start p0) in Hp, Hqp.
    change (l_q st0) with start in Hp, Hqp.
    change (l_path st0) with [start] in Hp.
    destruct (leapfrog_steps gmm epsilon (Z.to_nat L) start
                (half_kick gmm epsilon start p0)) as [visited [q_k p_k]].
    cbn [fst snd] in *. injection Hqp as Hq1 Hp1.
    rewrite Hp, Hq1, Hp1. repeat split; reflexivity. }
  destruct Htraj as (Ht & Hq & Hpl).
  do 4 eexists. split; [reflexivity|].
  split; [cbn; repeat split; reflexivity|].
  split; [assumption|]. split; [assumption|].
  split; [|split; reflexivity].
  cbn. rewrite Ht, Hq.
  assert (HH : H1 = - getLogProb (l_q st') gmm
                    + c_half * (x (half_kick gmm epsilon (l_q st') (l_p st'))
                                * x (half_kick gmm epsilon (l_q st') (l_p st'))
                                + y (half_kick gmm epsilon (l_q st') (l_p st'))
                                  * y (half_kick gmm epsilon (l_q st') (l_p st'))))
    by (subst H1; rewrite Hq, Hpl; reflexivity).
  subst acc. rewrite HH. unfold half_kick. rewrite <- Hg. cbn.
  repeat split; reflexivity.
Qed.

(** ** NUTS *)

Section TreeLoop.
Variable start : Point T.
Variable gmm : list (GMMComponent T).
Variables epsilon startH log_u : T.

Local Abbreviation body := (tree_body start gmm epsilon startH log_u).
Local Abbreviation loop := (tree_loop start gmm epsilon startH log_u).
Local Abbreviation position := (pass_position epsilon).
Local Abbreviation diverges := (pass_diverges gmm epsilon startH).
Local Abbreviation turns := (pass_turns start epsilon).
Local Abbreviation in_slice := (pass_in_slice gmm epsilon log_u).
Local Abbreviation passes := (tree_passes start gmm epsilon startH log_u).

(** The loop body computes the energy and the product that a pass has to
    observe. *)
Lemma tree_energy_pass st :
  tree_energy gmm epsilon st = pass_energy gmm epsilon st.
Proof. reflexivity. Qed.

Lemma tree_dot_pass st :
  tree_dot start epsilon st = pass_dot start epsilon st.
Proof. reflexivity. Qed.

Lemma tree_body_state st :
  let st1 := fst (body st) in
  t_q st1 = position st
  /\ t_path st1 = t_path st ++ [position st]
  /\ t_validCandidates st1
     = t_validCandidates st
       ++ (if in_slice st then [position st] else [])
  /\ t_stopped st1 = t_stopped st || diverges st || turns st
  /\ t_steps st1 = (if turns st then t_steps st else S (t_steps st))
  /\ t_reason st1 = (if turns st then "U-Turn Detected"
                     else if diverges st then "Divergence"
                     else t_reason st).
Proof.
  unfold pass_in_slice, pass_diverges, pass_turns.
  rewrite <- tree_energy_pass, <- tree_dot_pass.
  unfold tree_body, pass_position, drift.
  destruct (tree_dot start epsilon st < lit 0);
    destruct (tree_energy gmm epsilon st - startH > lit 1000);
    destruct (- tree_energy gmm epsilon st >= log_u);
    destruct (t_stopped st);
    cbn; rewrite ?app_nil_r; repeat split; reflexivity.
Qed.

Lemma tree_body_emission st :
  let e := snd (body st) in
  current e = start /\ isFinishedStep e = false /\ proposal e = None
  /\ accepted e = None
  /\ phase (details e) = Some "tree_build"
  /\ path e = Some (t_path st ++ [position st]).
Proof.
  unfold tree_body.
  destruct (tree_dot start epsilon st < lit 0); cbn;
    repeat split; reflexivity.
Qed.

(** The loop exits by itself: fuel that covers the steps left up to
    [maxSteps] is never used up, and the body runs at most that many
    times. *)
Lemma tree_loop_run fuel st d :
  t_stopped st = true \/ (maxSteps - t_steps st <= fuel)%nat ->
  exists ss st',
    loop fuel st d = (map (fun s => snd (body s)) ss, Some (Some st', d))
    /\ passes st ss st'
    /\ (List.length ss
        <= if t_stopped st then 0 else maxSteps - t_steps st)%nat.
Proof.
  revert st d. induction fuel as [|fuel IH]; intros st d Hf.
  - exists [], st. cbn [tree_loop].
    assert (Hc : loop_continues st = false).
    { unfold loop_continues. destruct Hf as [->|Hf]; [reflexivity|].
      destruct (t_stopped st); [reflexivity|]. simpl.
      apply Nat.ltb_ge. lia. }
    unfold loop_continues in Hc. rewrite Hc.
    split; [reflexivity|]. split; [constructor; exact Hc|]. simpl. lia.
  - cbn [tree_loop].
    destruct (negb (t_stopped st) && (t_steps st <? maxSteps)%nat) eqn:Hc.
    + apply andb_prop in Hc. destruct Hc as [Hs Hlt].
      apply negb_true_iff in Hs. apply Nat.ltb_lt in Hlt.
      destruct Hf as [Hf|Hf]; [congruence|].
      pose proof (tree_body_state st) as (_ & _ & _ & Hst & Hsteps & _).
      fold body.
      destruct (body st) as [st1 e] eqn:Eb. cbn [fst] in Hst, Hsteps.
      rewrite bind_yield.
      destruct (IH st1 d) as (ss & st' & E & Hp & Hlen).
      { rewrite Hst, Hsteps, Hs.
        destruct (turns st); [left; apply orb_true_r|].
        right. lia. }
      fold (tree_loop start gmm epsilon startH log_u) in E |- *.
      rewrite E. cbn [fst snd].
      exists (st :: ss), st'. cbn [map]. rewrite Eb. cbn [snd].
      split; [reflexivity|].
      split.
      * constructor.
        -- unfold loop_continues. rewrite Hs. simpl.
           now apply Nat.ltb_lt.
        -- now rewrite Eb.
      * rewrite Hs. rewrite Hst, Hsteps, Hs in Hlen. cbn [List.length].
        destruct (turns st), (diverges st);
          cbn [orb] in Hlen; cbv iota in Hlen |- *; lia.
    + exists [], st. split; [reflexivity|].
      split; [constructor; exact Hc|]. simpl. lia.
Qed.

(** What the loop has accumulated when it exits. *)
Lemma tree_passes_state st ss st' :
  passes st ss st' ->
  loop_continues st' = false
  /\ t_path st' = t_path st ++ map position ss
  /\ t_validCandidates st'
     = t_validCandidates st
       ++ map position (filter in_slice ss).
Proof.
  induction 1 as [st Hc | st ss st' Hc Hp IH].
  - simpl. rewrite !app_nil_r. auto.
  - destruct IH as (Hexit & Hpath & Hvalid).
    pose proof (tree_body_state st) as (_ & Hp1 & Hv1 & _).
    cbn zeta in Hp1, Hv1.
    rewrite Hp1 in Hpath. rewrite Hv1 in Hvalid.
    split; [assumption|]. split.
    + rewrite Hpath, <- app_assoc. reflexivity.
    + rewrite Hvalid, <- app_assoc. cbn [filter].
      destruct (in_slice st); reflexivity.
Qed.

Lemma tree_passes_deterministic st ss1 st1 ss2 st2 :
  passes st ss1 st1 -> passes st ss2 st2 ->
  ss1 = ss2 /\ st1 = st2.
Proof.
  intros H1. revert ss2 st2.
  induction H1 as [st Hc | st ss st' Hc Hp IH]; intros ss2 st2 H2.
  - inversion H2; subst; [auto | congruence].
  - inversion H2 as [? Hc2 | ? ss2' ? Hc2 Hp2]; subst; [congruence|].
    destruct (IH _ _ Hp2) as [-> ->]. auto.
Qed.

(** Every pass but the last sees neither a divergence nor a U-turn, and
    the loop exits after a pass that sees one, or at the step cap. *)
Lemma tree_passes_stop st ss st' :
  passes st ss st' ->
  t_stopped st = false ->
  (forall s, In s (removelast ss) ->
             diverges s = false /\ turns s = false)
  /\ (ss <> [] ->
      diverges (last ss st) = true \/ turns (last ss st) = true
      \/ t_steps st' = maxSteps).
Proof.
  induction 1 as [st Hc | st ss st' Hc Hp IH]; intros Hs.
  - split; [intros s []|congruence].
  - pose proof (tree_body_state st) as (_ & _ & _ & Hst & Hsteps & _).
    cbn zeta in Hst, Hsteps.
    rewrite Hs in Hst. simpl in Hst.
    destruct (diverges st || turns st) eqn:Hstop.
    + (* this pass stops the loop *)
      inversion Hp as [st1 Hc1 | st1 ss1 st1' Hc1]; subst.
      * split; [intros s []|]. intros _. simpl.
        apply orb_prop in Hstop. tauto.
      * unfold loop_continues in Hc1. rewrite Hst in Hc1. discriminate.
    + apply orb_false_elim in Hstop. destruct Hstop as [Hd Ht].
      rewrite Ht in Hsteps.
      destruct (IH Hst) as [Hbefore Hlast].
      destruct ss as [|s ss].
      * split; [intros s0 []|]. intros _. right. right. simpl.
        inversion Hp as [st1 Hc1 | ]; subst.
        unfold loop_continues in Hc1. rewrite Hst in Hc1. simpl in Hc1.
        apply Nat.ltb_ge in Hc1.
        unfold loop_continues in Hc. rewrite Hs in Hc. simpl in Hc.
        apply Nat.ltb_lt in Hc. lia.
      * split.
        -- intros s0 Hin. change (removelast (st :: s :: ss))
             with (st :: removelast (s :: ss)) in Hin.
           destruct Hin as [<-|Hin]; auto.
        -- intros _. change (last (st :: s :: ss) st)
             with (last (s :: ss) st).
           rewrite (last_nonempty ss s st (fst (body st))).
           apply Hlast. discriminate.
Qed.
End TreeLoop.

Lemma nuts_run start params gmm d z_x d1 z_y d2 u r d3 :
  randn d = ([], Some (z_x, d1)) ->
  randn d1 = ([], Some (z_y, d2)) ->
  d2 = u :: r :: d3 ->
  let epsilon := stepSize params * c_0_4 in
  let p0 := mkPoint z_x z_y in
  let startH := hamiltonian gmm start p0 in
  let log_u := Math_log u - startH in
  let st0 := mkTree start (half_kick gmm epsilon start p0)
                    (getGradLogProb start gmm) false 0 "" [start] [start] in
  exists ss st',
    tree_passes start gmm epsilon startH log_u st0 ss st'
    /\ (1 <= List.length ss <= maxSteps)%nat
    /\ let candidates :=
         start :: map (pass_position epsilon)
                      (filter (pass_in_slice gmm epsilon log_u) ss) in
       let trajectory := start :: map (pass_position epsilon) ss in
       let tree := map (fun s => snd (tree_body start gmm epsilon
                                                 startH log_u s)) ss in
       exists r1,
         (current r1 = start /\ phase (details r1) = Some "momentum"
          /\ isFinishedStep r1 = false /\ proposal r1 = None
          /\ currentH (details r1) = Some startH)
         /\ match select candidates r with
            | None =>
                nutsGenerator start params gmm d = (r1 :: tree, None)
            | Some nextQ =>
                exists r3 final,
                nutsGenerator start params gmm d
                = (r1 :: tree ++ [r3], Some (final, d3))
                /\ (current r3 = nextQ
                    /\ accepted r3 = Some true
                    /\ path r3 = Some trajectory
                    /\ proposal r3 = None
                    /\ phase (details r3) = Some "accept"
                    /\ isFinishedStep r3 = true)
                /\ current final = nextQ /\ isFinishedStep final = true
            end.
Proof.
  intros E1 E2 -> epsilon p0 startH log_u st0.
  destruct (@tree_loop_run start gmm epsilon startH log_u maxSteps st0
                           (r :: d3))
    as (ss & st' & E & Hp & Hlen);
    [right; change (maxSteps - 0 <= maxSteps)%nat; lia|].
  exists ss, st'. split; [assumption|].
  destruct (tree_passes_state Hp) as (Hexit & Hpath & Hvalid).
  cbn [t_path t_validCandidates st0 app] in Hpath, Hvalid.
  split.
  { split; [|change (List.length ss <= maxSteps - 0)%nat in Hlen; lia].
    inversion Hp; subst; [discriminate|]. simpl. lia. }
  cbn zeta.
  unfold nutsGenerator.
  rewrite (bind_silent randn _ _ E1), (bind_silent randn _ _ E2).
  rewrite (bind_silent Math_random _ (u :: r :: d3) (eq_refl _)).
  rewrite bind_yield. cbn [fst snd].
  fold epsilon. fold p0.
  change (- getLogProb start gmm + c_half * (x p0 * x p0 + y p0 * y p0))
    with startH.
  fold log_u.
  change (mkTree start _ _ false 0 "" [start] [start]) with st0.
  rewrite (bind_run _ _ _ E). cbn [fst snd].
  rewrite bind_defined.
  rewrite Hvalid, Hpath. cbn [List.length Nat.ltb Nat.leb].
  rewrite bind_assoc.
  rewrite (bind_silent Math_random _ (r :: d3) (eq_refl _)).
  rewrite bind_assoc.
  unfold select. cbn beta zeta. cbn [List.length].
  set (picked := match to_index _ with Some i => _ | None => None end).
  eexists. split; cycle 1.
  - destruct picked as [q|].
    + rewrite bind_defined, !bind_ret, bind_yield.
      cbn [fst snd ret]. do 2 eexists. split; [reflexivity|].
      cbn. repeat split; reflexivity.
    + rewrite bind_undefined.
      cbn [fst snd]. rewrite app_nil_r. reflexivity.
  - cbn. repeat split; reflexivity.
Qed.

Lemma selectable_select r (candidates : list (Point T)) :
  selectable r = true ->
  (1 <= List.length candidates <= S maxSteps)%nat ->
  exists q, select candidates r = Some q /\ In q candidates.
Proof.
  unfold selectable, select. intros Hs Hlen.
  rewrite forallb_forall in Hs.
  specialize (Hs (List.length candidates)).
  rewrite in_seq in Hs. specialize (Hs ltac:(lia)).
  destruct (to_index _) as [i|]; [|discriminate].
  apply Nat.ltb_lt in Hs.
  destruct (nth_error candidates i) as [q|] eqn:E.
  - exists q. split; auto. eapply nth_error_In; eauto.
  - apply nth_error_None in E. lia.
Qed.

Lemma filter_length {A} (f : A -> bool) (l : list A) :
  (List.length (filter f l) <= List.length l)%nat.
Proof.
  induction l as [|a l IH]; simpl; auto. destruct (f a); simpl; lia.
Qed.

(** ** The draws a cycle needs *)

Lemma two_normals_one_draw d :
  (5 <= nonzero_draws d)%nat ->
  exists z1 u_x z2 v_x z3 u_y z4 v_y dice rest,
    d = z1 ++ u_x :: z2 ++ v_x :: z3 ++ u_y :: z4 ++ v_y :: dice :: rest
    /\ zeros z1 /\ zeros z2 /\ zeros z3 /\ zeros z4
    /\ randn d = ([], Some (box_muller u_x v_x,
                            z3 ++ u_y :: z4 ++ v_y :: dice :: rest))
    /\ randn (z3 ++ u_y :: z4 ++ v_y :: dice :: rest)
       = ([], Some (box_muller u_y v_y, dice :: rest)).
Proof.
  intros H.
  destruct (randn_enough d)
    as (z1 & u_x & z2 & v_x & d1 & -> & Hz1 & _ & Hz2 & _ & E1 & C1); [lia|].
  destruct (randn_enough d1)
    as (z3 & u_y & z4 & v_y & d2 & -> & Hz3 & _ & Hz4 & _ & E2 & C2); [lia|].
  destruct d2 as [|dice rest].
  { change (nonzero_draws (@nil T)) with O in C2. lia. }
  exists z1, u_x, z2, v_x, z3, u_y, z4, v_y, dice, rest.
  repeat split; auto.
Qed.

Lemma gibbs_supply d :
  (6 <= nonzero_draws d)%nat ->
  exists z_x d1 dice_x d2 z_y d3 dice_y d4,
    randn d = ([], Some (z_x, d1)) /\ d1 = dice_x :: d2
    /\ randn d2 = ([], Some (z_y, d3)) /\ d3 = dice_y :: d4.
Proof.
  intros H.
  destruct (randn_enough d)
    as (_ & u_x & _ & v_x & d1 & _ & _ & _ & _ & _ & E1 & C1); [lia|].
  destruct (random_enough d1) as (dice_x & d2 & Ex & C2); [lia|].
  destruct d1 as [|a d1']; [discriminate|]. injection Ex as -> ->.
  destruct (randn_enough d2)
    as (_ & u_y & _ & v_y & d3 & _ & _ & _ & _ & _ & E2 & C3); [lia|].
  destruct (random_enough d3) as (dice_y & d4 & Ey & _); [lia|].
  destruct d3 as [|b d3']; [discriminate|]. injection Ey as -> ->.
  repeat eexists; eauto.
Qed.

Lemma nuts_supply d :
  (6 <= nonzero_draws d)%nat ->
  exists z_x d1 z_y u r d3,
    randn d = ([], Some (z_x, d1))
    /\ randn d1 = ([], Some (z_y, u :: r :: d3))
    /\ In r d.
Proof.
  intros H.
  destruct (randn_enough d)
    as (z1 & u_x & z2 & v_x & d1 & -> & _ & _ & _ & _ & E1 & C1); [lia|].
  destruct (randn_enough d1)
    as (z3 & u_y & z4 & v_y & d2 & -> & _ & _ & _ & _ & E2 & C2); [lia|].
  destruct (random_enough d2) as (u & d2' & Eu & C3); [lia|].
  destruct d2 as [|a d2'']; [discriminate|]. injection Eu as -> ->.
  destruct (random_enough d2') as (r & d3 & Er & _); [lia|].
  destruct d2' as [|b d3']; [discriminate|]. injection Er as -> ->.
  exists (box_muller u_x v_x), (z3 ++ u_y :: z4 ++ v_y :: u :: r :: d3),
         (box_muller u_y v_y), u, r, d3.
  repeat split; auto.
  repeat (apply in_or_app; right; right). right. now left.
Qed.

(** The draws of a NUTS cycle, one by one: two non-zero draws for each
    coordinate of the momentum, then the slice draw and the selection
    draw. *)
Lemma nuts_draws d :
  (6 <= nonzero_draws d)%nat ->
  exists z1 u_x z2 v_x z3 u_y z4 v_y u r rest,
    d = z1 ++ u_x :: z2 ++ v_x :: z3 ++ u_y :: z4 ++ v_y :: u :: r :: rest
    /\ (zeros z1 /\ zeros z2 /\ zeros z3 /\ zeros z4)
    /\ ((u_x === lit 0) = false /\ (v_x === lit 0) = false
        /\ (u_y === lit 0) = false /\ (v_y === lit 0) = false)
    /\ randn d = ([], Some (box_muller u_x v_x,
                            z3 ++ u_y :: z4 ++ v_y :: u :: r :: rest))
    /\ randn (z3 ++ u_y :: z4 ++ v_y :: u :: r :: rest)
       = ([], Some (box_muller u_y v_y, u :: r :: rest))
    /\ In r d.
Proof.
  intros H.
  destruct (randn_enough d)
    as (z1 & u_x & z2 & v_x & d1 & -> & Hz1 & Hux & Hz2 & Hvx & E1 & C1);
    [lia|].
  destruct (randn_enough d1)
    as (z3 & u_y & z4 & v_y & d2 & -> & Hz3 & Huy & Hz4 & Hvy & E2 & C2);
    [lia|].
  destruct (random_enough d2) as (u & d2' & Eu & C3); [lia|].
  destruct d2 as [|a d2'']; [discriminate|]. injection Eu as -> ->.
  destruct (random_enough d2') as (r & rest & Er & _); [lia|].
  destruct d2' as [|b d3']; [discriminate|]. injection Er as -> ->.
  exists z1, u_x, z2, v_x, z3, u_y, z4, v_y, u, r, rest.
  split; [reflexivity|]. split; [auto|]. split; [auto|].
  split; [exact E1|]. split; [exact E2|].
  repeat (apply in_or_app; right; right). right. now left.
Qed.
End Cycles.

(** * The claims about the samplers, for every arithmetic *)

Section SamplerClaims.
Context {T : Type} {N : Num T}.
Local Open Scope string_scope.
Local Open Scope list_scope.
Local Open Scope num_scope.

Implicit Types (start : Point T) (params : SimulationParams T)
               (gmm : list (GMMComponent T)) (d : list T).

(** C3.  Whenever the supply holds five non-zero draws, one
    Metropolis-Hastings cycle yields exactly three records, tagged
    [proposal], [compute] and then [accept] or [reject], of which only the
    third has [isFinishedStep = true].  The candidate is [start] plus, per
    coordinate, a Box-Muller normal variate of its own two draws times
    [stepSize]; the acceptance probability is
    [min(1, exp(logP(candidate) - logP(start)))]; the move is accepted
    exactly when the next draw [dice] is below it; the third record's
    [current] is the candidate when accepted and [start] otherwise. *)
Theorem mh_cycle_three_records start params gmm d :
  (5 <= nonzero_draws d)%nat ->
  exists z1 u_x z2 v_x z3 u_y z4 v_y dice rest r1 r2 r3 final,
    let candidate :=
      mkPoint (x start + box_muller u_x v_x * stepSize params)
              (y start + box_muller u_y v_y * stepSize params) in
    let alpha :=
      Math_min (lit 1)
               (Math_exp (getLogProb candidate gmm - getLogProb start gmm)) in
    let acc := dice < alpha in
    d = z1 ++ u_x :: z2 ++ v_x :: z3 ++ u_y :: z4 ++ v_y :: dice :: rest
    /\ zeros z1 /\ zeros z2 /\ zeros z3 /\ zeros z4
    /\ mhGenerator start params gmm d = ([r1; r2; r3], Some (final, rest))
    /\ map (fun r => phase (details r)) [r1; r2; r3]
       = [Some "proposal"; Some "compute";
          Some (if acc then "accept" else "reject")]
    /\ map (@isFinishedStep T) [r1; r2; r3] = [false; false; true]
    /\ map (@proposal T) [r1; r2; r3]
       = [Some candidate; Some candidate; Some candidate]
    /\ acceptanceProb (details r2) = Some alpha
    /\ acceptanceProb (details r3) = Some alpha
    /\ accepted r3 = Some acc
    /\ current r3 = (if acc then candidate else start)
    /\ current final = current r3.
Proof.
  intros H.
  destruct (randn_enough d)
    as (z1 & u_x & z2 & v_x & d1 & -> & Hz1 & _ & Hz2 & _ & E1 & C1); [lia|].
  destruct (randn_enough d1)
    as (z3 & u_y & z4 & v_y & d2 & -> & Hz3 & _ & Hz4 & _ & E2 & C2); [lia|].
  destruct (random_enough d2) as (dice & rest & Ed & _); [lia|].
  destruct d2 as [|dice' rest']; [discriminate|].
  injection Ed as -> ->.
  destruct (@mh_run _ _ start params gmm _ _ _ _ _ _ _ E1 E2 eq_refl)
    as (r1 & r2 & r3 & final & E & (C1a & P1 & Ph1 & F1 & _)
        & (C2a & P2 & Ph2 & F2 & A2) & (C3a & P3 & A3 & Ph3 & F3 & A3')
        & Cf & _).
  exists z1, u_x, z2, v_x, z3, u_y, z4, v_y, dice, rest, r1, r2, r3, final.
  cbn zeta. unfold acceptance in *.
  repeat split; auto.
  - cbn [map]. now rewrite Ph1, Ph2, Ph3.
  - cbn [map]. now rewrite F1, F2, F3.
  - cbn [map]. now rewrite P1, P2, P3.
Qed.


(** C8.  Whenever the supply of draws lets the cycle finish, the
    [accepted] flag of the terminal Gibbs record is
    [final.x !== start.x || final.y !== start.y] for the record's own
    [current] point [final]: it is true exactly when the final point
    differs from the starting point on at least one axis, whatever the two
    Metropolis sub-updates decided. *)
Theorem gibbs_accepted_means_moved start params gmm d :
  (6 <= nonzero_draws d)%nat ->
  exists es r final rest,
    gibbsGenerator start params gmm d = (es ++ [r], Some (final, rest))
    /\ isFinishedStep r = true
    /\ accepted r
       = Some ((x (current r) !== x start) || (y (current r) !== y start))
    /\ (accepted r = Some true
        <-> (x (current r) !== x start) = true
            \/ (y (current r) !== y start) = true).
Proof.
  intros H.
  destruct (gibbs_supply d H)
    as (z_x & d1 & dice_x & d2 & z_y & d3 & dice_y & d4 & E1 & -> & E2 & ->).
  destruct (@gibbs_run _ _ start params gmm _ _ _ _ _ _ _ _ _ E1 eq_refl
                       E2 eq_refl)
    as (r1 & r2 & r3 & final & E & _ & _ & (C3 & _ & A3 & _ & F3) & _).
  exists [r1; r2], r3, final, d4.
  assert (A : accepted r3
              = Some ((x (current r3) !== x start)
                      || (y (current r3) !== y start)))
    by (rewrite A3, C3; reflexivity).
  repeat split; auto.
  - rewrite A. intros [= Hm]. now apply orb_prop.
  - rewrite A. intros Hm. f_equal. now apply orb_true_iff.
Qed.

Lemma leapfrog_count_given params L :
  numSteps params = Some L -> (1 <= L)%Z -> leapfrog_count params = L.
Proof.
  unfold leapfrog_count. intros -> HL.
  destruct (Z.eqb_spec L 0); [lia|reflexivity].
Qed.

Lemma leapfrog_count_default params :
  numSteps params = None \/ numSteps params = Some 0%Z ->
  leapfrog_count params = 10%Z.
Proof. unfold leapfrog_count. now intros [-> | ->]. Qed.

(** The trajectory of the terminal HMC record, as the generator computes
    it.  With [numSteps = L >= 1] and a supply that lets the cycle finish,
    the record carries [start :: positions], of [L + 1] points, where
    [positions] are the [L] positions of the scheme [leapfrog_steps] run
    with step size [0.5 * stepSize] from the momentum after an initial half
    step: [L] position steps, each followed by a full momentum step except
    the last.  The trajectory is there whatever the [accepted] flag says;
    the proposal is the last position, and the energy [proposedH] is taken
    at the momentum after a trailing half step.  The momentum steps are the
    generator's, [p - epsilon * grad]: they go against the force. *)
Lemma hmc_terminal_trajectory start params gmm d L :
  numSteps params = Some L -> (1 <= L)%Z ->
  (5 <= nonzero_draws d)%nat ->
  exists z1 u_x z2 v_x z3 u_y z4 v_y dice rest es r final,
    let epsilon := stepSize params * c_half in
    let p0 := mkPoint (box_muller u_x v_x) (box_muller u_y v_y) in
    let steps := leapfrog_steps gmm epsilon (Z.to_nat L) start
                                (half_kick gmm epsilon start p0) in
    let positions := fst steps in
    let q_L := fst (snd steps) in
    let p_L := half_kick gmm epsilon q_L (snd (snd steps)) in
    d = z1 ++ u_x :: z2 ++ v_x :: z3 ++ u_y :: z4 ++ v_y :: dice :: rest
    /\ zeros z1 /\ zeros z2 /\ zeros z3 /\ zeros z4
    /\ hmcGenerator start params gmm d = (es ++ [r], Some (final, rest))
    /\ isFinishedStep r = true
    /\ path r = Some (start :: positions)
    /\ List.length positions = Z.to_nat L
    /\ List.length (start :: positions) = (Z.to_nat L + 1)%nat
    /\ q_L = last positions start
    /\ (exists acc, accepted r = Some acc
                    /\ current r = if acc then q_L else start)
    /\ proposedH (details r) = Some (hamiltonian gmm q_L p_L).
Proof.
  intros HL Hpos H.
  destruct (two_normals_one_draw d)
    as (z1 & u_x & z2 & v_x & z3 & u_y & z4 & v_y & dice & rest
        & Hd & Hz1 & Hz2 & Hz3 & Hz4 & E1 & E2); [lia|].
  destruct (@hmc_run _ _ start params gmm _ _ _ _ _ _ _ E1 E2 eq_refl)
    as (r1 & leap & r3 & final & E & _ & _ & _
        & (C3 & A3 & P3 & _ & _ & H3 & F3) & _).
  rewrite (leapfrog_count_given params HL Hpos) in *.
  rewrite app_comm_cons in E.
  exists z1, u_x, z2, v_x, z3, u_y, z4, v_y, dice, rest, (r1 :: leap), r3,
         final.
  cbn zeta.
  unfold leapfrog_trajectory in *.
  pose proof (leapfrog_steps_length gmm (stepSize params * c_half)
                (Z.to_nat L) start
                (half_kick gmm (stepSize params * c_half) start
                           (mkPoint (box_muller u_x v_x)
                                    (box_muller u_y v_y)))) as Hlen.
  pose proof (leapfrog_steps_last gmm (stepSize params * c_half)
                (Z.to_nat L) start
                (half_kick gmm (stepSize params * c_half) start
                           (mkPoint (box_muller u_x v_x)
                                    (box_muller u_y v_y)))) as Hlast.
  destruct (leapfrog_steps _ _ _ _ _) as [visited [q_k p_k]].
  cbn [fst snd] in *.
  repeat split; auto.
  - simpl. rewrite Hlen. lia.
  - eexists. split; [exact A3 | exact C3].
Qed.

(** C9.  When [numSteps] is absent, or is [0], the HMC generator runs ten
    leapfrog steps: given a supply that lets the cycle finish, it yields
    twelve records and the terminal one carries a trajectory of eleven
    points. *)
Theorem hmc_default_leapfrog_count start params gmm d :
  numSteps params = None \/ numSteps params = Some 0%Z ->
  (5 <= nonzero_draws d)%nat ->
  leapfrog_count params = 10%Z
  /\ exists es r final rest trajectory,
      hmcGenerator start params gmm d = (es ++ [r], Some (final, rest))
      /\ List.length (es ++ [r]) = 12%nat
      /\ isFinishedStep r = true
      /\ Forall (fun e => isFinishedStep e = false) es
      /\ path r = Some trajectory
      /\ List.length trajectory = 11%nat.
Proof.
  intros Hn H. pose proof (leapfrog_count_default params Hn) as HL.
  split; [exact HL|].
  destruct (two_normals_one_draw d)
    as (z1 & u_x & z2 & v_x & z3 & u_y & z4 & v_y & dice & rest
        & _ & _ & _ & _ & _ & E1 & E2); [lia|].
  destruct (@hmc_run _ _ start params gmm _ _ _ _ _ _ _ E1 E2 eq_refl)
    as (r1 & leap & r3 & final & E & (_ & _ & F1 & _) & Hleap & Hall
        & (_ & _ & P3 & _ & _ & _ & F3) & _).
  rewrite HL in *.
  rewrite app_comm_cons in E.
  eexists (r1 :: leap), r3, final, rest, _.
  split; [exact E|].
  split; [rewrite length_app; simpl; rewrite Hleap; reflexivity|].
  split; [exact F3|].
  split.
  { constructor; [exact F1|].
    eapply Forall_impl; [|exact Hall]. cbn. tauto. }
  split; [exact P3|].
  unfold leapfrog_trajectory.
  pose proof (leapfrog_steps_length gmm (stepSize params * c_half)
                (Z.to_nat 10) start
                (half_kick gmm (stepSize params * c_half) start
                           (mkPoint (box_muller u_x v_x)
                                    (box_muller u_y v_y)))) as Hlen.
  destruct (leapfrog_steps _ _ _ _ _) as [visited [q_k p_k]].
  cbn [fst snd] in *. simpl. rewrite Hlen. reflexivity.
Qed.

(** C6.  Given a supply of draws that lets the cycle finish (six non-zero
    draws, each fit to select an array element), every generator returns
    after finitely many records: MH after 3, Gibbs after 3, HMC after
    [L + 2] (with [L = numSteps] when it is at least 1), NUTS after the
    momentum record, [k] tree-building records with [1 <= k <= 50] and the
    terminal record.  The tree-building loop exits by itself: from any
    state, fuel for the steps left up to [maxSteps = 50] is never used up,
    the body runs at most that many times, no pass before the last sees a
    divergence or a U-turn, and the last pass sees one of them or reaches
    the step cap.  A pass sees a divergence when [H - H0 > 1000], [H] being
    the energy [U(q') + K(p')] at the position [q' = q + epsilon p] it
    moves to and the momentum [p'] after the generator's half step there;
    it sees a U-turn when the product [(q' - start) . p] of the
    displacement from the start with the momentum it holds is negative. *)
Theorem cycles_emit_finitely_many_records start params gmm d :
  (6 <= nonzero_draws d)%nat ->
  forallb selectable d = true ->
  (exists es final rest,
      mhGenerator start params gmm d = (es, Some (final, rest))
      /\ List.length es = 3%nat)
  /\ (exists es final rest,
      gibbsGenerator start params gmm d = (es, Some (final, rest))
      /\ List.length es = 3%nat)
  /\ (exists es final rest,
      hmcGenerator start params gmm d = (es, Some (final, rest))
      /\ List.length es = (Z.to_nat (leapfrog_count params) + 2)%nat
      /\ forall L, numSteps params = Some L -> (1 <= L)%Z ->
                   List.length es = (Z.to_nat L + 2)%nat)
  /\ (exists es final rest k,
      nutsGenerator start params gmm d = (es, Some (final, rest))
      /\ List.length es = (k + 2)%nat /\ (1 <= k <= 50)%nat)
  /\ maxSteps = 50%nat
  /\ (forall epsilon startH log_u st fuel d',
        t_stopped st = false ->
        (maxSteps - t_steps st <= fuel)%nat ->
        exists ss st',
          tree_loop start gmm epsilon startH log_u fuel st d'
          = (map (fun s => snd (tree_body start gmm epsilon startH log_u s))
                 ss,
             Some (Some st', d'))
          /\ tree_passes start gmm epsilon startH log_u st ss st'
          /\ (List.length ss <= maxSteps - t_steps st)%nat
          /\ (forall s, In s (removelast ss) ->
                        pass_diverges gmm epsilon startH s = false
                        /\ pass_turns start epsilon s = false)
          /\ (ss <> [] ->
              pass_diverges gmm epsilon startH (last ss st) = true
              \/ pass_turns start epsilon (last ss st) = true
              \/ t_steps st' = maxSteps)).
Proof.
  intros H Hsel. repeat apply conj.
  - destruct (two_normals_one_draw d)
      as (z1 & u_x & z2 & v_x & z3 & u_y & z4 & v_y & dice & rest
          & _ & _ & _ & _ & _ & E1 & E2); [lia|].
    destruct (@mh_run _ _ start params gmm _ _ _ _ _ _ _ E1 E2 eq_refl)
      as (r1 & r2 & r3 & final & E & _).
    exists [r1; r2; r3], final, rest. auto.
  - destruct (gibbs_supply d H)
      as (z_x & d1 & dice_x & d2 & z_y & d3 & dice_y & d4 & E1 & -> & E2 & ->).
    destruct (@gibbs_run _ _ start params gmm _ _ _ _ _ _ _ _ _ E1 eq_refl
                         E2 eq_refl)
      as (r1 & r2 & r3 & final & E & _).
    exists [r1; r2; r3], final, d4. auto.
  - destruct (two_normals_one_draw d)
      as (z1 & u_x & z2 & v_x & z3 & u_y & z4 & v_y & dice & rest
          & _ & _ & _ & _ & _ & E1 & E2); [lia|].
    destruct (@hmc_run _ _ start params gmm _ _ _ _ _ _ _ E1 E2 eq_refl)
      as (r1 & leap & r3 & final & E & _ & Hleap & _).
    exists (r1 :: leap ++ [r3]), final, rest.
    assert (Hlen : List.length (r1 :: leap ++ [r3])
                   = (Z.to_nat (leapfrog_count params) + 2)%nat)
      by (simpl; rewrite length_app, Hleap; simpl; lia).
    repeat split; auto.
    intros L HL Hpos. now rewrite <- (leapfrog_count_given params HL Hpos).
  - destruct (nuts_supply d H)
      as (z_x & d1 & z_y & u & r & d3 & E1 & E2 & Hin).
    destruct (@nuts_run _ _ start params gmm _ _ _ _ _ _ r _ E1 E2 eq_refl)
      as (ss & st' & Hp & Hlen & r1 & _ & Hrun).
    rewrite forallb_forall in Hsel.
    destruct (@selectable_select _ _ r
                (start :: map (pass_position (stepSize params * c_0_4))
                   (filter (pass_in_slice gmm (stepSize params * c_0_4)
                              (Math_log u
                               - hamiltonian gmm start (mkPoint z_x z_y)))
                           ss)) (Hsel r Hin))
      as (q & Hq & _).
    { simpl. rewrite length_map.
      pose proof (filter_length
                    (pass_in_slice gmm (stepSize params * c_0_4)
                       (Math_log u
                        - hamiltonian gmm start (mkPoint z_x z_y))) ss).
      unfold maxSteps in *. lia. }
    rewrite Hq in Hrun. destruct Hrun as (r3 & final & E & _).
    eexists _, final, d3, (List.length ss). split; [exact E|].
    split; [|unfold maxSteps in Hlen; lia].
    simpl. rewrite length_app, length_map. simpl. lia.
  - reflexivity.
  - intros epsilon startH log_u st fuel d' Hs Hf.
    destruct (@tree_loop_run _ _ start gmm epsilon startH log_u fuel st d')
      as (ss & st' & E & Hp & Hlen); [right; exact Hf|].
    rewrite Hs in Hlen.
    destruct (tree_passes_stop Hp Hs) as [Hbefore Hlast].
    exists ss, st'. repeat split; auto; apply Hbefore; auto.
Qed.

(** C5 (as the code has it).  A NUTS cycle draws its momentum as the
    Box-Muller variates of the first four non-zero draws of the supply,
    then the slice draw [u] and the selection draw [r].  Its candidates are
    the starting point, put there before the loop, followed by the
    position of every pass of its tree-building loop that satisfies the
    slice test [-H >= log_u], with [log_u = ln u - H0].  Given a supply of
    draws that lets the cycle finish, the terminal record always has
    [accepted = true], and its [current] is the candidate at index
    [floor(r * n)] for the number [n] of candidates; when no pass satisfies
    the slice test -- whether the loop stopped early or ran to [maxSteps]
    -- that candidate is the starting point. *)
Theorem nuts_terminal_always_accepted start params gmm d :
  (6 <= nonzero_draws d)%nat ->
  forallb selectable d = true ->
  exists z1 u_x z2 v_x z3 u_y z4 v_y u r rest ss st' es rec final,
    let epsilon := stepSize params * c_0_4 in
    let p0 := mkPoint (box_muller u_x v_x) (box_muller u_y v_y) in
    let startH := hamiltonian gmm start p0 in
    let log_u := Math_log u - startH in
    let st0 := mkTree start (half_kick gmm epsilon start p0)
                      (getGradLogProb start gmm) false 0 "" [start] [start] in
    let hits := filter (pass_in_slice gmm epsilon log_u) ss in
    let candidates := start :: map (pass_position epsilon) hits in
    d = z1 ++ u_x :: z2 ++ v_x :: z3 ++ u_y :: z4 ++ v_y :: u :: r :: rest
    /\ (zeros z1 /\ zeros z2 /\ zeros z3 /\ zeros z4)
    /\ ((u_x === lit 0) = false /\ (v_x === lit 0) = false
        /\ (u_y === lit 0) = false /\ (v_y === lit 0) = false)
    /\ tree_passes start gmm epsilon startH log_u st0 ss st'
    /\ t_validCandidates st' = candidates
    /\ nutsGenerator start params gmm d = (es ++ [rec], Some (final, rest))
    /\ List.length es = S (List.length ss)
    /\ isFinishedStep rec = true
    /\ accepted rec = Some true
    /\ select candidates r = Some (current rec)
    /\ In (current rec) candidates
    /\ (hits = [] -> current rec = start)
    /\ current final = current rec.
Proof.
  intros H Hsel.
  destruct (nuts_draws d H)
    as (z1 & u_x & z2 & v_x & z3 & u_y & z4 & v_y & u & r & rest
        & Hd & Hz & Hnz & E1 & E2 & Hin).
  destruct (@nuts_run _ _ start params gmm _ _ _ _ _ _ r _ E1 E2 eq_refl)
    as (ss & st' & Hp & Hlen & r1 & _ & Hrun).
  set (epsilon := stepSize params * c_0_4) in *.
  set (p0 := mkPoint (box_muller u_x v_x) (box_muller u_y v_y)) in *.
  set (startH := hamiltonian gmm start p0) in *.
  set (log_u := Math_log u - startH) in *.
  rewrite forallb_forall in Hsel.
  destruct (@selectable_select _ _ r
              (start :: map (pass_position epsilon)
                            (filter (pass_in_slice gmm epsilon log_u) ss))
              (Hsel r Hin))
    as (q & Hq & Hq_in).
  { cbn [List.length]. rewrite length_map.
    pose proof (filter_length (pass_in_slice gmm epsilon log_u) ss).
    unfold maxSteps in *. lia. }
  rewrite Hq in Hrun.
  destruct Hrun as (r3 & final & E & (C3 & A3 & _ & _ & _ & F3) & Cf & _).
  destruct (tree_passes_state Hp) as (_ & _ & Hvalid).
  rewrite app_comm_cons in E.
  exists z1, u_x, z2, v_x, z3, u_y, z4, v_y, u, r, rest, ss, st'.
  eexists _, r3, final.
  cbn zeta. fold epsilon p0 startH log_u. rewrite C3.
  split; [exact Hd|]. split; [exact Hz|]. split; [exact Hnz|].
  split; [exact Hp|]. split; [exact Hvalid|]. split; [exact E|].
  split; [cbn [List.length]; now rewrite length_map|].
  split; [exact F3|]. split; [exact A3|]. split; [exact Hq|].
  split; [exact Hq_in|]. split; [|exact Cf].
  intros Hnone. rewrite Hnone in Hq_in. cbn [map] in Hq_in.
  destruct Hq_in as [<-|[]]. reflexivity.
Qed.
End SamplerClaims.

(** * The target density over the reals *)

Module DensityFacts.
Import RealModel DensitySpec.
Local Open Scope R_scope.

Ltac pairwise :=
  repeat match goal with |- (_, _) = (_, _) => apply f_equal2 end.

Lemma c_half_real : @c_half R _ = 0.5.
Proof. unfold c_half. cbn. lra. Qed.

Lemma c_floor_real : @c_floor R _ = 1e-20.
Proof. unfold c_floor. cbn. lra. Qed.

Lemma c_floor_pos : 0 < @c_floor R _.
Proof. rewrite c_floor_real. lra. Qed.

Lemma inverse2_is_inverse (s : Mat) :
  det2 s <> 0 ->
  mat_mul s (inverse2 s) = identity2 /\ mat_mul (inverse2 s) s = identity2.
Proof.
  destruct s as [[a b] [c d]]. intros Hdet.
  unfold inverse2, scale, adjugate, mat_mul, identity2, det2 in *.
  cbn [fst snd] in *.
  split; pairwise; field; exact Hdet.
Qed.

Lemma getGaussianProps_real (g : GMMComponent R) :
  getGaussianProps g = (det2 (sigma g), inverse2 (sigma g)).
Proof.
  unfold getGaussianProps, inverse2, scale, adjugate, det2.
  cbn [fst snd add sub mul div neg RealNum].
  pairwise; unfold Rdiv; ring.
Qed.

Lemma component_density_real (p : Point R) (g : GMMComponent R) :
  component_density p g = gaussian_term p g.
Proof.
  unfold component_density. rewrite getGaussianProps_real.
  unfold gaussian_term, mahalanobis, dot2, mat_vec, displacement.
  cbn [fst snd add sub mul div neg lit Math_PI Math_sqrt Math_abs Math_exp
       RealNum].
  rewrite c_half_real. f_equal. f_equal. f_equal. lra.
Qed.

Lemma sumProb_real (p : Point R) (G : list (GMMComponent R)) (a : R) :
  fold_left (fun sumProb g => add sumProb (component_density p g)) G a
  = a + mixture_sum p G.
Proof.
  unfold mixture_sum. revert a.
  induction G as [|g G IH]; intros a; cbn [fold_left Rsum].
  - ring.
  - rewrite IH, component_density_real. cbn [add RealNum]. ring.
Qed.

Lemma getLogProb_real (p : Point R) (G : list (GMMComponent R)) :
  getLogProb p G = ln (mixture_sum p G + 1e-20).
Proof.
  unfold getLogProb. rewrite sumProb_real, c_floor_real.
  cbn [add lit Math_log RealNum]. f_equal. ring.
Qed.

(** The three accumulators of [getGradLogProb] after the [forEach]. *)
Lemma grad_accumulators_real (p : Point R) (G : list (GMMComponent R))
    (a b c : R) :
  fold_left (grad_callback p) G (a, (b, c))
  = (a + mixture_sum p G,
     (b + Rsum (fun g => gaussian_term p g * (local_gradient p g).[0]) G,
      c + Rsum (fun g => gaussian_term p g * (local_gradient p g).[1]) G)).
Proof.
  unfold mixture_sum. revert a b c.
  induction G as [|g G IH]; intros a b c; cbn [fold_left Rsum].
  - pairwise; ring.
  - assert (Hstep : grad_callback p (a, (b, c)) g
                    = (a + gaussian_term p g,
                       (b + gaussian_term p g * (local_gradient p g).[0],
                        c + gaussian_term p g * (local_gradient p g).[1]))).
    { unfold grad_callback. rewrite getGaussianProps_real.
      unfold gaussian_term, mahalanobis, local_gradient, dot2, mat_vec,
        displacement.
      cbn [fst snd add sub mul div neg lit Math_PI Math_sqrt Math_abs
           Math_exp RealNum].
      rewrite c_half_real.
      replace (- (0.5)) with (-0.5) by lra. reflexivity. }
    rewrite Hstep, IH. pairwise; ring.
Qed.

Lemma gaussian_term_nonneg (p : Point R) (g : GMMComponent R) :
  0 <= weight g -> 0 <= gaussian_term p g.
Proof.
  intros Hw. unfold gaussian_term.
  apply Rmult_le_pos; [apply Rmult_le_pos; [exact Hw|] | left; apply exp_pos].
  set (t := 2 * PI * sqrt (Rabs (det2 (sigma g)))).
  assert (Ht : 0 <= t).
  { unfold t. apply Rmult_le_pos; [pose proof PI_RGT_0; lra | apply sqrt_pos]. }
  destruct Ht as [Ht | <-].
  - left. unfold Rdiv. rewrite Rmult_1_l. now apply Rinv_0_lt_compat.
  - unfold Rdiv. rewrite Rinv_0. lra.
Qed.

Lemma mixture_sum_nonneg (p : Point R) (G : list (GMMComponent R)) :
  Forall (fun g => 0 <= weight g) G -> 0 <= mixture_sum p G.
Proof.
  unfold mixture_sum. induction 1 as [|g G Hg _ IH]; cbn [Rsum]; [lra|].
  pose proof (@gaussian_term_nonneg p g Hg). lra.
Qed.

(** C1.  Over the reals, for every point and every list of components
    whose determinants are non-zero, [getLogProb] is [ln (S + 1e-20)] where
    [S] sums, over the components, [weight * (1 / (2 pi sqrt |det|)) *
    exp (-0.5 * m)], [m] being the form [dx^T M dx] for the matrix [M] that
    [getGaussianProps] computes: the adjugate of [sigma] scaled by
    [1 / det], which is the two-sided inverse of [sigma].  The sign of
    [det] is not used: the normalisation takes [|det|]. *)
Theorem logDensity_closed_form (p : Point R) (G : list (GMMComponent R)) :
  Forall (fun g => det2 (sigma g) <> 0) G ->
  getLogProb p G = ln (mixture_sum p G + 1e-20)
  /\ Forall (fun g =>
               getGaussianProps g = (det2 (sigma g), inverse2 (sigma g))
               /\ mat_mul (sigma g) (inverse2 (sigma g)) = identity2
               /\ mat_mul (inverse2 (sigma g)) (sigma g) = identity2
               /\ component_density p g = gaussian_term p g) G.
Proof.
  intros Hdet. split; [apply getLogProb_real|].
  induction Hdet as [|g G Hg _ IH]; constructor; auto.
  destruct (@inverse2_is_inverse _ Hg) as [Hr Hl].
  repeat split; auto using getGaussianProps_real, component_density_real.
Qed.

(** C2.  Over the reals, for every point and every list of components
    with non-zero determinants and non-negative weights, [getGradLogProb]
    is the sum of [density_i * (- Sigma_i^-1 dx_i)] divided by
    [sum_i density_i + 1e-20], with the very terms [density_i] that
    [getLogProb] sums and [Sigma_i^-1] the two-sided inverse of [sigma_i];
    hence [exp (getLogProb p G)] is that denominator. *)
Theorem gradLogDensity_consistent (p : Point R) (G : list (GMMComponent R)) :
  Forall (fun g => det2 (sigma g) <> 0) G ->
  Forall (fun g => 0 <= weight g) G ->
  x (getGradLogProb p G)
  = Rsum (fun g => gaussian_term p g * (local_gradient p g).[0]) G
    / (mixture_sum p G + 1e-20)
  /\ y (getGradLogProb p G)
     = Rsum (fun g => gaussian_term p g * (local_gradient p g).[1]) G
       / (mixture_sum p G + 1e-20)
  /\ getLogProb p G = ln (mixture_sum p G + 1e-20)
  /\ exp (getLogProb p G) = mixture_sum p G + 1e-20
  /\ Forall (fun g =>
               mat_mul (sigma g) (inverse2 (sigma g)) = identity2
               /\ mat_mul (inverse2 (sigma g)) (sigma g) = identity2
               /\ component_density p g = gaussian_term p g) G.
Proof.
  intros Hdet Hw.
  assert (Hgrad : getGradLogProb p G
                  = mkPoint
                      (Rsum (fun g => gaussian_term p g
                                      * (local_gradient p g).[0]) G
                       / (mixture_sum p G + 1e-20))
                      (Rsum (fun g => gaussian_term p g
                                      * (local_gradient p g).[1]) G
                       / (mixture_sum p G + 1e-20))).
  { unfold getGradLogProb.
    cbn [lit RealNum]. rewrite grad_accumulators_real, c_floor_real.
    cbn [fst snd add div RealNum]. f_equal; f_equal; ring. }
  rewrite Hgrad. cbn [x y].
  split; [reflexivity|]. split; [reflexivity|].
  split; [apply getLogProb_real|]. split.
  - rewrite getLogProb_real. apply exp_ln.
    pose proof (@mixture_sum_nonneg p G Hw). lra.
  - clear Hgrad Hw. induction Hdet as [|g G Hg _ IH]; constructor; auto.
    destruct (@inverse2_is_inverse _ Hg) as [Hr Hl].
    repeat split; auto using component_density_real.
Qed.

(** The empty mixture over the reals. *)
Lemma empty_mixture_real (p : Point R) :
  getLogProb p [] = ln 1e-20 /\ getGradLogProb p [] = mkPoint 0 0.
Proof.
  split.
  - rewrite getLogProb_real. cbn [mixture_sum Rsum]. f_equal. lra.
  - unfold getGradLogProb. cbn [fold_left lit add div fst snd RealNum].
    f_equal; unfold Rdiv; ring.
Qed.

(** The default mixture has invertible covariances and positive weights. *)
Lemma DEFAULT_GMM_invertible :
  Forall (fun g : GMMComponent R => det2 (sigma g) <> 0) DEFAULT_GMM.
Proof.
  unfold DEFAULT_GMM, det2, c_half, c_0_4, c_0_6, c_1_2.
  repeat constructor; cbn; lra.
Qed.

Lemma DEFAULT_GMM_weights :
  Forall (fun g : GMMComponent R => 0 <= weight g) DEFAULT_GMM.
Proof.
  unfold DEFAULT_GMM, c_half, c_0_4, c_0_6, c_1_2.
  repeat constructor; cbn; lra.
Qed.

(** Over the reals, every draw in [0, 1) selects within the array. *)
Lemma unit_draw_selectable (r : R) : 0 <= r < 1 -> selectable r = true.
Proof.
  intros [H0 H1]. unfold selectable. apply forallb_forall.
  intros n Hin. apply in_seq in Hin.
  cbn [to_index Math_floor mul of_length RealNum].
  unfold index_of, floor.
  set (k := Int_part (r * INR n)).
  assert (Hk : Int_part (IZR k) = k) by (symmetry; apply Int_part_spec; lra).
  rewrite Hk.
  destruct (Req_dec_T (IZR k) (IZR k)) as [_|ne]; [|congruence].
  destruct (base_Int_part (r * INR n)) as [Hle Hgt]. fold k in Hle, Hgt.
  assert (Hn : 0 < INR n) by (apply lt_0_INR; lia).
  assert (Hrn : 0 <= r * INR n < INR n) by nra.
  assert (Hk0 : (-1 < k)%Z) by (apply lt_IZR; lra).
  assert (Hkn : (k < Z.of_nat n)%Z)
    by (apply lt_IZR; rewrite <- INR_IZR_INZ; lra).
  destruct (Z.leb_spec 0 k); [|lia].
  apply Nat.ltb_lt. lia.
Qed.

Lemma logDensity_closed_form_witness :
  Forall (fun g : GMMComponent R => det2 (sigma g) <> 0) DEFAULT_GMM
  /\ getLogProb (mkPoint 0 0) DEFAULT_GMM
     = ln (mixture_sum (mkPoint 0 0) DEFAULT_GMM + 1e-20).
Proof.
  split; [exact DEFAULT_GMM_invertible|].
  exact (proj1 (logDensity_closed_form (mkPoint 0 0) DEFAULT_GMM_invertible)).
Defined.

Lemma gradLogDensity_consistent_witness :
  Forall (fun g : GMMComponent R => det2 (sigma g) <> 0) DEFAULT_GMM
  /\ Forall (fun g : GMMComponent R => 0 <= weight g) DEFAULT_GMM
  /\ exp (getLogProb (mkPoint 0 0) DEFAULT_GMM)
     = mixture_sum (mkPoint 0 0) DEFAULT_GMM + 1e-20.
Proof.
  split; [exact DEFAULT_GMM_invertible|].
  split; [exact DEFAULT_GMM_weights|].
  exact (proj1 (proj2 (proj2 (proj2
           (gradLogDensity_consistent (mkPoint 0 0) DEFAULT_GMM_invertible
                                      DEFAULT_GMM_weights))))).
Defined.
End DensityFacts.

(** * Concrete runs on binary64 *)

Module Runs.
Import Floats.
Import Float64 Scenario.
Local Open Scope float_scope.

Lemma demo_draws_suffice :
  (6 <= nonzero_draws demo_draws)%nat /\ forallb selectable demo_draws = true.
Proof. split; [vm_compute; lia | vm_compute; reflexivity]. Qed.

Lemma filter_nil_all_false {A} (f : A -> bool) (l : list A) :
  filter f l = [] -> Forall (fun a => f a = false) l.
Proof.
  induction l as [|a l IH]; simpl; [constructor|].
  destruct (f a) eqn:E; [discriminate|]. constructor; auto.
Qed.

(** C5, the run that the claim gets wrong.  From the origin, with
    momentum [(0.83, -0.83)] and the slice draw [u = 0.875], the energy of
    every tree-building position exceeds the start energy by 0.23 or more,
    while the slice test allows [-ln 0.875 = 0.13]: the loop runs its 50
    passes, none of them satisfies the slice test, and still the terminal
    record has [accepted = true] (and the chain stays at the origin). *)
Lemma nuts_run_without_slice_hit :
  exists ss st' es rec final rest,
    tree_passes origin demo_gmm cap_epsilon cap_startH cap_log_u
                cap_st0 ss st'
    /\ List.length ss = maxSteps
    /\ Forall (fun s => pass_in_slice demo_gmm cap_epsilon cap_log_u s = false)
              ss
    /\ nutsGenerator origin demo_params demo_gmm cap_draws
       = (es ++ [rec], Some (final, rest))
    /\ path rec = Some (origin :: map (pass_position cap_epsilon) ss)
    /\ isFinishedStep rec = true
    /\ accepted rec = Some true
    /\ accepted rec <> Some false
    /\ current rec = origin.
Proof.
  assert (E1 : randn cap_draws
               = ([], Some (x cap_p0, [0.5; 0.375; 0.875; 0.5])))
    by (vm_compute; reflexivity).
  assert (E2 : randn [0.5; 0.375; 0.875; 0.5]
               = ([], Some (y cap_p0, [0.875; 0.5])))
    by (vm_compute; reflexivity).
  destruct (@nuts_run _ _ origin demo_params demo_gmm _ _ _ _ _ _ _ _
                      E1 E2 eq_refl)
    as (ss & st' & Hp & Hlen & r1 & _ & Hrun).
  change (mkPoint (x cap_p0) (y cap_p0)) with cap_p0 in Hp, Hrun.
  fold cap_epsilon cap_startH in Hp, Hrun.
  fold cap_log_u cap_st0 in Hp, Hrun.
  (* the loop, by computation *)
  pose (loop := tree_loop origin demo_gmm cap_epsilon cap_startH cap_log_u
                          maxSteps cap_st0 []).
  destruct (@tree_loop_run _ _ origin demo_gmm cap_epsilon cap_startH
                           cap_log_u maxSteps cap_st0 [])
    as (ss2 & st2 & E & Hp2 & _); [right; vm_compute; lia|].
  destruct (tree_passes_deterministic Hp Hp2) as [<- <-].
  assert (Hfifty : List.length (fst loop) = maxSteps)
    by (vm_compute; reflexivity).
  assert (Hcand : match snd loop with
                  | Some (Some st, _) => t_validCandidates st
                  | _ => []
                  end = [origin])
    by (vm_compute; reflexivity).
  unfold loop in Hfifty, Hcand. rewrite E in Hfifty, Hcand.
  cbn [fst snd] in Hfifty, Hcand. rewrite length_map in Hfifty.
  destruct (tree_passes_state Hp) as (_ & _ & Hvalid).
  rewrite Hcand in Hvalid.
  change (t_validCandidates cap_st0) with [origin] in Hvalid.
  assert (Hnone : filter (pass_in_slice demo_gmm cap_epsilon cap_log_u) ss
                  = []).
  { destruct (filter _ ss); [reflexivity|]. discriminate Hvalid. }
  rewrite Hnone in Hrun. cbn [map] in Hrun.
  assert (Hsel : select [origin] 0.5 = Some origin)
    by (vm_compute; reflexivity).
  rewrite Hsel in Hrun.
  destruct Hrun as (r3 & final & Egen & (C3 & A3 & P3 & _ & _ & F3) & _).
  rewrite app_comm_cons in Egen.
  exists ss, st'. eexists _, r3, final, _.
  split; [exact Hp|]. split; [exact Hfifty|].
  split; [apply filter_nil_all_false; exact Hnone|].
  split; [exact Egen|].
  repeat split; auto. rewrite A3. discriminate.
Qed.

(** ** The sampler theorems at the scenario of the specification *)

Lemma mh_cycle_three_records_witness :
  (5 <= nonzero_draws demo_draws)%nat
  /\ exists r1 r2 r3,
      emitted (mhGenerator origin demo_params demo_gmm demo_draws)
      = [r1; r2; r3].
Proof.
  assert (H : (5 <= nonzero_draws demo_draws)%nat) by (vm_compute; lia).
  split; [exact H|].
  destruct (mh_cycle_three_records origin demo_params demo_gmm demo_draws H)
    as (z1 & u_x & z2 & v_x & z3 & u_y & z4 & v_y & dice & rest
        & r1 & r2 & r3 & final & _ & _ & _ & _ & _ & E & _).
  exists r1, r2, r3. rewrite E. reflexivity.
Defined.


Lemma nuts_terminal_always_accepted_witness :
  (6 <= nonzero_draws cap_draws)%nat
  /\ forallb selectable cap_draws = true
  /\ exists es rec final rest,
      nutsGenerator origin demo_params demo_gmm cap_draws
      = (es ++ [rec], Some (final, rest))
      /\ accepted rec = Some true.
Proof.
  assert (H : (6 <= nonzero_draws cap_draws)%nat) by (vm_compute; lia).
  assert (Hs : forallb selectable cap_draws = true)
    by (vm_compute; reflexivity).
  split; [exact H|]. split; [exact Hs|].
  destruct (nuts_terminal_always_accepted
              origin demo_params demo_gmm cap_draws H Hs)
    as (z1 & u_x & z2 & v_x & z3 & u_y & z4 & v_y & u & r & rest
        & ss & st' & es & rec & final
        & _ & _ & _ & _ & _ & E & _ & _ & A & _).
  exists es, rec, final, rest. split; [exact E | exact A].
Defined.

Lemma cycles_emit_finitely_many_records_witness :
  (6 <= nonzero_draws demo_draws)%nat
  /\ forallb selectable demo_draws = true
  /\ exists es final rest k,
      nutsGenerator origin demo_params demo_gmm demo_draws
      = (es, Some (final, rest))
      /\ List.length es = (k + 2)%nat /\ (1 <= k <= 50)%nat.
Proof.
  assert (H : (6 <= nonzero_draws demo_draws)%nat) by (vm_compute; lia).
  assert (Hs : forallb selectable demo_draws = true)
    by (vm_compute; reflexivity).
  split; [exact H|]. split; [exact Hs|].
  exact (proj1 (proj2 (proj2 (proj2
           (cycles_emit_finitely_many_records
              origin demo_params demo_gmm demo_draws H Hs))))).
Defined.

Lemma hmc_terminal_trajectory_witness :
  numSteps demo_params = Some 10%Z /\ (1 <= 10)%Z
  /\ (5 <= nonzero_draws demo_draws)%nat
  /\ exists es r final rest trajectory,
      hmcGenerator origin demo_params demo_gmm demo_draws
      = (es ++ [r], Some (final, rest))
      /\ path r = Some trajectory /\ List.length trajectory = 11%nat.
Proof.
  assert (H : (5 <= nonzero_draws demo_draws)%nat) by (vm_compute; lia).
  assert (HL : (1 <= 10)%Z) by lia.
  split; [reflexivity|]. split; [exact HL|]. split; [exact H|].
  destruct (hmc_terminal_trajectory origin demo_params demo_gmm demo_draws
              (L := 10%Z) eq_refl HL H)
    as (z1 & u_x & z2 & v_x & z3 & u_y & z4 & v_y & dice & rest & es & r
        & final & _ & _ & _ & _ & _ & E & _ & P & _ & Hlen & _).
  exists es, r, final, rest. eexists. split; [exact E|].
  split; [exact P | exact Hlen].
Defined.

Lemma gibbs_accepted_means_moved_witness :
  (6 <= nonzero_draws demo_draws)%nat
  /\ exists es r final rest,
      gibbsGenerator origin demo_params demo_gmm demo_draws
      = (es ++ [r], Some (final, rest))
      /\ accepted r
         = Some ((x (current r) !== x origin) || (y (current r) !== y origin))%num.
Proof.
  assert (H : (6 <= nonzero_draws demo_draws)%nat) by (vm_compute; lia).
  split; [exact H|].
  destruct (gibbs_accepted_means_moved origin demo_params demo_gmm
                                       demo_draws H)
    as (es & r & final & rest & E & _ & A & _).
  exists es, r, final, rest. split; [exact E | exact A].
Defined.

Lemma hmc_default_leapfrog_count_witness :
  (numSteps no_steps_params = None
   \/ numSteps no_steps_params = Some 0%Z)
  /\ (5 <= nonzero_draws demo_draws)%nat
  /\ exists es r final rest,
      hmcGenerator origin no_steps_params demo_gmm demo_draws
      = (es ++ [r], Some (final, rest))
      /\ List.length (es ++ [r]) = 12%nat.
Proof.
  assert (H : (5 <= nonzero_draws demo_draws)%nat) by (vm_compute; lia).
  assert (Hn : numSteps no_steps_params = None
               \/ numSteps no_steps_params = Some 0%Z)
    by (left; reflexivity).
  split; [exact Hn|]. split; [exact H|].
  destruct (hmc_default_leapfrog_count origin no_steps_params demo_gmm
                                       demo_draws Hn H)
    as (_ & es & r & final & rest & trajectory & E & Hlen & _).
  exists es, r, final, rest. split; [exact E | exact Hlen].
Defined.

(** In binary64 both Gibbs sub-updates can be accepted and the chain not
    move: far from the modes the two candidates round to the coordinates
    of the start, every move there is accepted, and the flag is [false]. *)
Example gibbs_accepted_twice_not_moved :
  let far := mkPoint 0x1p+60 0x1p+60 in
  map (fun r => (acceptanceProb (details r), accepted r))
      (emitted (gibbsGenerator far demo_params demo_gmm demo_draws))
  = [(None, None); (Some 1, None); (Some 1, Some false)].
Proof. vm_compute. reflexivity. Qed.


(** C7, the run where the generator leaves the leapfrog scheme.  From the
    origin, with the default mixture, [stepSize = 0.5], [numSteps = 10] and
    the momentum [(0.83, -0.83)], the terminal HMC record does carry a
    trajectory of eleven points, and they are the positions of the scheme
    the generator runs, whose momentum steps subtract
    [epsilon * grad log p].  The leapfrog scheme of the specification,
    where the gradient of the log density is the force and the momentum
    steps add it, visits other positions from the first step on and keeps
    the energy within 1/32 of the initial 5.95; the generator's positions
    run down the density, the energy ends above 82, the acceptance
    probability is below [2^-100] and the move is rejected. *)
Theorem hmc_momentum_steps_oppose_the_force :
  let epsilon := (stepSize demo_params * c_half)%num in
  let p0 := mkPoint (box_muller 0.5 0.125) (box_muller 0.5 0.375) in
  let ran := leapfrog_trajectory demo_gmm epsilon 10 origin p0 in
  let meant := reference_trajectory demo_gmm epsilon 10 origin p0 in
  let energy (t : list (Point float) * (Point float * Point float)) :=
    hamiltonian demo_gmm (fst (snd t)) (snd (snd t)) in
  let H0 := hamiltonian demo_gmm origin p0 in
  exists es r final rest,
    hmcGenerator origin demo_params demo_gmm demo_draws
    = (es ++ [r], Some (final, rest))
    /\ isFinishedStep r = true
    /\ path r = Some (fst ran)
    /\ List.length (fst ran) = 11%nat
    /\ List.length (fst meant) = 11%nat
    /\ map (fun '(a, b) => same_point a b) (combine (fst ran) (fst meant))
       = true :: repeat false 10
    /\ fst ran <> fst meant
    /\ currentH (details r) = Some H0
    /\ proposedH (details r) = Some (energy ran)
    /\ (abs (energy meant - H0) <? 0.03125) = true
    /\ (76 <? energy ran - H0) = true
    /\ option_map (fun a => a <? 0x1p-100) (acceptanceProb (details r))
       = Some true
    /\ accepted r = Some false
    /\ current r = origin.
Proof.
  cbv zeta.
  exists (removelast (emitted (hmcGenerator origin demo_params demo_gmm
                                            demo_draws))).
  do 3 eexists.
  split; [vm_compute; reflexivity|].
  repeat apply conj; try (vm_compute; reflexivity).
  intros E.
  apply (f_equal (fun l => map (fun '(a, b) => same_point a b)
                               (combine l (fst (reference_trajectory
                                   demo_gmm (stepSize demo_params * c_half)%num
                                   10 origin
                                   (mkPoint (box_muller 0.5 0.125)
                                            (box_muller 0.5 0.375)))))))
    in E.
  vm_compute in E. discriminate E.
Qed.

(** C10.  With an empty list of components both functions return finite
    values that do not depend on the point: [getLogProb] returns
    [ln(1e-20)] and [getGradLogProb] returns [(0, 0)], over the reals and in
    binary64 alike (where [0 + 1e-20] and [0 / 1e-20] are exact). *)
Theorem density_of_empty_mixture :
  (forall p : Point R,
      @getLogProb R RealModel.RealNum p [] = Rpower.ln 1e-20%R
      /\ @getGradLogProb R RealModel.RealNum p [] = mkPoint 0%R 0%R)
  /\ (forall p : Point float,
      getLogProb p [] = Math_log c_floor
      /\ c_floor = 0x1.79ca10c924223p-67
      /\ is_finite (getLogProb p []) = true
      /\ getGradLogProb p [] = mkPoint 0 0).
Proof.
  split.
  - exact DensityFacts.empty_mixture_real.
  - intros p. repeat split; vm_compute; reflexivity.
Qed.
End Runs.

(** * More on the records of a cycle *)

Section CycleRecords.
Context {T : Type} {N : Num T}.
Local Open Scope string_scope.
Local Open Scope list_scope.
Local Open Scope num_scope.

Implicit Types (start q : Point T) (params : SimulationParams T)
               (gmm : list (GMMComponent T)) (d : list T).

Lemma redraw_starved d :
  nonzero_draws d = 0%nat -> redraw_while_zero d = ([], None).
Proof.
  unfold nonzero_draws. induction d as [|u d IH]; simpl; auto.
  destruct (u === lit 0); simpl; [exact IH | discriminate].
Qed.

Lemma randn_starved d :
  (nonzero_draws d < 2)%nat -> randn d = ([], None).
Proof.
  intros H. unfold randn.
  destruct (nonzero_draws d) as [|[|n]] eqn:Hn; [| |lia].
  - apply bind_stuck. now apply redraw_starved.
  - destruct (redraw_enough d) as (z & u & d' & _ & _ & _ & E1 & C); [lia|].
    rewrite (bind_silent redraw_while_zero _ _ E1).
    apply bind_stuck. apply redraw_starved. lia.
Qed.

Lemma nonzero_draws_cons (u : T) d :
  (nonzero_draws d <= nonzero_draws (u :: d) <= S (nonzero_draws d))%nat.
Proof.
  unfold nonzero_draws. cbn [filter].
  destruct (u !== lit 0); cbn [List.length]; lia.
Qed.

(** What [randn] leaves of the supply: a suffix, with two non-zero draws
    fewer. *)
Lemma randn_leftover d z d' :
  randn d = ([], Some (z, d')) ->
  (exists used, d = used ++ d')
  /\ nonzero_draws d' = (nonzero_draws d - 2)%nat.
Proof.
  intros E. destruct (le_lt_dec 2 (nonzero_draws d)) as [H|H].
  - destruct (randn_enough d H)
      as (z1 & u & z2 & v & rest & Hd & _ & _ & _ & _ & Er & C).
    rewrite E in Er. injection Er as _ ->.
    split; [|exact C].
    exists (z1 ++ u :: z2 ++ [v]). rewrite Hd.
    repeat (rewrite <- app_assoc; cbn [app]). reflexivity.
  - rewrite (randn_starved d H) in E. discriminate.
Qed.

Lemma mh_records start params gmm d z_x d1 z_y d2 dice d3 :
  randn d = ([], Some (z_x, d1)) ->
  randn d1 = ([], Some (z_y, d2)) ->
  d2 = dice :: d3 ->
  exists r1 r2 r3 final,
    mhGenerator start params gmm d = ([r1; r2; r3], Some (final, d3))
    /\ interim_record false start r1
    /\ interim_record false start r2
    /\ terminal_record false r3
    /\ current final = current r3
    /\ map (@delay T) [r1; r2; r3]
       = [Some 1500%Z; Some 1500%Z; Some 2000%Z].
Proof.
  intros E1 E2 ->.
  unfold mhGenerator.
  rewrite (bind_silent randn _ _ E1), (bind_silent randn _ _ E2).
  rewrite bind_yield, bind_yield. cbn [fst snd].
  rewrite (bind_silent Math_random _ (dice :: d3) (eq_refl _)).
  rewrite bind_yield. cbn [fst snd ret].
  do 4 eexists. split; [reflexivity|].
  unfold interim_record, terminal_record, described.
  repeat apply conj; try reflexivity;
    try (eexists; split; [reflexivity|lia]);
    try (intros _; reflexivity); try discriminate.
  cbn. now destruct (_ < _).
Qed.

Lemma gibbs_records start params gmm d z_x d1 dice_x d2 z_y d3 dice_y d4 :
  randn d = ([], Some (z_x, d1)) ->
  d1 = dice_x :: d2 ->
  randn d2 = ([], Some (z_y, d3)) ->
  d3 = dice_y :: d4 ->
  exists r1 r2 r3 final,
    gibbsGenerator start params gmm d = ([r1; r2; r3], Some (final, d4))
    /\ interim_record false start r1
    /\ interim_record true start r2
    /\ terminal_record false r3
    /\ current final = current r3
    /\ map (@delay T) [r1; r2; r3]
       = [Some 1000%Z; Some 2000%Z; Some 2000%Z]
    /\ y (current r2) = y start
    /\ x (current r3) = x (current r2).
Proof.
  intros E1 -> E2 ->.
  unfold gibbsGenerator.
  rewrite bind_yield. cbn [fst snd].
  rewrite (bind_silent randn _ _ E1).
  rewrite (bind_silent Math_random _ (dice_x :: d2) (eq_refl _)).
  rewrite bind_yield. cbn [fst snd].
  rewrite (bind_silent randn _ _ E2).
  rewrite (bind_silent Math_random _ (dice_y :: d4) (eq_refl _)).
  rewrite bind_yield. cbn [fst snd ret].
  do 4 eexists. split; [reflexivity|].
  unfold interim_record, terminal_record, described.
  repeat apply conj; try reflexivity;
    try (eexists; split; [reflexivity|lia]);
    try (intros _; reflexivity); try discriminate.
Qed.

(** ** The leapfrog records *)

Lemma firstn_snoc {A} (l : list A) j a :
  nth_error l j = Some a -> firstn (S j) l = firstn j l ++ [a].
Proof.
  revert j. induction l as [|b l IH]; intros [|j] E; try discriminate.
  - injection E as ->. reflexivity.
  - cbn [firstn app]. f_equal. change (firstn (S j) l = firstn j l ++ [a]).
    apply IH. exact E.
Qed.

(** Each record of the [for] loop carries the path walked so far, the
    gradient at the position the step started from, the same delay and the
    number of the step. *)
Lemma leapfrog_for_records start gmm epsilon L stepDelay n i st d :
  (n <> O -> (i + Z.of_nat n = L)%Z) ->
  l_grad st = getGradLogProb (l_q st) gmm ->
  (100 <= stepDelay)%Z ->
  let es := fst (leapfrog_for start gmm epsilon L stepDelay n i st d) in
  let visited := fst (leapfrog_steps gmm epsilon n (l_q st) (l_p st)) in
  Forall (interim_record false start) es
  /\ forall j e, nth_error es j = Some e ->
       path e = Some (l_path st ++ firstn (S j) visited)
       /\ (exists q, nth_error (l_q st :: visited) j = Some q
                     /\ gradient (details e) = Some (getGradLogProb q gmm))
       /\ delay e = Some stepDelay
       /\ description (details e)
          = Some [Txt "Leapfrog Step "; Int (i + Z.of_nat j + 1); Txt "/";
                  Int L; Txt ": Integrating Hamiltonian dynamics..."].
Proof.
  revert i st d. induction n as [|n IH]; intros i st d Hi Hg Hd.
  - cbn. split; [constructor|]. intros [|j] e; discriminate.
  - assert (Hi' : (i + Z.of_nat (S n) = L)%Z) by (apply Hi; discriminate).
    clear Hi.
    cbn [leapfrog_for]. rewrite bind_yield.
    set (q' := mkPoint (x (l_q st) + epsilon * x (l_p st))
                       (y (l_q st) + epsilon * y (l_p st))).
    set (p' := if negb (i =? L - 1)%Z then _ else _).
    set (st1 := mkLeapfrog q' p' _ _).
    specialize (IH (i + 1)%Z st1 d ltac:(intros _; lia) eq_refl Hd).
    cbn zeta in IH. destruct IH as [Hall Hnth].
    assert (Hp' : p' = match n with
                       | O => l_p st
                       | S _ => kick gmm epsilon q' (l_p st)
                       end).
    { subst p'. destruct n as [|n].
      - replace (i =? L - 1)%Z with true by (symmetry; apply Z.eqb_eq; lia).
        reflexivity.
      - replace (i =? L - 1)%Z with false by (symmetry; apply Z.eqb_neq; lia).
        reflexivity. }
    cbn [leapfrog_steps]. fold (drift epsilon (l_q st) (l_p st)).
    change (drift epsilon (l_q st) (l_p st)) with q'.
    rewrite <- Hp'.
    change (l_q st1) with q' in Hnth. change (l_p st1) with p' in Hnth.
    change (l_path st1) with (l_path st ++ [q']) in Hnth.
    destruct (leapfrog_steps gmm epsilon n q' p') as [visited fin].
    cbn [fst snd] in *.
    split.
    + constructor; [|exact Hall].
      unfold interim_record, described. cbn.
      repeat split; try reflexivity. eexists; split; [reflexivity|lia].
    + intros [|j] e E.
      * injection E as <-. cbn.
        repeat split; try reflexivity.
        -- exists (l_q st). split; [reflexivity|]. now rewrite Hg.
        -- now rewrite Z.add_0_r.
      * cbn [nth_error] in E.
        destruct (Hnth j e E) as (Hp & (q & Hq & Hgr) & Hdl & Hds).
        repeat split.
        -- rewrite Hp, <- app_assoc. reflexivity.
        -- exists q. split; [|exact Hgr].
           destruct j as [|j]; [exact Hq|exact Hq].
        -- exact Hdl.
        -- rewrite Hds. do 3 f_equal. f_equal. lia.
Qed.

Lemma hmc_records start params gmm d z_x d1 z_y d2 dice d3 :
  randn d = ([], Some (z_x, d1)) ->
  randn d1 = ([], Some (z_y, d2)) ->
  d2 = dice :: d3 ->
  let L := leapfrog_count params in
  let epsilon := stepSize params * c_half in
  let p0 := mkPoint z_x z_y in
  let trajectory := fst (leapfrog_trajectory gmm epsilon (Z.to_nat L) start p0) in
  exists r1 leap r3 final,
    hmcGenerator start params gmm d = (r1 :: leap ++ [r3], Some (final, d3))
    /\ interim_record false start r1
    /\ delay r1 = Some 1500%Z
    /\ Forall (interim_record false start) leap
    /\ List.length leap = Z.to_nat L
    /\ (forall j e, nth_error leap j = Some e ->
          path e = Some (firstn (j + 2) trajectory)
          /\ (exists q, nth_error trajectory j = Some q
                        /\ gradient (details e) = Some (getGradLogProb q gmm))
          /\ delay e = Some (Z.max 100 (2500 / L))
          /\ description (details e)
             = Some [Txt "Leapfrog Step "; Int (Z.of_nat j + 1); Txt "/";
                     Int L; Txt ": Integrating Hamiltonian dynamics..."])
    /\ terminal_record false r3
    /\ delay r3 = Some 1500%Z
    /\ path r3 = Some trajectory
    /\ current final = current r3.
Proof.
  intros E1 E2 -> L epsilon p0 trajectory.
  unfold hmcGenerator.
  rewrite (bind_silent randn _ _ E1), (bind_silent randn _ _ E2).
  rewrite bind_yield. cbn [fst snd].
  fold L. fold epsilon.
  set (st0 := mkLeapfrog _ _ _ _).
  destruct (@leapfrog_for_run _ _ start gmm epsilon L (Z.max 100 (2500 / L))
              (Z.to_nat L) 0%Z st0 (dice :: d3))
    as (es & st' & E & Hlen & _ & Hp & _ & _);
    [intros Hn; lia | reflexivity |].
  destruct (@leapfrog_for_records start gmm epsilon L (Z.max 100 (2500 / L))
              (Z.to_nat L) 0%Z st0 (dice :: d3))
    as (Hall & Hnth); [intros Hn; lia | reflexivity | lia |].
  rewrite E in Hall, Hnth. cbn [fst] in Hall, Hnth.
  rewrite (bind_run _ _ _ E). cbn [fst snd].
  rewrite (bind_silent Math_random _ (dice :: d3) (eq_refl _)).
  rewrite bind_yield. cbn [fst snd ret].
  assert (Ht : trajectory = l_path st'
               /\ trajectory
                  = start :: fst (leapfrog_steps gmm epsilon (Z.to_nat L)
                                    (l_q st0) (l_p st0))).
  { subst trajectory. unfold leapfrog_trajectory.
    change (l_p st0) with (half_kick gmm epsilon start p0) in Hp |- *.
    change (l_q st0) with start in Hp |- *.
    change (l_path st0) with [start] in Hp.
    destruct (leapfrog_steps gmm epsilon (Z.to_nat L) start
                (half_kick gmm epsilon start p0)) as [visited [q_k p_k]].
    cbn [fst snd] in *. rewrite Hp. split; reflexivity. }
  destruct Ht as [Ht1 Ht2].
  do 4 eexists. split; [reflexivity|].
  unfold interim_record, terminal_record, described.
  repeat apply conj; try reflexivity;
    try (eexists; split; [reflexivity|lia]);
    try (intros _; reflexivity); try discriminate;
    try assumption.
  - intros j e Ej. destruct (Hnth j e Ej) as (Hpe & Hq & Hdl & Hds).
    rewrite Ht2. replace (j + 2)%nat with (S (S j)) by lia.
    repeat split; auto.
  - cbn. now destruct (_ < _).
  - cbn. now rewrite Ht1.
Qed.

(** ** The tree-building records *)

Lemma nth_error_last {A} (l : list A) (a : A) :
  l <> [] -> nth_error l (List.length l - 1) = Some (last l a).
Proof.
  induction l as [|b l IH]; intros Hne; [congruence|].
  destruct l as [|c l]; [reflexivity|].
  change (last (b :: c :: l) a) with (last (c :: l) a).
  rewrite <- IH by discriminate. cbn [List.length].
  replace (S (S (List.length l)) - 1)%nat with (S (S (List.length l) - 1))
    by lia.
  reflexivity.
Qed.

Section TreeRecords.
Variable start : Point T.
Variable gmm : list (GMMComponent T).
Variables epsilon startH log_u : T.

Local Abbreviation body := (tree_body start gmm epsilon startH log_u).
Local Abbreviation position := (pass_position epsilon).
Local Abbreviation diverges := (pass_diverges gmm epsilon startH).
Local Abbreviation turns := (pass_turns start epsilon).
Local Abbreviation in_slice := (pass_in_slice gmm epsilon log_u).
Local Abbreviation passes := (tree_passes start gmm epsilon startH log_u).

Lemma tree_body_record st :
  let e := snd (body st) in
  interim_record false start e
  /\ delay e = Some 150%Z
  /\ path e = Some (t_path st ++ [position st])
  /\ description (details e)
     = Some [Txt "Tree Step "; Int (Z.of_nat (t_steps st) + 1);
             Txt ": Check U-Turn (dot="; Fixed (pass_dot start epsilon st) 2;
             Txt ")..."].
Proof.
  rewrite <- tree_dot_pass.
  unfold tree_body, interim_record, described.
  destruct (tree_dot start epsilon st < lit 0); cbn;
    repeat split; try reflexivity; eexists; split; try reflexivity; lia.
Qed.

(** The state a pass starts from: every earlier pass went on without a
    stop, so the path has grown by one position per pass, the step counter
    by one, and the reason is the initial one. *)
Lemma tree_passes_nth st ss st' :
  passes st ss st' ->
  forall j s, nth_error ss j = Some s ->
    t_path s = t_path st ++ map position (firstn j ss)
    /\ t_steps s = (t_steps st + j)%nat
    /\ t_stopped s = false
    /\ t_reason s = t_reason st.
Proof.
  induction 1 as [st Hc | st ss st' Hc Hp IH]; intros j s E.
  - destruct j; discriminate.
  - destruct j as [|j].
    + injection E as <-. cbn. rewrite app_nil_r, Nat.add_0_r.
      unfold loop_continues in Hc. apply andb_prop in Hc.
      destruct Hc as [Hs _]. apply negb_true_iff in Hs. auto.
    + cbn [nth_error] in E.
      destruct (IH j s E) as (Hpath & Hsteps & Hstop & Hreason).
      pose proof (tree_body_state start gmm epsilon startH log_u st)
        as (_ & Hp1 & _ & Hst & Hsteps1 & Hr1).
      cbn zeta in Hp1, Hst, Hsteps1, Hr1.
      assert (Hgo : t_stopped (fst (body st)) = false).
      { inversion Hp as [? Hc1|? ? ? Hc1]; subst; [destruct j; discriminate|].
        unfold loop_continues in Hc1. apply andb_prop in Hc1.
        destruct Hc1 as [Hs1 _]. now apply negb_true_iff in Hs1. }
      rewrite Hst in Hgo.
      apply orb_false_elim in Hgo. destruct Hgo as [Hgo Ht].
      apply orb_false_elim in Hgo. destruct Hgo as [_ Hd].
      rewrite Ht in Hsteps1, Hr1. rewrite Hd in Hr1.
      repeat split.
      * rewrite Hpath, Hp1, <- app_assoc. reflexivity.
      * rewrite Hsteps, Hsteps1. lia.
      * exact Hstop.
      * rewrite Hreason. exact Hr1.
Qed.

Lemma tree_passes_last st ss st' :
  passes st ss st' -> ss <> [] -> st' = fst (body (last ss st)).
Proof.
  induction 1 as [st Hc | st ss st' Hc Hp IH]; intros Hne; [congruence|].
  destruct ss as [|s ss].
  - inversion Hp; subst. reflexivity.
  - change (last (st :: s :: ss) st) with (last (s :: ss) st).
    rewrite (last_nonempty ss s st (fst (body st))).
    apply IH. discriminate.
Qed.

(** The exit state after at least one pass: the reason and the number of
    steps, read off the last pass. *)
Lemma tree_passes_reason st ss st' :
  passes st ss st' -> ss <> [] ->
  let final := last ss st in
  t_reason st' = (if turns final then "U-Turn Detected"
                  else if diverges final then "Divergence"
                  else t_reason st)
  /\ t_steps st' = (if turns final
                    then t_steps st + List.length ss - 1
                    else t_steps st + List.length ss)%nat
  /\ t_path st' = t_path st ++ map position ss.
Proof.
  intros Hp Hne final.
  pose proof (tree_passes_last Hp Hne) as ->.
  destruct (tree_passes_nth Hp (List.length ss - 1) (s := final))
    as (_ & Hsteps & _ & Hreason).
  { apply nth_error_last. exact Hne. }
  pose proof (tree_body_state start gmm epsilon startH log_u final)
    as (_ & _ & _ & _ & Hsteps1 & Hr1).
  cbn zeta in Hsteps1, Hr1. fold final.
  rewrite Hr1, Hsteps1, Hreason, Hsteps.
  assert (0 < List.length ss)%nat by (destruct ss; [congruence|simpl; lia]).
  split; [reflexivity|]. split; [destruct (turns final); lia|].
  now destruct (tree_passes_state Hp) as (_ & Hpath & _).
Qed.
End TreeRecords.

Lemma nuts_records start params gmm d z_x d1 z_y d2 u r d3 :
  randn d = ([], Some (z_x, d1)) ->
  randn d1 = ([], Some (z_y, d2)) ->
  d2 = u :: r :: d3 ->
  let epsilon := stepSize params * c_0_4 in
  let p0 := mkPoint z_x z_y in
  let startH := hamiltonian gmm start p0 in
  let log_u := Math_log u - startH in
  let st0 := mkTree start (half_kick gmm epsilon start p0)
                    (getGradLogProb start gmm) false 0 "" [start] [start] in
  exists ss st',
    tree_passes start gmm epsilon startH log_u st0 ss st'
    /\ (1 <= List.length ss <= maxSteps)%nat
    /\ let candidates :=
         start :: map (pass_position epsilon)
                      (filter (pass_in_slice gmm epsilon log_u) ss) in
       let trajectory := start :: map (pass_position epsilon) ss in
       let tree := map (fun s => snd (tree_body start gmm epsilon
                                                 startH log_u s)) ss in
       exists r1,
         (interim_record false start r1 /\ delay r1 = Some 1500%Z)
         /\ match select candidates r with
            | None =>
                nutsGenerator start params gmm d = (r1 :: tree, None)
            | Some nextQ =>
                exists r3 final,
                nutsGenerator start params gmm d
                = (r1 :: tree ++ [r3], Some (final, d3))
                /\ terminal_record true r3
                /\ current r3 = nextQ
                /\ delay r3 = Some 2000%Z
                /\ path r3 = Some trajectory
                /\ description (details r3)
                   = Some [Txt "Step 3: "; Txt (t_reason st');
                           Txt ". Sampling from trajectory... Done."]
                /\ current final = nextQ
            end.
Proof.
  intros E1 E2 -> epsilon p0 startH log_u st0.
  destruct (@tree_loop_run _ _ start gmm epsilon startH log_u maxSteps st0
                           (r :: d3))
    as (ss & st' & E & Hp & Hlen);
    [right; change (maxSteps - 0 <= maxSteps)%nat; lia|].
  exists ss, st'. split; [assumption|].
  destruct (tree_passes_state Hp) as (Hexit & Hpath & Hvalid).
  cbn [t_path t_validCandidates st0 app] in Hpath, Hvalid.
  split.
  { split; [|change (List.length ss <= maxSteps - 0)%nat in Hlen; lia].
    inversion Hp; subst; [discriminate|]. simpl. lia. }
  cbn zeta.
  unfold nutsGenerator.
  rewrite (bind_silent randn _ _ E1), (bind_silent randn _ _ E2).
  rewrite (bind_silent Math_random _ (u :: r :: d3) (eq_refl _)).
  rewrite bind_yield. cbn [fst snd].
  fold epsilon. fold p0.
  change (- getLogProb start gmm + c_half * (x p0 * x p0 + y p0 * y p0))
    with startH.
  fold log_u.
  change (mkTree start _ _ false 0 "" [start] [start]) with st0.
  rewrite (bind_run _ _ _ E). cbn [fst snd].
  rewrite bind_defined.
  rewrite Hvalid, Hpath. cbn [List.length Nat.ltb Nat.leb].
  rewrite bind_assoc.
  rewrite (bind_silent Math_random _ (r :: d3) (eq_refl _)).
  rewrite bind_assoc.
  unfold select. cbn beta zeta. cbn [List.length].
  set (picked := match to_index _ with Some i => _ | None => None end).
  eexists. split; cycle 1.
  - destruct picked as [q|].
    + rewrite bind_defined, !bind_ret, bind_yield.
      cbn [fst snd ret]. do 2 eexists. split; [reflexivity|].
      unfold terminal_record, described. cbn.
      repeat split; try reflexivity;
        eexists; split; try reflexivity; try lia; auto.
    + rewrite bind_undefined.
      cbn [fst snd]. rewrite app_nil_r. reflexivity.
  - unfold interim_record, described. cbn.
    repeat split; try reflexivity. eexists; split; [reflexivity|lia].
Qed.

(** ** Every sampler, as the driver starts it *)

Lemma interim_record_moving start (e : StepResult T) :
  interim_record false start e -> interim_record true start e.
Proof.
  unfold interim_record. intros (H1 & H2 & H3 & H4 & _).
  repeat split; auto. discriminate.
Qed.

Lemma cycle_records algorithm start params gmm d :
  (6 <= nonzero_draws d)%nat ->
  forallb selectable d = true ->
  exists es r final rest,
    new_generator algorithm start params gmm d
    = (es ++ [r], Some (final, rest))
    /\ Forall (interim_record
                 (match algorithm with GIBBS => true | _ => false end) start)
              es
    /\ terminal_record (match algorithm with NUTS => true | _ => false end) r
    /\ current final = current r
    /\ (exists used, d = used ++ rest)
    /\ (nonzero_draws d - 6 <= nonzero_draws rest)%nat.
Proof.
  intros H Hsel. destruct algorithm; cbn [new_generator].
  - destruct (two_normals_one_draw d)
      as (z1 & u_x & z2 & v_x & z3 & u_y & z4 & v_y & dice & rest
          & _ & _ & _ & _ & _ & E1 & E2); [lia|].
    destruct (@mh_records start params gmm _ _ _ _ _ _ _ E1 E2 eq_refl)
      as (r1 & r2 & r3 & final & E & I1 & I2 & T3 & Cf & _).
    destruct (randn_leftover _ E1) as [[used1 Hu1] C1].
    destruct (randn_leftover _ E2) as [[used2 Hu2] C2].
    pose proof (nonzero_draws_cons dice rest).
    exists [r1; r2], r3, final, rest.
    split; [exact E|].
    split; [apply Forall_cons; [|apply Forall_cons; [|apply Forall_nil]];
            assumption|].
    split; [assumption|]. split; [assumption|].
    split; [|lia].
    exists (used1 ++ used2 ++ [dice]). rewrite Hu1, Hu2.
    repeat (rewrite <- app_assoc; cbn [app]). reflexivity.
  - destruct (gibbs_supply d H)
      as (z_x & d1 & dice_x & d2 & z_y & d3 & dice_y & d4 & E1 & -> & E2 & ->).
    destruct (@gibbs_records start params gmm _ _ _ _ _ _ _ _ _ E1 eq_refl
                             E2 eq_refl)
      as (r1 & r2 & r3 & final & E & I1 & I2 & T3 & Cf & _).
    destruct (randn_leftover _ E1) as [[used1 Hu1] C1].
    destruct (randn_leftover _ E2) as [[used2 Hu2] C2].
    pose proof (nonzero_draws_cons dice_x d2).
    pose proof (nonzero_draws_cons dice_y d4).
    exists [r1; r2], r3, final, d4.
    split; [exact E|].
    split; [apply Forall_cons; [|apply Forall_cons; [|apply Forall_nil]];
            auto using interim_record_moving|].
    split; [assumption|]. split; [assumption|].
    split; [|lia].
    exists (used1 ++ dice_x :: used2 ++ [dice_y]). rewrite Hu1, Hu2.
    repeat (rewrite <- app_assoc; cbn [app]). reflexivity.
  - destruct (two_normals_one_draw d)
      as (z1 & u_x & z2 & v_x & z3 & u_y & z4 & v_y & dice & rest
          & _ & _ & _ & _ & _ & E1 & E2); [lia|].
    destruct (@hmc_records start params gmm _ _ _ _ _ _ _ E1 E2 eq_refl)
      as (r1 & leap & r3 & final & E & I1 & _ & Hall & _ & _ & T3 & _ & _ & Cf).
    destruct (randn_leftover _ E1) as [[used1 Hu1] C1].
    destruct (randn_leftover _ E2) as [[used2 Hu2] C2].
    pose proof (nonzero_draws_cons dice rest).
    exists (r1 :: leap), r3, final, rest.
    split; [exact E|]. split; [constructor; assumption|].
    split; [assumption|]. split; [assumption|].
    split; [|lia].
    exists (used1 ++ used2 ++ [dice]). rewrite Hu1, Hu2.
    repeat (rewrite <- app_assoc; cbn [app]). reflexivity.
  - destruct (nuts_supply d H)
      as (z_x & d1 & z_y & u & r & d3 & E1 & E2 & Hin).
    destruct (@nuts_records start params gmm _ _ _ _ _ _ r _ E1 E2 eq_refl)
      as (ss & st' & Hp & Hlen & r1 & (I1 & _) & Hrun).
    destruct (randn_leftover _ E1) as [[used1 Hu1] C1].
    destruct (randn_leftover _ E2) as [[used2 Hu2] C2].
    pose proof (nonzero_draws_cons u (r :: d3)).
    pose proof (nonzero_draws_cons r d3).
    rewrite forallb_forall in Hsel.
    destruct (@selectable_select _ _ r
                (start :: map (pass_position (stepSize params * c_0_4))
                   (filter (pass_in_slice gmm (stepSize params * c_0_4)
                              (Math_log u
                               - hamiltonian gmm start (mkPoint z_x z_y)))
                           ss)))
      as (nextQ & Hsel' & _); [auto| |].
    { cbn [List.length]. rewrite length_map.
      pose proof (filter_length
                    (pass_in_slice gmm (stepSize params * c_0_4)
                       (Math_log u - hamiltonian gmm start (mkPoint z_x z_y)))
                    ss).
      lia. }
    rewrite Hsel' in Hrun.
    destruct Hrun as (r3 & final & E & T3 & C3 & _ & _ & _ & Cf).
    eexists (r1 :: map _ ss), r3, final, d3.
    split; [exact E|]. split; [|split; [exact T3|split; [congruence|]]].
    + constructor; [exact I1|].
      apply Forall_forall. intros e He. apply in_map_iff in He.
      destruct He as (s & <- & _).
      apply (tree_body_record start gmm (stepSize params * c_0_4)
               (hamiltonian gmm start (mkPoint z_x z_y))
               (Math_log u - hamiltonian gmm start (mkPoint z_x z_y)) s).
    + split; [|lia].
      exists (used1 ++ used2 ++ [u; r]). rewrite Hu1, Hu2.
      repeat (rewrite <- app_assoc; cbn [app]). reflexivity.
Qed.
End CycleRecords.

(** * Further properties of the samplers *)

Section SamplerProperties.
Context {T : Type} {N : Num T}.
Local Open Scope string_scope.
Local Open Scope list_scope.
Local Open Scope num_scope.

Implicit Types (start q : Point T) (params : SimulationParams T)
               (gmm : list (GMMComponent T)) (d : list T).

(** X1.  [randn] throws away the draws that are zero and applies the
    Box-Muller transform to the first two that are not, leaving the draws
    after the second of them untouched; on a supply with fewer than two
    non-zero draws it never returns.  It yields no record either way. *)
Theorem randn_takes_first_two_nonzero_draws d :
  ((nonzero_draws d < 2)%nat /\ randn d = ([], None))
  \/ (exists z1 u z2 v rest,
        d = z1 ++ u :: z2 ++ v :: rest
        /\ zeros z1 /\ (u === lit 0) = false
        /\ zeros z2 /\ (v === lit 0) = false
        /\ randn d = ([], Some (box_muller u v, rest))).
Proof.
  destruct (le_lt_dec 2 (nonzero_draws d)) as [H|H].
  - right.
    destruct (randn_enough d H)
      as (z1 & u & z2 & v & rest & E & Hz1 & Hu & Hz2 & Hv & Er & _).
    exists z1, u, z2, v, rest. auto 10.
  - left. split; [exact H | now apply randn_starved].
Qed.

(** X2.  In a cycle of MH, HMC or NUTS every record before the last shows
    the chain at its starting point, is not a finished step and carries no
    [accepted] flag; the last record is the finished one, carries the flag,
    and shows the point that the generator returns. *)
Theorem marker_waits_for_terminal_record algorithm start params gmm d :
  (6 <= nonzero_draws d)%nat ->
  forallb selectable d = true ->
  algorithm <> GIBBS ->
  exists es r final rest,
    new_generator algorithm start params gmm d
    = (es ++ [r], Some (final, rest))
    /\ Forall (fun e => current e = start /\ isFinishedStep e = false
                        /\ accepted e = None) es
    /\ isFinishedStep r = true
    /\ (exists b, accepted r = Some b)
    /\ current final = current r.
Proof.
  intros H Hsel Halg.
  destruct (cycle_records algorithm start params gmm d H Hsel)
    as (es & r & final & rest & E & Hall & (F & _ & _ & b & A & _) & Cf & _).
  exists es, r, final, rest. split; [exact E|].
  split; [|split; [exact F|split; [exists b; exact A|exact Cf]]].
  eapply Forall_impl; [|exact Hall].
  intros e (F1 & A1 & _ & _ & C1). repeat split; auto.
  apply C1. destruct algorithm; congruence.
Qed.

(** X3.  Gibbs moves the marker in the middle of the cycle: its second
    record shows the point after the X update, which has the starting [y]
    and is either the starting point again or the proposal the record
    carries, and the terminal record keeps that [x]. *)
Theorem gibbs_shows_x_move_mid_cycle start params gmm d :
  (6 <= nonzero_draws d)%nat ->
  exists r1 r2 r3 final rest,
    gibbsGenerator start params gmm d = ([r1; r2; r3], Some (final, rest))
    /\ current r1 = start
    /\ isFinishedStep r2 = false
    /\ y (current r2) = y start
    /\ (current r2 = start \/ proposal r2 = Some (current r2))
    /\ x (current r3) = x (current r2).
Proof.
  intros H.
  destruct (gibbs_supply d H)
    as (z_x & d1 & dice_x & d2 & z_y & d3 & dice_y & d4 & E1 & -> & E2 & ->).
  destruct (@gibbs_run _ _ start params gmm _ _ _ _ _ _ _ _ _ E1 eq_refl
                       E2 eq_refl)
    as (r1 & r2 & r3 & final & E & (C1 & _) & (C2 & P2 & _ & F2) & (C3 & _)
        & _).
  exists r1, r2, r3, final, d4. split; [exact E|]. split; [exact C1|].
  split; [exact F2|]. rewrite C2, C3, P2. cbn [x y].
  repeat split.
  destruct (_ < _); [right; reflexivity | left; now destruct start].
Qed.

(** X4.  The records of the HMC leapfrog loop trace the trajectory of the
    terminal record: the [j]-th of them (from 0) carries its first [j + 2]
    points, the gradient of the log density at its [j]-th point (where the
    step starts, not where it arrives), the delay
    [max(100, floor(2500 / L))] and the text [Leapfrog Step j+1/L]. *)
Theorem hmc_leapfrog_records_trace_the_trajectory start params gmm d :
  (5 <= nonzero_draws d)%nat ->
  exists r1 leap r3 final rest trajectory,
    hmcGenerator start params gmm d = (r1 :: leap ++ [r3], Some (final, rest))
    /\ path r3 = Some trajectory
    /\ List.length leap = Z.to_nat (leapfrog_count params)
    /\ forall j e, nth_error leap j = Some e ->
         path e = Some (firstn (j + 2) trajectory)
         /\ (exists q, nth_error trajectory j = Some q
                       /\ gradient (details e) = Some (getGradLogProb q gmm))
         /\ delay e = Some (Z.max 100 (2500 / leapfrog_count params))
         /\ description (details e)
            = Some [Txt "Leapfrog Step "; Int (Z.of_nat j + 1); Txt "/";
                    Int (leapfrog_count params);
                    Txt ": Integrating Hamiltonian dynamics..."].
Proof.
  intros H.
  destruct (two_normals_one_draw d)
    as (z1 & u_x & z2 & v_x & z3 & u_y & z4 & v_y & dice & rest
        & _ & _ & _ & _ & _ & E1 & E2); [lia|].
  destruct (@hmc_records _ _ start params gmm _ _ _ _ _ _ _ E1 E2 eq_refl)
    as (r1 & leap & r3 & final & E & _ & _ & _ & Hlen & Hnth & _ & _ & P3 & _).
  exists r1, leap, r3, final, rest. eexists.
  split; [exact E|]. split; [exact P3|]. split; [exact Hlen|exact Hnth].
Qed.

(** X5.  The records of the NUTS tree-building loop trace the path of the
    terminal record.  With the momentum drawn from the first four non-zero
    draws of the supply and the slice draw after them, the loop makes the
    passes [ss]; the path of the terminal record is the chain's position
    followed by the position each pass moves to, one more point than there
    are loop records; the [j]-th loop record (from 0) carries the first
    [j + 2] points of that path, the delay 150 and the text [Tree Step j+1]
    with the U-turn number of the [j]-th pass, [(q' - start) . p] for the
    position [q'] the pass moves to and the momentum [p] it starts with,
    to two decimals. *)
Theorem nuts_tree_records_trace_the_path start params gmm d :
  (6 <= nonzero_draws d)%nat ->
  forallb selectable d = true ->
  exists z1 u_x z2 v_x z3 u_y z4 v_y u r rest ss st' r1 tree r3 final,
    let epsilon := stepSize params * c_0_4 in
    let p0 := mkPoint (box_muller u_x v_x) (box_muller u_y v_y) in
    let startH := hamiltonian gmm start p0 in
    let log_u := Math_log u - startH in
    let st0 := mkTree start (half_kick gmm epsilon start p0)
                      (getGradLogProb start gmm) false 0 "" [start] [start] in
    let trajectory := start :: map (pass_position epsilon) ss in
    d = z1 ++ u_x :: z2 ++ v_x :: z3 ++ u_y :: z4 ++ v_y :: u :: r :: rest
    /\ (zeros z1 /\ zeros z2 /\ zeros z3 /\ zeros z4)
    /\ ((u_x === lit 0) = false /\ (v_x === lit 0) = false
        /\ (u_y === lit 0) = false /\ (v_y === lit 0) = false)
    /\ tree_passes start gmm epsilon startH log_u st0 ss st'
    /\ nutsGenerator start params gmm d
       = (r1 :: tree ++ [r3], Some (final, rest))
    /\ path r3 = Some trajectory
    /\ hd_error trajectory = Some start
    /\ List.length tree = List.length ss
    /\ List.length trajectory = S (List.length tree)
    /\ forall j s e, nth_error ss j = Some s -> nth_error tree j = Some e ->
         t_q s = nth j trajectory start
         /\ path e = Some (firstn (j + 2) trajectory)
         /\ delay e = Some 150%Z
         /\ description (details e)
            = Some [Txt "Tree Step "; Int (Z.of_nat j + 1);
                    Txt ": Check U-Turn (dot=";
                    Fixed ((x (pass_position epsilon s) - x start) * x (t_p s)
                           + (y (pass_position epsilon s) - y start)
                             * y (t_p s)) 2;
                    Txt ")..."].
Proof.
  intros H Hsel.
  destruct (nuts_draws d H)
    as (z1 & u_x & z2 & v_x & z3 & u_y & z4 & v_y & u & r & rest
        & Hd & Hz & Hnz & E1 & E2 & Hin).
  destruct (@nuts_records _ _ start params gmm _ _ _ _ _ _ r _ E1 E2 eq_refl)
    as (ss & st' & Hp & Hlen & r1 & _ & Hrun).
  set (epsilon := stepSize params * c_0_4) in *.
  set (p0 := mkPoint (box_muller u_x v_x) (box_muller u_y v_y)) in *.
  set (startH := hamiltonian gmm start p0) in *.
  set (log_u := Math_log u - startH) in *.
  set (st0 := mkTree start _ _ false 0 "" [start] [start]) in *.
  rewrite forallb_forall in Hsel.
  destruct (@selectable_select _ _ r
              (start :: map (pass_position epsilon)
                            (filter (pass_in_slice gmm epsilon log_u) ss)))
    as (nextQ & Hsel' & _); [auto| |].
  { cbn [List.length]. rewrite length_map.
    pose proof (filter_length (pass_in_slice gmm epsilon log_u) ss). lia. }
  rewrite Hsel' in Hrun.
  destruct Hrun as (r3 & final & E & _ & _ & _ & P3 & _ & _).
  exists z1, u_x, z2, v_x, z3, u_y, z4, v_y, u, r, rest, ss, st'.
  eexists r1, _, r3, final.
  cbn zeta. fold epsilon p0 startH log_u st0.
  split; [exact Hd|]. split; [exact Hz|]. split; [exact Hnz|].
  split; [exact Hp|]. split; [exact E|]. split; [exact P3|].
  split; [reflexivity|].
  split; [now rewrite length_map|].
  split; [cbn [List.length]; now rewrite !length_map|].
  intros j s e Es Ej. rewrite nth_error_map, Es in Ej.
  injection Ej as <-.
  destruct (tree_body_record start gmm epsilon startH log_u s)
    as (_ & Hdl & Hpe & Hds).
  destruct (tree_passes_nth Hp j Es) as (Hpath & Hsteps & _ & _).
  cbn [t_path t_steps st0] in Hpath, Hsteps.
  split; [|split; [|split; [exact Hdl|]]].
  - clear - Hp Es.
    assert (G : forall st ss st',
               tree_passes start gmm epsilon startH log_u st ss st' ->
               forall j s, nth_error ss j = Some s ->
                 t_q s = nth j (t_q st :: map (pass_position epsilon) ss)
                             start).
    { clear. induction 1 as [st Hc | st ss st' Hc Hp' IH]; intros j s E.
      - destruct j; discriminate.
      - destruct j as [|j].
        + injection E as <-. reflexivity.
        + cbn [nth_error] in E. rewrite (IH j s E).
          pose proof (tree_body_state start gmm epsilon startH log_u st)
            as (Hq & _).
          cbn zeta in Hq.
          inversion Hp' as [? Hc1|? ? ? Hc1 Hp'']; subst;
            [destruct j; discriminate|].
          cbn [map nth]. destruct j as [|j]; [|reflexivity].
          cbn [nth]. exact Hq. }
    exact (G _ _ _ Hp j s Es).
  - rewrite Hpe, Hpath. f_equal.
    replace (j + 2)%nat with (S (S j)) by lia.
    rewrite firstn_cons, firstn_map, (firstn_snoc ss j Es), map_app.
    reflexivity.
  - rewrite Hds, Hsteps. reflexivity.
Qed.

(** X6.  The terminal NUTS record tells why the tree stopped, by the last
    pass of the loop the cycle runs on its draws (the momentum from the
    first four non-zero draws of the supply, the slice draw after them):
    [U-Turn Detected] when that pass saw a U-turn, [(q' - start) . p < 0]
    (also when it saw a divergence as well), [Divergence] when it saw a
    divergence only, [H - H0 > 1000], and the empty text when it saw
    neither, which happens only when the loop has run its 50 passes. *)
Theorem nuts_reports_why_the_tree_stopped start params gmm d :
  (6 <= nonzero_draws d)%nat ->
  forallb selectable d = true ->
  exists z1 u_x z2 v_x z3 u_y z4 v_y u r rest ss st' es r3 final reason,
    let epsilon := stepSize params * c_0_4 in
    let p0 := mkPoint (box_muller u_x v_x) (box_muller u_y v_y) in
    let startH := hamiltonian gmm start p0 in
    let log_u := Math_log u - startH in
    let st0 := mkTree start (half_kick gmm epsilon start p0)
                      (getGradLogProb start gmm) false 0 "" [start] [start] in
    let final_pass := last ss st0 in
    let q' := pass_position epsilon final_pass in
    let turned :=
      (x q' - x start) * x (t_p final_pass)
      + (y q' - y start) * y (t_p final_pass) < lit 0 in
    let diverged :=
      (hamiltonian gmm q' (half_kick gmm epsilon q' (t_p final_pass))
       - startH) > lit 1000 in
    d = z1 ++ u_x :: z2 ++ v_x :: z3 ++ u_y :: z4 ++ v_y :: u :: r :: rest
    /\ (zeros z1 /\ zeros z2 /\ zeros z3 /\ zeros z4)
    /\ ((u_x === lit 0) = false /\ (v_x === lit 0) = false
        /\ (u_y === lit 0) = false /\ (v_y === lit 0) = false)
    /\ tree_passes start gmm epsilon startH log_u st0 ss st'
    /\ ss <> []
    /\ nutsGenerator start params gmm d = (es ++ [r3], Some (final, rest))
    /\ List.length es = S (List.length ss)
    /\ description (details r3)
       = Some [Txt "Step 3: "; Txt reason;
               Txt ". Sampling from trajectory... Done."]
    /\ reason = (if turned then "U-Turn Detected"
                 else if diverged then "Divergence"
                      else "")
    /\ (reason = "" -> List.length ss = maxSteps).
Proof.
  intros H Hsel.
  destruct (nuts_draws d H)
    as (z1 & u_x & z2 & v_x & z3 & u_y & z4 & v_y & u & r & rest
        & Hd & Hz & Hnz & E1 & E2 & Hin).
  destruct (@nuts_records _ _ start params gmm _ _ _ _ _ _ r _ E1 E2 eq_refl)
    as (ss & st' & Hp & Hlen & r1 & _ & Hrun).
  set (epsilon := stepSize params * c_0_4) in *.
  set (p0 := mkPoint (box_muller u_x v_x) (box_muller u_y v_y)) in *.
  set (startH := hamiltonian gmm start p0) in *.
  set (log_u := Math_log u - startH) in *.
  set (st0 := mkTree start _ _ false 0 "" [start] [start]) in *.
  rewrite forallb_forall in Hsel.
  destruct (@selectable_select _ _ r
              (start :: map (pass_position epsilon)
                            (filter (pass_in_slice gmm epsilon log_u) ss)))
    as (nextQ & Hsel' & _); [auto| |].
  { cbn [List.length]. rewrite length_map.
    pose proof (filter_length (pass_in_slice gmm epsilon log_u) ss). lia. }
  rewrite Hsel' in Hrun.
  destruct Hrun as (r3 & final & E & _ & _ & _ & _ & D3 & _).
  assert (Hne : ss <> []) by (destruct ss; [simpl in Hlen; lia|discriminate]).
  destruct (tree_passes_reason Hp Hne) as (Hreason & Hsteps & _).
  cbn zeta in Hreason, Hsteps. cbn [t_reason t_steps st0] in Hreason, Hsteps.
  destruct (tree_passes_stop Hp eq_refl) as [_ Hstop].
  specialize (Hstop Hne).
  exists z1, u_x, z2, v_x, z3, u_y, z4, v_y, u, r, rest, ss, st'.
  eexists (r1 :: map _ ss), r3, final, (t_reason st').
  cbn zeta. fold epsilon p0 startH log_u st0.
  split; [exact Hd|]. split; [exact Hz|]. split; [exact Hnz|].
  split; [exact Hp|]. split; [exact Hne|]. split; [exact E|].
  split; [cbn [List.length]; now rewrite length_map|].
  split; [exact D3|]. split; [exact Hreason|].
  rewrite Hreason. intros Hempty.
  destruct (pass_turns start epsilon (last ss st0)); [discriminate|].
  destruct (pass_diverges gmm epsilon startH (last ss st0)); [discriminate|].
  destruct Hstop as [?|[?|Hcap]]; try discriminate.
  rewrite Hsteps in Hcap. exact Hcap.
Qed.

(** X22.  A negative [numSteps], which the type allows, is taken as it is:
    the leapfrog loop does not run, the HMC cycle has two records only, the
    trajectory is the starting point alone, and the chain stays where it
    is whether the sample is counted as accepted or not. *)
Theorem hmc_with_negative_numSteps_stays start params gmm d L :
  numSteps params = Some L ->
  (L < 0)%Z ->
  (5 <= nonzero_draws d)%nat ->
  exists r1 r3 final rest,
    hmcGenerator start params gmm d = ([r1; r3], Some (final, rest))
    /\ leapfrog_count params = L
    /\ path r3 = Some [start]
    /\ current r3 = start
    /\ current final = start
    /\ exists b, accepted r3 = Some b.
Proof.
  intros HL Hneg H.
  destruct (two_normals_one_draw d)
    as (z1 & u_x & z2 & v_x & z3 & u_y & z4 & v_y & dice & rest
        & _ & _ & _ & _ & _ & E1 & E2); [lia|].
  destruct (@hmc_run _ _ start params gmm _ _ _ _ _ _ _ E1 E2 eq_refl)
    as (r1 & leap & r3 & final & E & _ & Hlen & _
        & (C3 & A3 & P3 & _) & Cf & _).
  assert (Hcount : leapfrog_count params = L).
  { unfold leapfrog_count. rewrite HL.
    destruct (Z.eqb_spec L 0); [lia | reflexivity]. }
  rewrite Hcount in *.
  replace (Z.to_nat L) with 0%nat in * by lia.
  destruct leap as [|e leap]; [|discriminate Hlen].
  cbn [leapfrog_trajectory leapfrog_steps fst snd] in C3, P3.
  exists r1, r3, final, rest. split; [exact E|]. split; [reflexivity|].
  split; [exact P3|].
  assert (Hc : current r3 = start) by (rewrite C3; now destruct (_ < _)).
  split; [exact Hc|]. split; [now rewrite Cf|].
  eexists. exact A3.
Qed.
End SamplerProperties.

(** * The driver *)

Section DriverProperties.
Context {T : Type} {N : Num T}.
Local Open Scope string_scope.
Local Open Scope list_scope.

Implicit Types (st : @AppState T) (es : list (StepResult T))
               (params : SimulationParams T) (gmm : list (GMMComponent T))
               (d : list T).

Lemma slice_last_short {A} (n : nat) (l : list A) :
  (List.length l <= n)%nat -> slice_last n l = l.
Proof.
  intros H. unfold slice_last.
  replace (List.length l - n)%nat with 0%nat by lia. reflexivity.
Qed.

Lemma slice_last_length {A} (n : nat) (l : list A) :
  List.length (slice_last n l) = Nat.min n (List.length l).
Proof. unfold slice_last. rewrite length_skipn. lia. Qed.

Lemma push_history_slice (prev : list (Point T)) (value : StepResult T) :
  push_history prev value = slice_last 2000 (prev ++ [current value]).
Proof.
  unfold push_history. cbv zeta.
  destruct (Nat.ltb_spec 2000 (List.length (prev ++ [current value])));
    [reflexivity|].
  symmetry. now apply slice_last_short.
Qed.

Lemma push_history_length (prev : list (Point T)) (value : StepResult T) :
  List.length (push_history prev value)
  = Nat.min 2000 (S (List.length prev)).
Proof.
  rewrite push_history_slice, slice_last_length, length_app.
  cbn [List.length]. lia.
Qed.

Lemma push_history_snoc (prev : list (Point T)) (value : StepResult T) :
  exists dropped kept,
    prev = dropped ++ kept
    /\ push_history prev value = kept ++ [current value]
    /\ List.length dropped = (S (List.length prev) - 2000)%nat.
Proof.
  set (k := (S (List.length prev) - 2000)%nat).
  exists (firstn k prev), (skipn k prev).
  split; [symmetry; apply firstn_skipn|].
  split.
  - rewrite push_history_slice. unfold slice_last.
    rewrite length_app. cbn [List.length].
    replace (List.length prev + 1 - 2000)%nat with k by (unfold k; lia).
    rewrite skipn_app.
    replace (k - List.length prev)%nat with 0%nat by (unfold k; lia).
    reflexivity.
  - rewrite length_firstn. unfold k. lia.
Qed.

(** X7.  At the end of a sample the history takes the new point at its end
    and keeps its last 2000 points: the oldest point is dropped once there
    are more, nothing else is lost or reordered, and the heat map's
    [history.slice(-2000)] shows all of what is kept. *)
Theorem history_keeps_the_last_2000 (prev : list (Point T))
    (value : StepResult T) :
  push_history prev value = slice_last 2000 (prev ++ [current value])
  /\ List.length (push_history prev value)
     = Nat.min 2000 (S (List.length prev))
  /\ (exists dropped kept,
        prev = dropped ++ kept
        /\ push_history prev value = kept ++ [current value]
        /\ List.length dropped = (S (List.length prev) - 2000)%nat)
  /\ visibleHistory (push_history prev value) = push_history prev value.
Proof.
  split; [apply push_history_slice|].
  split; [apply push_history_length|].
  split; [apply push_history_snoc|].
  unfold visibleHistory. apply slice_last_short.
  rewrite push_history_length. lia.
Qed.

Lemma apply_value_invariants st (e : StepResult T) :
  (stats_accepted (app_stats st) <= stats_total (app_stats st))%nat ->
  (List.length (app_history st) <= 2000)%nat ->
  let st' := apply_value st e in
  (stats_accepted (app_stats st') <= stats_total (app_stats st'))%nat
  /\ stats_total (app_stats st')
     = (stats_total (app_stats st)
        + if isFinishedStep e then 1 else 0)%nat
  /\ List.length (app_history st')
     = Nat.min 2000 (List.length (app_history st)
                     + if isFinishedStep e then 1 else 0)
  /\ (stats_accepted (app_stats st)
      <= stats_accepted (app_stats st'))%nat.
Proof.
  intros Hs Hh. unfold apply_value.
  destruct (isFinishedStep e); cbn [app_stats app_history].
  - unfold count_sample. cbn [stats_accepted stats_total].
    rewrite push_history_length.
    destruct (accepted e) as [[|]|]; repeat split; lia.
  - repeat split; lia.
Qed.

(** X8.  Whatever records the driver applies, in whatever order: the
    counter of accepted samples never exceeds the counter of all samples,
    the latter grows by one per finished record, the history never shrinks
    and never holds more than 2000 points, and [history.slice(-2000)] of
    the heat map is the whole history. *)
Theorem driver_keeps_its_invariants st es :
  (stats_accepted (app_stats st) <= stats_total (app_stats st))%nat ->
  (List.length (app_history st) <= 2000)%nat ->
  let st' := fold_left apply_value es st in
  (stats_accepted (app_stats st') <= stats_total (app_stats st'))%nat
  /\ stats_total (app_stats st')
     = (stats_total (app_stats st)
        + List.length (filter (@isFinishedStep T) es))%nat
  /\ List.length (app_history st')
     = Nat.min 2000 (List.length (app_history st)
                     + List.length (filter (@isFinishedStep T) es))
  /\ (List.length (app_history st) <= List.length (app_history st'))%nat
  /\ visibleHistory (app_history st') = app_history st'.
Proof.
  revert st. induction es as [|e es IH]; intros st Hs Hh; cbn zeta.
  - cbn [fold_left filter List.length].
    repeat split; try lia.
    unfold visibleHistory. now apply slice_last_short.
  - cbn [fold_left filter].
    destruct (apply_value_invariants st e Hs Hh) as (Hs1 & Ht1 & Hl1 & _).
    cbn zeta in Hs1, Ht1, Hl1.
    assert (Hh1 : (List.length (app_history (apply_value st e)) <= 2000)%nat)
      by lia.
    destruct (IH _ Hs1 Hh1) as (Hs2 & Ht2 & Hl2 & Hm2 & Hv2).
    cbn zeta in Hs2, Ht2, Hl2, Hm2, Hv2.
    split; [exact Hs2|].
    destruct (isFinishedStep e); cbn [List.length];
      repeat split; try exact Hv2; lia.
Qed.

(** What the records before the terminal one do to the state. *)
Lemma apply_interim_records st es :
  Forall (fun e => isFinishedStep e = false /\ described e = true) es ->
  let st' := fold_left apply_value es st in
  app_history st' = app_history st
  /\ app_stats st' = app_stats st
  /\ app_generator st' = app_generator st
  /\ app_stepLogs st' = app_stepLogs st ++ map (@details T) es.
Proof.
  intros Hall. revert st.
  induction Hall as [|e es [Hf Hd] _ IH]; intros st; cbn zeta.
  - cbn. now rewrite app_nil_r.
  - cbn [fold_left map].
    destruct (IH (apply_value st e)) as (Hh & Hs & Hg & Hl).
    cbn zeta in Hh, Hs, Hg, Hl.
    rewrite Hh, Hs, Hg, Hl.
    unfold apply_value. rewrite Hf. cbn [app_history app_stats app_generator
                                         app_stepLogs].
    unfold described in Hd.
    destruct (description (details e)) as [t|]; [|discriminate].
    rewrite Hd, <- app_assoc. repeat split; reflexivity.
Qed.

Lemma interim_record_applies moving start (e : StepResult T) :
  interim_record moving start e ->
  isFinishedStep e = false /\ described e = true.
Proof. unfold interim_record. tauto. Qed.

Lemma Forall_firstn {A} (P : A -> Prop) (l : list A) k :
  Forall P l -> Forall P (firstn k l).
Proof.
  intros H. revert k. induction H as [|a l Ha _ IH]; intros [|k];
    cbn [firstn]; constructor; auto.
Qed.

(** The terminal record of a sample, as the driver applies it, and what
    the generator leaves of the supply. *)
Lemma sample_once_effect detailedMode algorithm params gmm st d :
  (6 <= nonzero_draws d)%nat ->
  forallb selectable d = true ->
  exists final rest,
    snd (new_generator algorithm (app_current st) params gmm d)
    = Some (final, rest)
    /\ (exists used, d = used ++ rest)
    /\ (nonzero_draws d - 6 <= nonzero_draws rest)%nat
    /\ let st' := sample_once detailedMode algorithm params gmm st d in
       app_current st' = current final
       /\ app_history st'
          = slice_last 2000 (app_history st ++ [current final])
       /\ stats_total (app_stats st') = S (stats_total (app_stats st))
       /\ (stats_accepted (app_stats st) <= stats_accepted (app_stats st')
           <= S (stats_accepted (app_stats st)))%nat
       /\ (algorithm = NUTS ->
           stats_accepted (app_stats st')
           = S (stats_accepted (app_stats st)))
       /\ app_generator st' = false.
Proof.
  intros H Hsel.
  destruct (cycle_records algorithm (app_current st) params gmm d H Hsel)
    as (es & r & final & rest & E & Hall & (F & _ & _ & b & A & Hb) & Cf
        & Hused & Hleft).
  assert (Hall' : Forall (fun e => isFinishedStep e = false
                                   /\ described e = true) es).
  { eapply Forall_impl; [|exact Hall]. intros e.
    apply interim_record_applies. }
  exists final, rest. split; [now rewrite E|].
  split; [exact Hused|]. split; [exact Hleft|].
  cbv zeta. unfold sample_once. rewrite E. cbn [emitted fst].
  rewrite fold_left_app. cbn [fold_left].
  destruct (apply_interim_records (prepare_sample detailedMode st) Hall')
    as (Hh & Hs & Hg & _).
  cbn zeta in Hh, Hs, Hg.
  set (mid := fold_left apply_value es (prepare_sample detailedMode st)) in *.
  cbn [prepare_sample app_history app_stats app_generator] in Hh, Hs, Hg.
  unfold apply_value. rewrite F.
  cbn [app_current app_history app_stats app_generator].
  rewrite Hh, Hs, push_history_slice.
  unfold count_sample. cbn [stats_accepted stats_total]. rewrite A, Cf.
  split; [reflexivity|]. split; [reflexivity|].
  split; [lia|]. split; [destruct b; lia|].
  split; [|reflexivity].
  intros ->. rewrite (Hb eq_refl). lia.
Qed.

(** X9.  One sample of any of the four samplers, as the driver runs it:
    while the records before the terminal one are applied the history and
    the counters stay as they were and the generator is kept; the terminal
    record appends its point to the history (capped at 2000), makes it the
    current point, counts one sample, counts it as accepted at most once,
    and drops the generator, whose return value, the same point, is never
    read.  For NUTS the sample is always counted as accepted. *)
Theorem sample_once_appends_the_terminal_point
    detailedMode algorithm params gmm st d :
  (6 <= nonzero_draws d)%nat ->
  forallb selectable d = true ->
  let run := new_generator algorithm (app_current st) params gmm d in
  let st' := sample_once detailedMode algorithm params gmm st d in
  (exists final,
      returned run = Some final
      /\ app_current st' = current final
      /\ app_history st' = slice_last 2000 (app_history st ++ [current final]))
  /\ stats_total (app_stats st') = S (stats_total (app_stats st))
  /\ (stats_accepted (app_stats st) <= stats_accepted (app_stats st')
      <= S (stats_accepted (app_stats st)))%nat
  /\ (algorithm = NUTS ->
      stats_accepted (app_stats st') = S (stats_accepted (app_stats st)))
  /\ app_generator st' = false
  /\ (forall k, (k < List.length (emitted run))%nat ->
        let mid := fold_left apply_value (firstn k (emitted run))
                             (prepare_sample detailedMode st) in
        app_history mid = app_history st
        /\ app_stats mid = app_stats st
        /\ app_generator mid = true).
Proof.
  intros H Hsel run st'.
  destruct (sample_once_effect detailedMode algorithm params gmm st d H Hsel)
    as (final & rest & Er & _ & _ & Hc & Hh & Ht & Ha & Hn & Hg).
  fold run in Er. fold st' in Hc, Hh, Ht, Ha, Hn, Hg.
  split.
  { exists final. unfold returned. rewrite Er. auto. }
  split; [exact Ht|]. split; [exact Ha|]. split; [exact Hn|].
  split; [exact Hg|].
  destruct (cycle_records algorithm (app_current st) params gmm d H Hsel)
    as (es & r & final' & rest' & E & Hall & _).
  assert (Hall' : Forall (fun e => isFinishedStep e = false
                                   /\ described e = true) es).
  { eapply Forall_impl; [|exact Hall]. intros e.
    apply interim_record_applies. }
  assert (Ee : emitted run = es ++ [r]) by (unfold run; now rewrite E).
  intros k Hk. rewrite Ee in *.
  rewrite length_app in Hk. cbn [List.length] in Hk.
  rewrite firstn_app.
  replace (k - List.length es)%nat with 0%nat by lia.
  cbn [firstn]. rewrite app_nil_r.
  destruct (apply_interim_records (prepare_sample detailedMode st)
              (Forall_firstn k Hall'))
    as (Hh' & Hs' & Hg' & _).
  exact (conj Hh' (conj Hs' Hg')).
Qed.

(** X10.  The step log after one sample: in the detailed mode it holds the
    [details] of the records of this sample and nothing else, one entry per
    record in the order yielded; outside the detailed mode it is not
    cleared, the same entries are appended to what it held, so that it
    grows with every sample until the next reset. *)
Theorem step_log_after_one_sample detailedMode algorithm params gmm st d :
  (6 <= nonzero_draws d)%nat ->
  forallb selectable d = true ->
  let run := new_generator algorithm (app_current st) params gmm d in
  let st' := sample_once detailedMode algorithm params gmm st d in
  app_stepLogs st'
  = (if detailedMode then [] else app_stepLogs st)
    ++ map (@details T) (emitted run).
Proof.
  intros H Hsel run st'.
  destruct (cycle_records algorithm (app_current st) params gmm d H Hsel)
    as (es & r & final & rest & E & Hall & (F & D & _) & Cf & _).
  assert (Hall' : Forall (fun e => isFinishedStep e = false
                                   /\ described e = true) es).
  { eapply Forall_impl; [|exact Hall]. intros e.
    apply interim_record_applies. }
  subst st'. unfold sample_once. fold run.
  assert (Er : emitted run = es ++ [r]) by (unfold run; now rewrite E).
  rewrite Er, fold_left_app. cbn [fold_left].
  destruct (apply_interim_records (prepare_sample detailedMode st) Hall')
    as (_ & _ & _ & Hl).
  cbn zeta in Hl. cbn [prepare_sample app_stepLogs] in Hl.
  set (mid := fold_left apply_value es (prepare_sample detailedMode st)) in *.
  unfold apply_value. unfold described in D.
  destruct (description (details r)) as [t|]; [|discriminate].
  rewrite D, F. cbv beta iota zeta. cbn [app_stepLogs].
  rewrite Hl, map_app, <- app_assoc. reflexivity.
Qed.

Lemma scheduled_app b (es1 es2 : list (StepResult T)) :
  scheduled b (es1 ++ es2) = (scheduled b es1 + scheduled b es2)%Z.
Proof.
  unfold scheduled. induction es1 as [|e es1 IH]; cbn [fold_right app].
  - reflexivity.
  - rewrite IH. lia.
Qed.

Lemma scheduled_plain es :
  scheduled false es = (30 * Z.of_nat (List.length es))%Z.
Proof.
  unfold scheduled. induction es as [|e es IH].
  - reflexivity.
  - cbn [fold_right List.length]. rewrite IH. unfold nextDelay. lia.
Qed.

Lemma scheduled_uniform es (ms : Z) :
  ms <> 0%Z ->
  Forall (fun e => delay e = Some ms) es ->
  scheduled true es = (Z.of_nat (List.length es) * ms)%Z.
Proof.
  intros Hms. unfold scheduled. induction 1 as [|e es He _ IH].
  - reflexivity.
  - cbn [fold_right List.length]. rewrite IH. unfold nextDelay. rewrite He.
    destruct (Z.eqb_spec ms 0); [contradiction|]. lia.
Qed.

Lemma scheduled_one (e : StepResult T) (ms : Z) :
  ms <> 0%Z -> delay e = Some ms -> scheduled true [e] = ms.
Proof.
  intros Hms He. rewrite (@scheduled_uniform [e] ms Hms).
  - cbn [List.length]. lia.
  - constructor; [exact He|constructor].
Qed.

(** X11.  The timers of one sample.  Outside the detailed mode every
    record is followed by a timer of 30 ms, whatever delay it recommends.
    In the detailed mode the timer is the delay of the record, and over the
    records of one sample these add up to 5000 ms for MH and for Gibbs, to
    [3000 + L * max(100, floor(2500 / L))] ms for HMC, which lies in
    [(5500 - L, 5500]] for [1 <= L <= 25], and to [3500 + 150 k] ms for a
    NUTS sample with [k] tree-building records, between 3650 and 11000. *)
Theorem timers_of_one_sample algorithm start params gmm d :
  (6 <= nonzero_draws d)%nat ->
  forallb selectable d = true ->
  let es := emitted (new_generator algorithm start params gmm d) in
  let L := leapfrog_count params in
  scheduled false es = (30 * Z.of_nat (List.length es))%Z
  /\ scheduled true es
     = match algorithm with
       | MH | GIBBS => 5000
       | HMC => 3000 + Z.max 0 L * Z.max 100 (2500 / L)
       | NUTS => 3500 + 150 * (Z.of_nat (List.length es) - 2)
       end%Z
  /\ (algorithm = HMC -> (1 <= L <= 25)%Z ->
      (5500 - L < scheduled true es <= 5500)%Z)
  /\ (algorithm = NUTS -> (3650 <= scheduled true es <= 11000)%Z).
Proof.
  intros H Hsel es L. split; [apply scheduled_plain|].
  assert (Hhmc : (1 <= L <= 25)%Z ->
                 (5500 - L < 3000 + Z.max 0 L * Z.max 100 (2500 / L)
                  <= 5500)%Z).
  { intros HL.
    assert (100 <= 2500 / L)%Z by (apply Z.div_le_lower_bound; lia).
    pose proof (Z.mul_div_le 2500 L ltac:(lia)).
    pose proof (Z.mul_succ_div_gt 2500 L ltac:(lia)).
    rewrite (Z.max_r 0 L), (Z.max_r 100 (2500 / L)) by lia. lia. }
  subst es. destruct algorithm; cbn [new_generator].
  - destruct (two_normals_one_draw d)
      as (z1 & u_x & z2 & v_x & z3 & u_y & z4 & v_y & dice & rest
          & _ & _ & _ & _ & _ & E1 & E2); [lia|].
    destruct (@mh_records _ _ (start) params gmm _ _ _ _ _ _ _ E1 E2 eq_refl)
      as (r1 & r2 & r3 & final & E & _ & _ & _ & _ & Hd).
    injection Hd as D1 D2 D3. rewrite E. cbn [emitted fst].
    unfold scheduled, nextDelay. cbn [fold_right]. rewrite D1, D2, D3.
    repeat split; try discriminate.
  - destruct (gibbs_supply d H)
      as (z_x & d1 & dice_x & d2 & z_y & d3 & dice_y & d4 & E1 & -> & E2 & ->).
    destruct (@gibbs_records _ _ start params gmm _ _ _ _ _ _ _ _ _ E1 eq_refl
                             E2 eq_refl)
      as (r1 & r2 & r3 & final & E & _ & _ & _ & _ & Hd & _).
    injection Hd as D1 D2 D3. rewrite E. cbn [emitted fst].
    unfold scheduled, nextDelay. cbn [fold_right]. rewrite D1, D2, D3.
    repeat split; try discriminate.
  - destruct (two_normals_one_draw d)
      as (z1 & u_x & z2 & v_x & z3 & u_y & z4 & v_y & dice & rest
          & _ & _ & _ & _ & _ & E1 & E2); [lia|].
    destruct (@hmc_records _ _ start params gmm _ _ _ _ _ _ _ E1 E2 eq_refl)
      as (r1 & leap & r3 & final & E & _ & D1 & _ & Hlen & Hnth & _ & D3 & _).
    fold L in Hlen, Hnth.
    assert (Hleap : Forall (fun e => delay e = Some (Z.max 100 (2500 / L)))
                           leap).
    { apply Forall_forall. intros e He.
      apply In_nth_error in He. destruct He as (j & Ej).
      now destruct (Hnth j e Ej) as (_ & _ & Hdl & _). }
    assert (Htotal : scheduled true (r1 :: leap ++ [r3])
                     = (3000 + Z.max 0 L * Z.max 100 (2500 / L))%Z).
    { change (r1 :: leap ++ [r3]) with ([r1] ++ leap ++ [r3]).
      rewrite !scheduled_app.
      rewrite (@scheduled_one r1 1500%Z), (@scheduled_one r3 1500%Z)
        by (assumption || discriminate).
      rewrite (@scheduled_uniform leap (Z.max 100 (2500 / L)))
        by (assumption || lia).
      rewrite Hlen, ZifyInst.of_nat_to_nat_eq. lia. }
    rewrite E. cbn [emitted fst]. rewrite Htotal.
    repeat split; try discriminate; apply Hhmc; assumption.
  - destruct (nuts_supply d H)
      as (z_x & d1 & z_y & u & r & d3 & E1 & E2 & Hin).
    destruct (@nuts_records _ _ start params gmm _ _ _ _ _ _ r _ E1 E2 eq_refl)
      as (ss & st' & Hp & Hlen & r1 & (_ & D1) & Hrun).
    set (epsilon := (stepSize params * c_0_4)%num) in *.
    set (startH := hamiltonian gmm start (mkPoint z_x z_y)) in *.
    set (log_u := (Math_log u - startH)%num) in *.
    rewrite forallb_forall in Hsel.
    destruct (@selectable_select _ _ r
                (start :: map (pass_position epsilon)
                              (filter (pass_in_slice gmm epsilon log_u) ss)))
      as (nextQ & Hsel' & _); [auto| |].
    { cbn [List.length]. rewrite length_map.
      pose proof (filter_length (pass_in_slice gmm epsilon log_u) ss). lia. }
    rewrite Hsel' in Hrun.
    destruct Hrun as (r3 & final & E & _ & _ & D3 & _).
    set (tree := map _ ss) in E.
    assert (Htree : Forall (fun e => delay e = Some 150%Z) tree).
    { apply Forall_forall. intros e He. apply in_map_iff in He.
      destruct He as (s & <- & _).
      now destruct (tree_body_record start gmm epsilon startH log_u s)
        as (_ & Hd & _). }
    assert (Hk : List.length tree = List.length ss)
      by (unfold tree; apply length_map).
    assert (Htotal : scheduled true (r1 :: tree ++ [r3])
                     = (3500 + 150 * Z.of_nat (List.length ss))%Z).
    { change (r1 :: tree ++ [r3]) with ([r1] ++ tree ++ [r3]).
      rewrite !scheduled_app.
      rewrite (@scheduled_one r1 1500%Z), (@scheduled_one r3 2000%Z)
        by (assumption || discriminate).
      rewrite (@scheduled_uniform tree 150%Z) by (assumption || lia).
      rewrite Hk. lia. }
    rewrite E. cbn [emitted fst]. rewrite Htotal.
    cbn [List.length]. rewrite length_app, Hk. cbn [List.length].
    change maxSteps with 50%nat in Hlen.
    repeat split; try discriminate; lia.
Qed.

Lemma forallb_suffix {A} (f : A -> bool) (used rest : list A) :
  forallb f (used ++ rest) = true -> forallb f rest = true.
Proof. rewrite forallb_app. intros H. now apply andb_prop in H. Qed.

Lemma slice_last_snoc (prev : list (Point T)) (c : Point T) :
  exists kept, slice_last 2000 (prev ++ [c]) = kept ++ [c].
Proof.
  destruct (push_history_snoc prev (mkStep c None None None no_details
                                           true None))
    as (dropped & kept & _ & Hk & _).
  rewrite push_history_slice in Hk. exists kept. exact Hk.
Qed.

(** The state after [n] samples in a row. *)
Lemma sample_many_effect detailedMode algorithm params gmm n st d :
  (6 * n <= nonzero_draws d)%nat ->
  forallb selectable d = true ->
  let st' := sample_many detailedMode algorithm params gmm n st d in
  stats_total (app_stats st') = (stats_total (app_stats st) + n)%nat
  /\ (stats_accepted (app_stats st) <= stats_accepted (app_stats st')
      <= stats_accepted (app_stats st) + n)%nat
  /\ (algorithm = NUTS ->
      stats_accepted (app_stats st')
      = (stats_accepted (app_stats st) + n)%nat)
  /\ ((0 < n)%nat ->
      app_generator st' = false
      /\ List.length (app_history st')
         = Nat.min 2000 (List.length (app_history st) + n)
      /\ exists older, app_history st' = older ++ [app_current st']).
Proof.
  revert st d. induction n as [|n IH]; intros st d H Hsel; cbn zeta.
  - cbn [sample_many]. repeat split; try lia.
  - cbn [sample_many].
    destruct (sample_once_effect detailedMode algorithm params gmm st d
                                 ltac:(lia) Hsel)
      as (final & rest & Er & (used & Hused) & Hleft
          & Hc & Hh & Ht & Ha & Hn & Hg).
    rewrite Er.
    set (st1 := sample_once detailedMode algorithm params gmm st d) in *.
    assert (Hsel' : forallb selectable rest = true)
      by (rewrite Hused in Hsel; exact (forallb_suffix _ _ _ Hsel)).
    destruct (IH st1 rest ltac:(lia) Hsel') as (Ht' & Ha' & Hn' & Hpos).
    cbn zeta in Ht', Ha', Hn', Hpos.
    split; [lia|]. split; [lia|].
    split; [intros Halg; specialize (Hn Halg); specialize (Hn' Halg); lia|].
    intros _.
    assert (Hlen1 : List.length (app_history st1)
                    = Nat.min 2000 (List.length (app_history st) + 1)).
    { rewrite Hh, slice_last_length, length_app. reflexivity. }
    destruct n as [|n].
    + cbn [sample_many]. split; [exact Hg|]. split; [exact Hlen1|].
      rewrite Hh, Hc. apply slice_last_snoc.
    + destruct (Hpos ltac:(lia)) as (Hg' & Hlen' & Hlast').
      split; [exact Hg'|]. split; [|exact Hlast'].
      rewrite Hlen', Hlen1. lia.
Qed.

(** X24.  [n] samples in a row, each started where the previous one ended
    and drawing from what is left of the supply: the counter of samples
    grows by [n], the counter of accepted samples by at most [n] and, for
    NUTS, by exactly [n]; afterwards no generator is kept, the history has
    grown by [n] points up to its cap of 2000, and its last point is the
    current point of the chain. *)
Theorem chain_of_samples detailedMode algorithm params gmm n st d :
  (6 * n <= nonzero_draws d)%nat ->
  forallb selectable d = true ->
  let st' := sample_many detailedMode algorithm params gmm n st d in
  stats_total (app_stats st') = (stats_total (app_stats st) + n)%nat
  /\ (stats_accepted (app_stats st) <= stats_accepted (app_stats st')
      <= stats_accepted (app_stats st) + n)%nat
  /\ (algorithm = NUTS ->
      stats_accepted (app_stats st')
      = (stats_accepted (app_stats st) + n)%nat)
  /\ ((0 < n)%nat ->
      app_generator st' = false
      /\ List.length (app_history st')
         = Nat.min 2000 (List.length (app_history st) + n)
      /\ exists older, app_history st' = older ++ [app_current st']).
Proof. apply sample_many_effect. Qed.
End DriverProperties.

(** * The control panel *)

Section ControlProperties.
Context {T : Type} {N : Num T}.
Local Open Scope list_scope.

Lemma set_index_length {A} (arr : list A) index a :
  List.length (set_index arr index a) = List.length arr.
Proof.
  revert index. induction arr as [|b arr IH]; intros [|i]; cbn; auto.
Qed.

Lemma set_index_same {A} (arr : list A) index a :
  (index < List.length arr)%nat ->
  nth_error (set_index arr index a) index = Some a.
Proof.
  revert index. induction arr as [|b arr IH]; intros [|i] H; cbn in *;
    try lia; auto. apply IH. lia.
Qed.

Lemma set_index_other {A} (arr : list A) index a i :
  i <> index ->
  nth_error (set_index arr index a) i = nth_error arr i.
Proof.
  revert index i. induction arr as [|b arr IH]; intros [|k] [|i] H; cbn;
    try congruence; auto.
Qed.

Lemma set_index_map {A B} (f : A -> B) (arr : list A) index a b :
  nth_error arr index = Some b -> f a = f b ->
  map f (set_index arr index a) = map f arr.
Proof.
  revert index. induction arr as [|c arr IH]; intros [|i] E Hf; cbn in *;
    try discriminate.
  - injection E as ->. now rewrite Hf.
  - f_equal. now apply IH.
Qed.

Lemma set_index_Forall {A} (P : A -> Prop) (arr : list A) index a :
  Forall P arr -> P a -> Forall P (set_index arr index a).
Proof.
  intros H Ha. revert index.
  induction H as [|b arr Hb Harr IH]; intros [|i]; cbn; constructor; auto.
Qed.

(** X12.  For an index inside the array, [updateGMM] replaces that one
    component by a copy in which only the addressed number has changed:
    the first or the second coordinate of [mu] for [muX] and [muY], the
    weight for [weight].  The other components, the length of the array
    and every [sigma] and [id] stay as they were, and the field names
    [mu], [sigma] and [id] change nothing at all. *)
Theorem updateGMM_changes_one_number
    (gmmParams : list (GMMComponent T)) index field value comp :
  nth_error gmmParams index = Some comp ->
  exists newGmm comp',
    updateGMM gmmParams index field value = Updated newGmm
    /\ List.length newGmm = List.length gmmParams
    /\ nth_error newGmm index = Some comp'
    /\ (forall i, i <> index -> nth_error newGmm i = nth_error gmmParams i)
    /\ map (@sigma T) newGmm = map (@sigma T) gmmParams
    /\ map (@id T) newGmm = map (@id T) gmmParams
    /\ mu comp' = match field with
                  | field_muX => (value, snd (mu comp))
                  | field_muY => (fst (mu comp), value)
                  | _ => mu comp
                  end
    /\ weight comp' = match field with
                      | field_weight => value
                      | _ => weight comp
                      end
    /\ match field with
       | field_mu | field_sigma | field_id => newGmm = gmmParams
       | _ => True
       end.
Proof.
  intros E. unfold updateGMM. cbv zeta. rewrite E.
  assert (Hi : (index < List.length gmmParams)%nat)
    by (apply nth_error_Some; congruence).
  eexists _, _. split; [reflexivity|].
  split; [apply set_index_length|].
  split; [apply set_index_same; exact Hi|].
  split; [intros i Hne; now apply set_index_other|].
  split; [apply (set_index_map _ _ _ _ E); now destruct field|].
  split; [apply (set_index_map _ _ _ _ E); now destruct field|].
  split; [now destruct field|]. split; [now destruct field|].
  assert (Hsame : set_index gmmParams index comp = gmmParams).
  { clear Hi. revert index E.
    induction gmmParams as [|c arr IH]; intros [|i] E; cbn in *;
      try discriminate.
    - now injection E as ->.
    - f_equal. now apply IH. }
  destruct field; auto.
Qed.

(** X13.  [updateGMM] sets a new array of components exactly when the
    index is inside the array.  Outside it the fields [muX] and [muY]
    end in a [TypeError] before anything is set, and the other fields
    store an object that is no component. *)
Theorem updateGMM_succeeds_only_inside_the_array
    (gmmParams : list (GMMComponent T)) index field value :
  ((exists newGmm, updateGMM gmmParams index field value = Updated newGmm)
   <-> (index < List.length gmmParams)%nat)
  /\ (updateGMM gmmParams index field value = TypeError
      <-> (List.length gmmParams <= index)%nat
          /\ (field = field_muX \/ field = field_muY)).
Proof.
  unfold updateGMM. cbv zeta.
  destruct (nth_error gmmParams index) as [comp|] eqn:E.
  - assert (Hi : (index < List.length gmmParams)%nat)
      by (apply nth_error_Some; congruence).
    split; split; try discriminate.
    + intros _. exact Hi.
    + intros _. eexists. reflexivity.
    + intros [Hle _]. lia.
  - apply nth_error_None in E.
    split; split.
    + intros [newGmm Hu]. destruct field; discriminate.
    + lia.
    + intros Hu. split; [exact E|]. destruct field; try discriminate; auto.
    + intros [_ [-> | ->]]; reflexivity.
Qed.
End ControlProperties.

(** * The density, the acceptance test and the panels over the reals *)

Module RealProperties.
Import RealModel DensitySpec DensityFacts.
Local Open Scope R_scope.

Lemma getGradLogProb_real (p : Point R) (G : list (GMMComponent R)) :
  getGradLogProb p G
  = mkPoint
      (Rsum (fun g => gaussian_term p g * (local_gradient p g).[0]) G
       / (mixture_sum p G + 1e-20))
      (Rsum (fun g => gaussian_term p g * (local_gradient p g).[1]) G
       / (mixture_sum p G + 1e-20)).
Proof.
  unfold getGradLogProb.
  cbn [lit RealNum]. rewrite grad_accumulators_real, c_floor_real.
  cbn [fst snd add div RealNum]. f_equal; f_equal; ring.
Qed.

(** Over the reals the momentum steps of the generators are the momentum
    steps of the leapfrog scheme taken with the step size negated: the
    two differ in the sign of [epsilon * grad] and in nothing else. *)
Lemma momentum_steps_run_backwards (gmm : list (GMMComponent R))
    (epsilon : R) (q p : Point R) :
  kick gmm epsilon q p = force_kick gmm (- epsilon) q p
  /\ half_kick gmm epsilon q p = force_half_kick gmm (- epsilon) q p.
Proof.
  unfold kick, force_kick, half_kick, force_half_kick.
  cbn [add sub mul div lit RealNum].
  split; f_equal; unfold Rdiv; ring.
Qed.

Lemma ln_monotone (a b : R) : 0 < a -> a <= b -> ln a <= ln b.
Proof.
  intros Ha [Hlt | ->]; [left; now apply ln_increasing | right; reflexivity].
Qed.

Lemma Rsum_app {A} (f : A -> R) (l1 l2 : list A) :
  Rsum f (l1 ++ l2) = Rsum f l1 + Rsum f l2.
Proof.
  induction l1 as [|a l1 IH]; cbn [Rsum app]; [ring | rewrite IH; ring].
Qed.

Lemma Rsum_permutation {A} (f : A -> R) (l1 l2 : list A) :
  Permutation.Permutation l1 l2 -> Rsum f l1 = Rsum f l2.
Proof.
  induction 1; cbn [Rsum]; lra.
Qed.

(** X14.  For components with non-zero determinants and non-negative
    weights the log density never falls below [ln 1e-20], the value it has
    where the mixture vanishes, and its exponential is the mixture plus the
    floor, hence at least [1e-20]. *)
Theorem logDensity_never_below_the_floor (p : Point R)
    (G : list (GMMComponent R)) :
  Forall (fun g => det2 (sigma g) <> 0) G ->
  Forall (fun g => 0 <= weight g) G ->
  ln 1e-20 <= getLogProb p G
  /\ 1e-20 <= exp (getLogProb p G)
  /\ (mixture_sum p G = 0 -> getLogProb p G = ln 1e-20).
Proof.
  intros _ Hw. pose proof (@mixture_sum_nonneg p G Hw) as Hs.
  rewrite getLogProb_real.
  split; [apply ln_monotone; lra|].
  split; [rewrite exp_ln; lra|].
  intros ->. f_equal. lra.
Qed.

(** X15.  The order of the components does not matter: the log density
    and its gradient are the same for any rearrangement of the list. *)
Theorem density_ignores_the_order_of_components (p : Point R)
    (G G' : list (GMMComponent R)) :
  Permutation.Permutation G G' ->
  getLogProb p G = getLogProb p G'
  /\ getGradLogProb p G = getGradLogProb p G'.
Proof.
  intros HP.
  rewrite !getLogProb_real, !getGradLogProb_real. unfold mixture_sum.
  rewrite (Rsum_permutation (gaussian_term p) HP).
  rewrite (Rsum_permutation
             (fun g => gaussian_term p g * (local_gradient p g).[0]) HP).
  rewrite (Rsum_permutation
             (fun g => gaussian_term p g * (local_gradient p g).[1]) HP).
  split; reflexivity.
Qed.

(** X16.  Mixtures add up: for components with non-zero determinants and
    non-negative weights the density of the concatenation of two component
    lists is the sum of their densities, the floor [1e-20] being counted
    once. *)
Theorem density_of_joined_mixtures (p : Point R)
    (G1 G2 : list (GMMComponent R)) :
  Forall (fun g => det2 (sigma g) <> 0) (G1 ++ G2) ->
  Forall (fun g => 0 <= weight g) G1 ->
  Forall (fun g => 0 <= weight g) G2 ->
  exp (getLogProb p (G1 ++ G2))
  = exp (getLogProb p G1) + exp (getLogProb p G2) - 1e-20.
Proof.
  intros _ H1 H2.
  pose proof (@mixture_sum_nonneg p G1 H1).
  pose proof (@mixture_sum_nonneg p G2 H2).
  assert (H12 : mixture_sum p (G1 ++ G2) = mixture_sum p G1 + mixture_sum p G2)
    by apply Rsum_app.
  rewrite !getLogProb_real, !exp_ln, H12 by lra. lra.
Qed.

(** X26.  A single component with a symmetric, positive definite [sigma]
    and a non-negative weight has its mode at its mean: the log density is
    nowhere higher than at [mu], and the gradient computed there is
    [(0, 0)]. *)
Theorem single_component_peaks_at_its_mean (g : GMMComponent R)
    (p : Point R) :
  0 <= weight g ->
  (sigma g).[0].[1] = (sigma g).[1].[0] ->
  0 < (sigma g).[0].[0] ->
  0 < det2 (sigma g) ->
  let mean := mkPoint (mu g).[0] (mu g).[1] in
  getLogProb p [g] <= getLogProb mean [g]
  /\ getGradLogProb mean [g] = mkPoint 0 0.
Proof.
  intros Hw Hsym Hpos Hdet mean.
  assert (Hmean : mahalanobis mean g = 0).
  { unfold mahalanobis, dot2, mat_vec, displacement, mean.
    cbn [fst snd x y]. ring. }
  assert (Hm : 0 <= mahalanobis p g).
  { unfold mahalanobis, dot2, mat_vec, displacement, inverse2, scale,
      adjugate.
    destruct (sigma g) as [[s00 s01] [s10 s11]].
    unfold det2 in *. cbn [fst snd] in *. subst s10.
    set (a := x p - (mu g).[0]). set (b := y p - (mu g).[1]).
    set (det := s00 * s11 - s01 * s01) in *.
    replace (a * (1 / det * s11 * a + 1 / det * - s01 * b)
             + b * (1 / det * - s01 * a + 1 / det * s00 * b))
      with (((s00 * b - s01 * a) * (s00 * b - s01 * a) + det * (a * a))
            / (s00 * det))
      by (unfold det; field; split; [fold det|]; lra).
    apply Rmult_le_pos.
    - pose proof (Rle_0_sqr (s00 * b - s01 * a)) as H1.
      pose proof (Rle_0_sqr a) as H2. unfold Rsqr in H1, H2. nra.
    - left. apply Rinv_0_lt_compat. nra. }
  split.
  - rewrite !getLogProb_real. unfold mixture_sum. cbn [Rsum].
    assert (Hk : 0 <= weight g * (1 / (2 * PI * sqrt (Rabs (det2 (sigma g)))))).
    { pose proof (@gaussian_term_nonneg mean g Hw) as Hg.
      unfold gaussian_term in Hg. rewrite Hmean in Hg.
      replace (-0.5 * 0) with 0 in Hg by lra. rewrite exp_0 in Hg. lra. }
    assert (He : exp (-0.5 * mahalanobis p g) <= 1).
    { destruct Hm as [Hlt | <-].
      - left. rewrite <- exp_0. apply exp_increasing. lra.
      - right. replace (-0.5 * 0) with 0 by lra. apply exp_0. }
    pose proof (@gaussian_term_nonneg p g Hw) as Hp.
    unfold gaussian_term in *. rewrite Hmean.
    replace (-0.5 * 0) with 0 by lra. rewrite exp_0.
    apply ln_monotone; nra.
  - rewrite getGradLogProb_real. cbn [Rsum].
    unfold local_gradient, mat_vec, displacement, mean. cbn [fst snd x y].
    f_equal; unfold Rdiv; ring.
Qed.

(** ** The gradient as a derivative *)

Lemma derivable_pt_lim_ext (f g : R -> R) (a l : R) :
  (forall t, f t = g t) ->
  derivable_pt_lim f a l -> derivable_pt_lim g a l.
Proof.
  intros Hfg Hf eps Heps. destruct (Hf eps Heps) as [delta Hd].
  exists delta. intros h Hh Hlt. rewrite <- !Hfg. now apply Hd.
Qed.

Lemma quadratic_derivative (a b c t0 : R) :
  derivable_pt_lim (fun t => a * t * t + b * t + c) t0 (2 * a * t0 + b).
Proof.
  intros eps Heps.
  assert (Hpos : 0 < Rabs a + 1) by (pose proof (Rabs_pos a); lra).
  assert (Hd : 0 < eps / (Rabs a + 1)) by now apply Rdiv_lt_0_compat.
  exists (mkposreal _ Hd). intros h Hh Hlt. cbn [pos] in Hlt.
  replace ((a * (t0 + h) * (t0 + h) + b * (t0 + h) + c
            - (a * t0 * t0 + b * t0 + c)) / h - (2 * a * t0 + b))
    with (a * h) by (field; exact Hh).
  rewrite Rabs_mult.
  apply (Rmult_lt_compat_r (Rabs a + 1)) in Hlt; [|exact Hpos].
  replace (eps / (Rabs a + 1) * (Rabs a + 1)) with eps in Hlt
    by (field; lra).
  pose proof (Rabs_pos a). pose proof (Rabs_pos h). nra.
Qed.

(** One Gaussian term along a line parallel to an axis: [k exp (-0.5 q)]
    with [q] a quadratic. *)
Lemma gaussian_line_derivative (k a b c t0 : R) :
  derivable_pt_lim (fun t => k * exp (-0.5 * (a * t * t + b * t + c))) t0
    (k * (exp (-0.5 * (a * t0 * t0 + b * t0 + c))
          * (-0.5 * (2 * a * t0 + b)))).
Proof.
  apply (derivable_pt_lim_scal
           (fun t => exp (-0.5 * (a * t * t + b * t + c))) k).
  apply (derivable_pt_lim_comp
           (fun t => -0.5 * (a * t * t + b * t + c)) exp).
  - apply (derivable_pt_lim_scal (fun t => a * t * t + b * t + c) (-0.5)).
    apply quadratic_derivative.
  - apply derivable_pt_lim_exp.
Qed.

Lemma Rsum_derivative {A} (f : A -> R -> R) (f' : A -> R) (t0 : R)
    (l : list A) :
  Forall (fun a => derivable_pt_lim (f a) t0 (f' a)) l ->
  derivable_pt_lim (fun t => Rsum (fun a => f a t) l) t0 (Rsum f' l).
Proof.
  induction 1 as [|a l Ha _ IH]; cbn [Rsum].
  - apply (derivable_pt_lim_const 0).
  - apply (derivable_pt_lim_plus (f a) (fun t => Rsum (fun a => f a t) l));
      assumption.
Qed.

Lemma log_of_sum_derivative (S : R -> R) (S' t0 : R) :
  derivable_pt_lim S t0 S' -> 0 < S t0 + 1e-20 ->
  derivable_pt_lim (fun t => ln (S t + 1e-20)) t0 (S' / (S t0 + 1e-20)).
Proof.
  intros HS Hpos.
  replace (S' / (S t0 + 1e-20)) with (/ (S t0 + 1e-20) * (S' + 0))
    by (field; lra).
  apply (derivable_pt_lim_comp (fun t => S t + 1e-20) ln).
  - apply (derivable_pt_lim_plus S (fun _ => 1e-20)); [exact HS|].
    apply (derivable_pt_lim_const 1e-20).
  - now apply derivable_pt_lim_ln.
Qed.

Lemma gaussian_term_dx (p : Point R) (g : GMMComponent R) :
  (sigma g).[0].[1] = (sigma g).[1].[0] ->
  derivable_pt_lim (fun t => gaussian_term (mkPoint t (y p)) g) (x p)
    (gaussian_term p g * (local_gradient p g).[0]).
Proof.
  intros Hsym.
  assert (HM : (inverse2 (sigma g)).[0].[1] = (inverse2 (sigma g)).[1].[0]).
  { unfold inverse2, scale, adjugate. cbn [fst snd]. now rewrite Hsym. }
  unfold gaussian_term, local_gradient, mahalanobis, dot2, mat_vec,
    displacement.
  set (M := inverse2 (sigma g)) in *.
  set (k := weight g * (1 / (2 * PI * sqrt (Rabs (det2 (sigma g)))))).
  destruct M as [[m00 m01] [m10 m11]]. cbn [fst snd x y] in *. subst m10.
  destruct (mu g) as [mu0 mu1]. cbn [fst snd].
  set (d1 := y p - mu1).
  eapply derivable_pt_lim_ext;
    [|replace (k * exp (-0.5 * ((x p - mu0) * (m00 * (x p - mu0) + m01 * d1)
                                + d1 * (m01 * (x p - mu0) + m11 * d1)))
               * - (m00 * (x p - mu0) + m01 * d1))
        with (k * (exp (-0.5 * (m00 * x p * x p
                                + (2 * m01 * d1 - 2 * m00 * mu0) * x p
                                + (m00 * mu0 * mu0 - 2 * m01 * d1 * mu0
                                   + m11 * d1 * d1)))
                   * (-0.5 * (2 * m00 * x p
                              + (2 * m01 * d1 - 2 * m00 * mu0)))));
      [apply gaussian_line_derivative|]].
  - intros t. cbv beta. f_equal. f_equal. f_equal. ring.
  - replace (m00 * x p * x p + (2 * m01 * d1 - 2 * m00 * mu0) * x p
             + (m00 * mu0 * mu0 - 2 * m01 * d1 * mu0 + m11 * d1 * d1))
      with ((x p - mu0) * (m00 * (x p - mu0) + m01 * d1)
            + d1 * (m01 * (x p - mu0) + m11 * d1)) by ring.
    set (E := exp _).
    replace (-0.5 * (2 * m00 * x p + (2 * m01 * d1 - 2 * m00 * mu0)))
      with (- (m00 * (x p - mu0) + m01 * d1)) by lra.
    ring.
Qed.

Lemma gaussian_term_dy (p : Point R) (g : GMMComponent R) :
  (sigma g).[0].[1] = (sigma g).[1].[0] ->
  derivable_pt_lim (fun t => gaussian_term (mkPoint (x p) t) g) (y p)
    (gaussian_term p g * (local_gradient p g).[1]).
Proof.
  intros Hsym.
  assert (HM : (inverse2 (sigma g)).[0].[1] = (inverse2 (sigma g)).[1].[0]).
  { unfold inverse2, scale, adjugate. cbn [fst snd]. now rewrite Hsym. }
  unfold gaussian_term, local_gradient, mahalanobis, dot2, mat_vec,
    displacement.
  set (M := inverse2 (sigma g)) in *.
  set (k := weight g * (1 / (2 * PI * sqrt (Rabs (det2 (sigma g)))))).
  destruct M as [[m00 m01] [m10 m11]]. cbn [fst snd x y] in *. subst m10.
  destruct (mu g) as [mu0 mu1]. cbn [fst snd].
  set (d0 := x p - mu0).
  eapply derivable_pt_lim_ext;
    [|replace (k * exp (-0.5 * (d0 * (m00 * d0 + m01 * (y p - mu1))
                                + (y p - mu1)
                                  * (m01 * d0 + m11 * (y p - mu1))))
               * - (m01 * d0 + m11 * (y p - mu1)))
        with (k * (exp (-0.5 * (m11 * y p * y p
                                + (2 * m01 * d0 - 2 * m11 * mu1) * y p
                                + (m11 * mu1 * mu1 - 2 * m01 * d0 * mu1
                                   + m00 * d0 * d0)))
                   * (-0.5 * (2 * m11 * y p
                              + (2 * m01 * d0 - 2 * m11 * mu1)))));
      [apply gaussian_line_derivative|]].
  - intros t. cbv beta. f_equal. f_equal. f_equal. ring.
  - replace (m11 * y p * y p + (2 * m01 * d0 - 2 * m11 * mu1) * y p
             + (m11 * mu1 * mu1 - 2 * m01 * d0 * mu1 + m00 * d0 * d0))
      with (d0 * (m00 * d0 + m01 * (y p - mu1))
            + (y p - mu1) * (m01 * d0 + m11 * (y p - mu1))) by ring.
    set (E := exp _).
    replace (-0.5 * (2 * m11 * y p + (2 * m01 * d0 - 2 * m11 * mu1)))
      with (- (m01 * d0 + m11 * (y p - mu1))) by lra.
    ring.
Qed.

(** X17.  [getGradLogProb] is the gradient of [getLogProb]: for components
    with non-zero determinants, non-negative weights and symmetric
    [sigma], its [x] is the derivative of the log density along the [x]
    axis and its [y] the derivative along the [y] axis, at every point. *)
Theorem gradient_is_the_derivative_of_the_log_density (p : Point R)
    (G : list (GMMComponent R)) :
  Forall (fun g => det2 (sigma g) <> 0) G ->
  Forall (fun g => 0 <= weight g) G ->
  Forall (fun g => (sigma g).[0].[1] = (sigma g).[1].[0]) G ->
  derivable_pt_lim (fun t => getLogProb (mkPoint t (y p)) G) (x p)
                   (x (getGradLogProb p G))
  /\ derivable_pt_lim (fun t => getLogProb (mkPoint (x p) t) G) (y p)
                      (y (getGradLogProb p G)).
Proof.
  intros _ Hw Hsym.
  pose proof (@mixture_sum_nonneg p G Hw) as Hs.
  rewrite getGradLogProb_real. cbn [x y].
  split.
  - apply (@derivable_pt_lim_ext
             (fun t => ln (mixture_sum (mkPoint t (y p)) G + 1e-20)) _ _ _);
      [intros t; symmetry; apply getLogProb_real|].
    replace (mixture_sum p G) with (mixture_sum (mkPoint (x p) (y p)) G)
      by now destruct p.
    apply (@log_of_sum_derivative
             (fun t => mixture_sum (mkPoint t (y p)) G) _ _);
      [|destruct p as [px py]; cbn [x y] in *; lra].
    unfold mixture_sum.
    apply (@Rsum_derivative _
             (fun g t => gaussian_term (mkPoint t (y p)) g) _ _ _).
    eapply Forall_impl; [|exact Hsym]. intros g. apply gaussian_term_dx.
  - apply (@derivable_pt_lim_ext
             (fun t => ln (mixture_sum (mkPoint (x p) t) G + 1e-20)) _ _ _);
      [intros t; symmetry; apply getLogProb_real|].
    replace (mixture_sum p G) with (mixture_sum (mkPoint (x p) (y p)) G)
      by now destruct p.
    apply (@log_of_sum_derivative
             (fun t => mixture_sum (mkPoint (x p) t) G) _ _);
      [|destruct p as [px py]; cbn [x y] in *; lra].
    unfold mixture_sum.
    apply (@Rsum_derivative _
             (fun g t => gaussian_term (mkPoint (x p) t) g) _ _ _).
    eapply Forall_impl; [|exact Hsym]. intros g. apply gaussian_term_dy.
Qed.

(** ** The acceptance test *)

Lemma metropolis_rule (delta dice : R) :
  0 <= dice < 1 ->
  0 < Rmin 1 (exp delta) <= 1
  /\ (0 <= delta -> Rmin 1 (exp delta) = 1)
  /\ (0 <= delta -> ltb dice (Rmin 1 (exp delta)) = true)
  /\ (ltb dice (Rmin 1 (exp delta)) = false -> delta < 0).
Proof.
  intros [H0 H1].
  pose proof (exp_pos delta) as Hexp.
  assert (Hup : 0 <= delta -> 1 <= exp delta).
  { intros [Hd | <-]; [|rewrite exp_0; lra].
    pose proof (exp_increasing 0 delta Hd) as Hi. rewrite exp_0 in Hi. lra. }
  split; [split; [apply Rmin_glb_lt; lra | apply Rmin_l]|].
  split; [intros Hd; apply Rmin_left; auto|].
  assert (Hacc : 0 <= delta -> ltb dice (Rmin 1 (exp delta)) = true).
  { intros Hd. rewrite Rmin_left by auto. unfold ltb.
    destruct (Rlt_dec dice 1); [reflexivity | lra]. }
  split; [exact Hacc|].
  intros Hrej. destruct (Rlt_le_dec delta 0) as [Hlt | Hge]; [exact Hlt|].
  rewrite (Hacc Hge) in Hrej. discriminate.
Qed.

Lemma draw_in_unit (d z : list R) (dice : R) (rest : list R) :
  Forall (fun u => 0 <= u < 1) d -> d = z ++ dice :: rest -> 0 <= dice < 1.
Proof.
  intros Hall ->. rewrite Forall_forall in Hall. apply Hall.
  apply in_or_app. right. now left.
Qed.

(** X18.  The Metropolis test over the reals, with draws in [[0, 1)] and
    components with non-zero determinants and non-negative weights: the
    acceptance probability lies in [(0, 1]]; an MH candidate whose log
    density is not below that of the current point is always accepted, and
    a rejected candidate has a strictly lower one; an HMC trajectory whose
    final energy does not exceed the initial energy is always accepted,
    and a rejected one has strictly gained energy. *)
Theorem metropolis_test_over_the_reals (start : Point R)
    (params : SimulationParams R) (gmm : list (GMMComponent R))
    (d : list R) :
  Forall (fun g => det2 (sigma g) <> 0) gmm ->
  Forall (fun g => 0 <= weight g) gmm ->
  (5 <= nonzero_draws d)%nat ->
  Forall (fun u => 0 <= u < 1) d ->
  (exists r1 r2 r3 final rest candidate alpha,
      mhGenerator start params gmm d = ([r1; r2; r3], Some (final, rest))
      /\ proposal r3 = Some candidate
      /\ acceptanceProb (details r3) = Some alpha
      /\ 0 < alpha <= 1
      /\ (getLogProb start gmm <= getLogProb candidate gmm ->
          alpha = 1 /\ accepted r3 = Some true /\ current r3 = candidate)
      /\ (accepted r3 = Some false ->
          getLogProb candidate gmm < getLogProb start gmm
          /\ current r3 = start))
  /\ (exists r1 leap r3 final rest H0 H1,
      hmcGenerator start params gmm d = (r1 :: leap ++ [r3], Some (final, rest))
      /\ currentH (details r1) = Some H0
      /\ proposedH (details r3) = Some H1
      /\ (H1 <= H0 -> accepted r3 = Some true)
      /\ (accepted r3 = Some false -> H0 < H1 /\ current r3 = start)).
Proof.
  intros _ _ H Hunit.
  destruct (two_normals_one_draw d)
    as (z1 & u_x & z2 & v_x & z3 & u_y & z4 & v_y & dice & rest
        & Hd & _ & _ & _ & _ & E1 & E2); [lia|].
  assert (Hdice : 0 <= dice < 1).
  { apply (@draw_in_unit d (z1 ++ u_x :: z2 ++ v_x :: z3 ++ u_y :: z4 ++ [v_y])
                         dice rest Hunit).
    rewrite Hd. repeat (rewrite <- app_assoc; cbn [app]). reflexivity. }
  split.
  - destruct (@mh_run _ _ start params gmm _ _ _ _ _ _ _ E1 E2 eq_refl)
      as (r1 & r2 & r3 & final & E & _ & _
          & (C3 & P3 & A3 & _ & _ & Al3) & _).
    set (candidate := mkPoint _ _) in *.
    exists r1, r2, r3, final, rest, candidate,
           (acceptance gmm start candidate).
    change (acceptance gmm start candidate)
      with (Rmin 1 (exp (getLogProb candidate gmm - getLogProb start gmm)))
      in *.
    change (@lt R RealNum) with ltb in *.
    destruct (@metropolis_rule
                (getLogProb candidate gmm - getLogProb start gmm) dice Hdice)
      as (Hrange & Hone & Hacc & Hrej).
    split; [exact E|]. split; [exact P3|]. split; [exact Al3|].
    split; [exact Hrange|]. split.
    + intros Hup. rewrite C3, A3, Hacc by lra.
      split; [apply Hone; lra|]. split; reflexivity.
    + rewrite C3, A3. intros Hf.
      assert (Hf' : ltb dice (Rmin 1 (exp (getLogProb candidate gmm
                                           - getLogProb start gmm))) = false)
        by congruence.
      rewrite Hf'. split; [|reflexivity]. apply Hrej in Hf'. lra.
  - destruct (@hmc_run _ _ start params gmm _ _ _ _ _ _ _ E1 E2 eq_refl)
      as (r1 & leap & r3 & final & E & (_ & _ & _ & _ & Hc1) & _ & _
          & (C3 & A3 & _ & _ & _ & Hp3 & _) & _).
    set (H0 := hamiltonian gmm start _) in *.
    set (traj := leapfrog_trajectory gmm _ _ start _) in *.
    set (H1 := hamiltonian gmm (fst (snd traj)) (snd (snd traj))) in *.
    exists r1, leap, r3, final, rest, H0, H1.
    split; [exact E|]. split; [exact Hc1|]. split; [exact Hp3|].
    change (Math_min (lit 1) (Math_exp (sub H0 H1)))
      with (Rmin 1 (exp (H0 - H1))) in *.
    change (@lt R RealNum) with ltb in *.
    destruct (@metropolis_rule (H0 - H1) dice Hdice)
      as (_ & _ & Hacc & Hrej).
    split.
    + intros Hle. rewrite A3, Hacc by lra. reflexivity.
    + rewrite C3, A3. intros Hf.
      assert (Hf' : ltb dice (Rmin 1 (exp (H0 - H1))) = false) by congruence.
      rewrite Hf'. split; [|reflexivity]. apply Hrej in Hf'. lra.
Qed.

(** X23.  The slice test of NUTS over the reals, for a slice draw
    [0 < u]: a pass is a candidate exactly when [u <= exp (H0 - H)], [H]
    being its energy and [H0] the starting energy.  Hence, [u] being at
    most 1, a pass that has not gained energy is always a candidate, and
    so would be the starting point, which the generator puts among the
    candidates without the test. *)
Theorem slice_test_over_the_reals (gmm : list (GMMComponent R))
    (epsilon startH u : R) (st : @Tree R) :
  0 < u ->
  (pass_in_slice gmm epsilon (ln u - startH) st = true
   <-> u <= exp (startH - tree_energy gmm epsilon st))
  /\ (u <= 1 -> tree_energy gmm epsilon st <= startH ->
      pass_in_slice gmm epsilon (ln u - startH) st = true)
  /\ (u <= 1 -> geb (- startH) (ln u - startH) = true).
Proof.
  intros Hu. unfold pass_in_slice.
  change (@ge R RealNum) with geb. change (@neg R RealNum) with Ropp.
  change (pass_energy gmm epsilon st) with (tree_energy gmm epsilon st).
  set (H := tree_energy gmm epsilon st).
  assert (Hiff : forall a, ln u <= a <-> u <= exp a).
  { intros a. split; intros Ha.
    - rewrite <- (exp_ln u Hu). destruct Ha as [Ha | ->].
      + left. now apply exp_increasing.
      + right. reflexivity.
    - rewrite <- (ln_exp a). apply ln_monotone; assumption. }
  assert (Hone : u <= 1 -> ln u <= 0).
  { intros H1. rewrite <- ln_1. apply ln_monotone; assumption. }
  assert (Hgeb : forall a, geb (- a) (ln u - startH) = true
                           <-> ln u <= startH - a).
  { intros a. unfold geb.
    destruct (Rge_dec (- a) (ln u - startH)); split; intros;
      try reflexivity; try discriminate; lra. }
  split; [rewrite Hgeb; apply Hiff|].
  split.
  - intros H1 HE. apply Hgeb. specialize (Hone H1). lra.
  - intros H1. apply Hgeb. specialize (Hone H1). lra.
Qed.

(** ** The control panel and the heat map *)

(** X19.  The control panel cannot make a valid mixture invalid: whatever
    slider is moved, to a non-negative value, every covariance keeps its
    non-zero determinant and every weight stays non-negative, so that the
    log density of the new mixture is bounded below as before. *)
Theorem updateGMM_keeps_the_mixture_valid (gmmParams : list (GMMComponent R))
    index field (value : R) newGmm :
  Forall (fun g => det2 (sigma g) <> 0) gmmParams ->
  Forall (fun g => 0 <= weight g) gmmParams ->
  0 <= value ->
  updateGMM gmmParams index field value = Updated newGmm ->
  Forall (fun g => det2 (sigma g) <> 0) newGmm
  /\ Forall (fun g => 0 <= weight g) newGmm
  /\ forall p, ln 1e-20 <= getLogProb p newGmm.
Proof.
  intros Hdet Hw Hv Hu.
  assert (Hnew : Forall (fun g => det2 (sigma g) <> 0) newGmm
                 /\ Forall (fun g => 0 <= weight g) newGmm).
  { unfold updateGMM in Hu. cbv zeta in Hu.
    destruct (nth_error gmmParams index) as [comp|] eqn:E;
      [|destruct field; discriminate].
    injection Hu as <-.
    pose proof (nth_error_In _ _ E) as Hin.
    rewrite Forall_forall in Hdet, Hw.
    pose proof (Hdet _ Hin) as Hd1. pose proof (Hw _ Hin) as Hw1.
    split; apply set_index_Forall; try (apply Forall_forall; assumption);
      destruct field; cbn [sigma weight]; assumption. }
  destruct Hnew as [Hd' Hw']. split; [exact Hd'|]. split; [exact Hw'|].
  intros p. pose proof (@mixture_sum_nonneg p newGmm Hw').
  rewrite getLogProb_real. apply ln_monotone; lra.
Qed.

(** X20.  The acceptance rate shown is ['0.0'] while no sample has been
    counted, without any division; afterwards it is the number
    [accepted / total * 100], printed with one decimal, which lies between
    0 and 100 as long as the counter of accepted samples does not exceed
    the counter of all samples. *)
Theorem acceptanceRate_is_a_percentage (stats : Stats) :
  (stats_accepted stats <= stats_total stats)%nat ->
  (stats_total stats = 0%nat /\ @acceptanceRate R _ stats = Txt "0.0")
  \/ ((0 < stats_total stats)%nat
      /\ exists v,
           @acceptanceRate R _ stats = Fixed v 1
           /\ 0 <= v <= 100
           /\ v * INR (stats_total stats) = 100 * INR (stats_accepted stats)).
Proof.
  intros Hle. unfold acceptanceRate.
  destruct (Nat.ltb_spec 0 (stats_total stats)) as [Hpos | Hzero].
  - right. split; [exact Hpos|]. eexists. split; [reflexivity|].
    cbn [of_length lit mul div RealNum].
    pose proof (lt_0_INR _ Hpos) as Ht.
    pose proof (le_INR _ _ Hle) as Ha.
    pose proof (pos_INR (stats_accepted stats)) as Ha0.
    set (a := INR (stats_accepted stats)) in *.
    set (t := INR (stats_total stats)) in *.
    assert (Hq : 0 <= a / t <= 1).
    { split.
      - apply Rmult_le_pos; [exact Ha0|]. left. now apply Rinv_0_lt_compat.
      - apply (Rmult_le_reg_r t); [exact Ht|].
        replace (a / t * t) with a by (field; lra). lra. }
    split; [lra|]. field. lra.
  - left. split; [lia | reflexivity].
Qed.

Lemma nth_error_flat_map_uniform {A B} (f : A -> list B) (k : nat)
    (l : list A) i j a :
  (forall c, List.length (f c) = k) ->
  nth_error l i = Some a -> (j < k)%nat ->
  nth_error (flat_map f l) (k * i + j) = nth_error (f a) j.
Proof.
  intros Hk. revert i.
  induction l as [|c l IH]; intros [|i] E Hj; try discriminate;
    cbn [flat_map].
  - injection E as ->. rewrite Nat.mul_0_r, Nat.add_0_l.
    apply nth_error_app1. now rewrite Hk.
  - rewrite nth_error_app2 by (rewrite Hk; lia).
    rewrite Hk. replace (k * S i + j - k)%nat with (k * i + j)%nat by lia.
    now apply IH.
Qed.

(** X21.  The heat map samples the density on a grid of 50 by 50 points,
    column by column: entry [50 i + j] lies at
    [(-6 + 12 i / 50, -6 + 12 j / 50)], so that the grid starts at
    [(-6, -6)] and stays below 6 on both axes, and its value is the
    mixture density at that point plus the floor [1e-20], hence positive
    (for components with non-zero determinants and non-negative
    weights). *)
Theorem densityData_covers_the_domain (gmmParams : list (GMMComponent R)) :
  Forall (fun g => det2 (sigma g) <> 0) gmmParams ->
  Forall (fun g => 0 <= weight g) gmmParams ->
  List.length (densityData gmmParams) = 2500%nat
  /\ forall i j, (i < 50)%nat -> (j < 50)%nat ->
       let px := -6 + 12 * INR i / 50 in
       let py := -6 + 12 * INR j / 50 in
       nth_error (densityData gmmParams) (50 * i + j)
       = Some (px, py, mixture_sum (mkPoint px py) gmmParams + 1e-20)
       /\ -6 <= px < 6 /\ -6 <= py < 6
       /\ 0 < mixture_sum (mkPoint px py) gmmParams + 1e-20.
Proof.
  intros _ Hw. unfold densityData. split.
  - rewrite (@flat_map_constant_length _ _ 50).
    + rewrite length_seq. reflexivity.
    + intros i _. rewrite length_map, length_seq. reflexivity.
  - intros i j Hi Hj.
    set (px := -6 + 12 * INR i / 50). set (py := -6 + 12 * INR j / 50).
    assert (Hr : INR resolution = 50).
    { unfold resolution. rewrite INR_IZR_INZ. reflexivity. }
    assert (Hcoord : forall n,
               fst (@domainX R _)
               + (INR n / INR resolution)
                 * (snd (@domainX R _) - fst (@domainX R _))
               = -6 + 12 * INR n / 50).
    { intros n. rewrite Hr. unfold domainX. cbn [fst snd lit neg RealNum].
      field. }
    rewrite (@nth_error_flat_map_uniform _ _ _ 50 _ i j i).
    + rewrite nth_error_map, nth_error_seq.
      destruct (Nat.ltb_spec j resolution) as [_|Hge];
        [|unfold resolution in Hge; lia].
      cbn [option_map Nat.add]. unfold density_sample.
      cbn [add sub mul div of_length Math_exp RealNum].
      change (@domainY R _) with (@domainX R _).
      rewrite !Hcoord. fold px py.
      pose proof (@mixture_sum_nonneg (mkPoint px py) gmmParams Hw) as Hs.
      rewrite getLogProb_real, exp_ln by lra.
      split; [reflexivity|].
      pose proof (pos_INR i). pose proof (pos_INR j).
      pose proof (lt_INR _ _ Hi) as Hi'. pose proof (lt_INR _ _ Hj) as Hj'.
      rewrite (INR_IZR_INZ 50) in Hi', Hj'.
      change (IZR (Z.of_nat 50)) with 50 in Hi', Hj'.
      split; [unfold px; lra|]. split; [unfold py; lra|]. lra.
    + intros c. rewrite length_map, length_seq. reflexivity.
    + rewrite nth_error_seq.
      destruct (Nat.ltb_spec i resolution) as [_|Hge];
        [reflexivity|unfold resolution in Hge; lia].
    + exact Hj.
Qed.

(** X25.  Over the reals, with draws in [[0, 1)], the acceptance rate
    shown after any positive number of NUTS samples since the last reset is
    [100.0]: every NUTS sample is counted as accepted, whether the chain
    has moved or not. *)
Theorem nuts_acceptance_rate_is_always_full detailedMode
    (params : SimulationParams R) (gmm : list (GMMComponent R)) n
    (d : list R) :
  (0 < n)%nat ->
  (6 * n <= nonzero_draws d)%nat ->
  Forall (fun u => 0 <= u < 1) d ->
  exists v,
    acceptanceRate
      (app_stats (sample_many detailedMode NUTS params gmm n handleReset d))
    = Fixed v 1
    /\ v = 100.
Proof.
  intros Hn H Hunit.
  assert (Hsel : forallb selectable d = true).
  { apply forallb_forall. intros u Hu. apply unit_draw_selectable.
    rewrite Forall_forall in Hunit. now apply Hunit. }
  destruct (@sample_many_effect R _ detailedMode NUTS params gmm n
                                handleReset d H Hsel)
    as (Ht & _ & Ha & _).
  specialize (Ha eq_refl).
  cbn [handleReset app_stats stats_total stats_accepted Nat.add] in Ht, Ha.
  unfold acceptanceRate. rewrite Ht, Ha.
  destruct (Nat.ltb_spec 0 n) as [_|Hz]; [|lia].
  eexists. split; [reflexivity|].
  cbn [of_length lit mul div RealNum].
  pose proof (lt_0_INR _ Hn). field. lra.
Qed.

(** ** The theorems over the reals at the default mixture *)

Import RealScenario.

Lemma DEFAULT_GMM_symmetric :
  Forall (fun g : GMMComponent R => (sigma g).[0].[1] = (sigma g).[1].[0])
         DEFAULT_GMM.
Proof. unfold DEFAULT_GMM. repeat constructor. Qed.

Lemma unit_draws_suffice :
  (6 <= nonzero_draws unit_draws)%nat
  /\ Forall (fun u => 0 <= u < 1) unit_draws.
Proof.
  split.
  - unfold nonzero_draws, unit_draws.
    cbn [filter strict_eq lit RealNum]. unfold eqb.
    repeat (destruct (Req_dec_T _ 0) as [Heq|_]; [lra|]; cbn [negb filter]).
    cbn [List.length]. lia.
  - unfold unit_draws. repeat constructor; lra.
Qed.

Lemma logDensity_never_below_the_floor_witness :
  Forall (fun g : GMMComponent R => det2 (sigma g) <> 0) DEFAULT_GMM
  /\ Forall (fun g : GMMComponent R => 0 <= weight g) DEFAULT_GMM
  /\ ln 1e-20 <= getLogProb real_origin DEFAULT_GMM.
Proof.
  split; [exact DEFAULT_GMM_invertible|].
  split; [exact DEFAULT_GMM_weights|].
  exact (proj1 (logDensity_never_below_the_floor real_origin
                  DEFAULT_GMM_invertible DEFAULT_GMM_weights)).
Defined.

Lemma density_ignores_the_order_of_components_witness :
  Permutation.Permutation (@DEFAULT_GMM R _) (rev DEFAULT_GMM)
  /\ getLogProb real_origin DEFAULT_GMM
     = getLogProb real_origin (rev DEFAULT_GMM).
Proof.
  split; [apply Permutation.Permutation_rev|].
  exact (proj1 (density_ignores_the_order_of_components real_origin
                  (Permutation.Permutation_rev DEFAULT_GMM))).
Defined.

Lemma density_of_joined_mixtures_witness :
  Forall (fun g : GMMComponent R => det2 (sigma g) <> 0)
         (DEFAULT_GMM ++ DEFAULT_GMM)
  /\ Forall (fun g : GMMComponent R => 0 <= weight g) DEFAULT_GMM
  /\ exp (getLogProb real_origin (DEFAULT_GMM ++ DEFAULT_GMM))
     = exp (getLogProb real_origin DEFAULT_GMM)
       + exp (getLogProb real_origin DEFAULT_GMM) - 1e-20.
Proof.
  assert (Hdet : Forall (fun g : GMMComponent R => det2 (sigma g) <> 0)
                        (DEFAULT_GMM ++ DEFAULT_GMM))
    by (apply Forall_app; split; exact DEFAULT_GMM_invertible).
  split; [exact Hdet|].
  split; [exact DEFAULT_GMM_weights|].
  exact (@density_of_joined_mixtures real_origin DEFAULT_GMM DEFAULT_GMM
           Hdet DEFAULT_GMM_weights DEFAULT_GMM_weights).
Defined.

Lemma gradient_is_the_derivative_of_the_log_density_witness :
  Forall (fun g : GMMComponent R => det2 (sigma g) <> 0) DEFAULT_GMM
  /\ Forall (fun g : GMMComponent R => 0 <= weight g) DEFAULT_GMM
  /\ Forall (fun g : GMMComponent R => (sigma g).[0].[1] = (sigma g).[1].[0])
            DEFAULT_GMM
  /\ derivable_pt_lim (fun t => getLogProb (mkPoint t 0) DEFAULT_GMM) 0
                      (x (getGradLogProb real_origin DEFAULT_GMM)).
Proof.
  split; [exact DEFAULT_GMM_invertible|].
  split; [exact DEFAULT_GMM_weights|].
  split; [exact DEFAULT_GMM_symmetric|].
  exact (proj1 (gradient_is_the_derivative_of_the_log_density real_origin
                  DEFAULT_GMM_invertible DEFAULT_GMM_weights
                  DEFAULT_GMM_symmetric)).
Defined.

Lemma metropolis_test_over_the_reals_witness :
  Forall (fun g : GMMComponent R => det2 (sigma g) <> 0) DEFAULT_GMM
  /\ Forall (fun g : GMMComponent R => 0 <= weight g) DEFAULT_GMM
  /\ (5 <= nonzero_draws unit_draws)%nat
  /\ Forall (fun u => 0 <= u < 1) unit_draws
  /\ exists r1 r2 r3 final rest alpha,
       mhGenerator real_origin real_params DEFAULT_GMM unit_draws
       = ([r1; r2; r3], Some (final, rest))
       /\ acceptanceProb (details r3) = Some alpha
       /\ 0 < alpha <= 1.
Proof.
  destruct unit_draws_suffice as [H6 Hunit].
  assert (H : (5 <= nonzero_draws unit_draws)%nat) by lia.
  split; [exact DEFAULT_GMM_invertible|].
  split; [exact DEFAULT_GMM_weights|].
  split; [exact H|]. split; [exact Hunit|].
  destruct (@metropolis_test_over_the_reals real_origin real_params
              DEFAULT_GMM unit_draws DEFAULT_GMM_invertible
              DEFAULT_GMM_weights H Hunit)
    as [(r1 & r2 & r3 & final & rest & candidate & alpha
         & E & _ & A & Hrange & _) _].
  exists r1, r2, r3, final, rest, alpha. auto.
Defined.

Lemma slice_test_over_the_reals_witness :
  0 < 1 / 2
  /\ (1 / 2 <= 1 -> geb (- 0) (ln (1 / 2) - 0) = true).
Proof.
  assert (Hu : 0 < 1 / 2) by lra.
  split; [exact Hu|].
  exact (proj2 (proj2 (slice_test_over_the_reals
                         DEFAULT_GMM (1 / 2) 0 resting_tree Hu))).
Defined.

Lemma updateGMM_keeps_the_mixture_valid_witness :
  Forall (fun g : GMMComponent R => det2 (sigma g) <> 0) DEFAULT_GMM
  /\ Forall (fun g : GMMComponent R => 0 <= weight g) DEFAULT_GMM
  /\ 0 <= 1 / 2
  /\ exists newGmm,
       updateGMM DEFAULT_GMM 0 field_weight (1 / 2) = Updated newGmm
       /\ Forall (fun g => det2 (sigma g) <> 0) newGmm
       /\ Forall (fun g => 0 <= weight g) newGmm.
Proof.
  assert (Hv : 0 <= 1 / 2) by lra.
  split; [exact DEFAULT_GMM_invertible|].
  split; [exact DEFAULT_GMM_weights|]. split; [exact Hv|].
  eexists. split; [reflexivity|].
  destruct (@updateGMM_keeps_the_mixture_valid
              DEFAULT_GMM 0 field_weight (1 / 2) _
              DEFAULT_GMM_invertible DEFAULT_GMM_weights Hv eq_refl)
    as (Hd & Hw & _).
  split; [exact Hd | exact Hw].
Defined.

Lemma acceptanceRate_is_a_percentage_witness :
  (stats_accepted one_of_two <= stats_total one_of_two)%nat
  /\ ((stats_total one_of_two = 0%nat
       /\ @acceptanceRate R _ one_of_two = Txt "0.0")
      \/ ((0 < stats_total one_of_two)%nat
          /\ exists v,
               @acceptanceRate R _ one_of_two = Fixed v 1
               /\ 0 <= v <= 100
               /\ v * INR (stats_total one_of_two)
                  = 100 * INR (stats_accepted one_of_two))).
Proof.
  assert (Hle : (stats_accepted one_of_two <= stats_total one_of_two)%nat)
    by (cbn; lia).
  split; [exact Hle|].
  exact (acceptanceRate_is_a_percentage one_of_two Hle).
Defined.

Lemma densityData_covers_the_domain_witness :
  Forall (fun g : GMMComponent R => det2 (sigma g) <> 0) DEFAULT_GMM
  /\ Forall (fun g : GMMComponent R => 0 <= weight g) DEFAULT_GMM
  /\ List.length (@densityData R _ DEFAULT_GMM) = 2500%nat.
Proof.
  split; [exact DEFAULT_GMM_invertible|].
  split; [exact DEFAULT_GMM_weights|].
  exact (proj1 (densityData_covers_the_domain DEFAULT_GMM_invertible
                  DEFAULT_GMM_weights)).
Defined.

Lemma single_component_peaks_at_its_mean_witness :
  0 <= weight unit_component
  /\ (sigma unit_component).[0].[1] = (sigma unit_component).[1].[0]
  /\ 0 < (sigma unit_component).[0].[0]
  /\ 0 < det2 (sigma unit_component)
  /\ getLogProb real_origin [unit_component]
     <= getLogProb (mkPoint 1 1) [unit_component].
Proof.
  assert (Hw : 0 <= weight unit_component) by (cbn; lra).
  assert (Hs : (sigma unit_component).[0].[1] = (sigma unit_component).[1].[0])
    by reflexivity.
  assert (Hp : 0 < (sigma unit_component).[0].[0]) by (cbn; lra).
  assert (Hd : 0 < det2 (sigma unit_component))
    by (unfold det2; cbn; lra).
  split; [exact Hw|]. split; [exact Hs|]. split; [exact Hp|].
  split; [exact Hd|].
  exact (proj1 (@single_component_peaks_at_its_mean
                  unit_component real_origin Hw Hs Hp Hd)).
Defined.

Lemma nuts_acceptance_rate_is_always_full_witness :
  (0 < 1)%nat
  /\ (6 * 1 <= nonzero_draws unit_draws)%nat
  /\ Forall (fun u => 0 <= u < 1) unit_draws
  /\ exists v,
       acceptanceRate
         (app_stats (sample_many true NUTS real_params DEFAULT_GMM 1
                                 handleReset unit_draws))
       = Fixed v 1
       /\ v = 100.
Proof.
  destruct unit_draws_suffice as [H6 Hunit].
  assert (Hn : (0 < 1)%nat) by lia.
  assert (H : (6 * 1 <= nonzero_draws unit_draws)%nat) by lia.
  split; [exact Hn|]. split; [exact H|]. split; [exact Hunit|].
  exact (nuts_acceptance_rate_is_always_full
           true real_params DEFAULT_GMM Hn H Hunit).
Defined.
End RealProperties.

(** * The further properties at the scenario of the specification *)

Module PropertyRuns.
Import Floats.
Import Float64 Scenario FloatScenario.
Local Open Scope float_scope.

Lemma marker_waits_for_terminal_record_witness :
  (6 <= nonzero_draws demo_draws)%nat
  /\ forallb selectable demo_draws = true
  /\ HMC <> GIBBS
  /\ exists es r final rest,
       new_generator HMC origin demo_params demo_gmm demo_draws
       = (es ++ [r], Some (final, rest))
       /\ Forall (fun e => current e = origin /\ isFinishedStep e = false
                           /\ accepted e = None) es
       /\ isFinishedStep r = true.
Proof.
  assert (H : (6 <= nonzero_draws demo_draws)%nat) by (vm_compute; lia).
  assert (Hs : forallb selectable demo_draws = true)
    by (vm_compute; reflexivity).
  assert (Ha : HMC <> GIBBS) by discriminate.
  split; [exact H|]. split; [exact Hs|]. split; [exact Ha|].
  destruct (marker_waits_for_terminal_record
              origin demo_params demo_gmm demo_draws H Hs Ha)
    as (es & r & final & rest & E & Hall & F & _).
  exists es, r, final, rest. auto.
Defined.

Lemma gibbs_shows_x_move_mid_cycle_witness :
  (6 <= nonzero_draws demo_draws)%nat
  /\ exists r1 r2 r3 final rest,
       gibbsGenerator origin demo_params demo_gmm demo_draws
       = ([r1; r2; r3], Some (final, rest))
       /\ x (current r3) = x (current r2).
Proof.
  assert (H : (6 <= nonzero_draws demo_draws)%nat) by (vm_compute; lia).
  split; [exact H|].
  destruct (gibbs_shows_x_move_mid_cycle origin demo_params demo_gmm
                                         demo_draws H)
    as (r1 & r2 & r3 & final & rest & E & _ & _ & _ & _ & Hx).
  exists r1, r2, r3, final, rest. auto.
Defined.

Lemma hmc_leapfrog_records_trace_the_trajectory_witness :
  (5 <= nonzero_draws demo_draws)%nat
  /\ exists r1 leap r3 final rest trajectory,
       hmcGenerator origin demo_params demo_gmm demo_draws
       = (r1 :: leap ++ [r3], Some (final, rest))
       /\ path r3 = Some trajectory
       /\ List.length leap = 10%nat.
Proof.
  assert (H : (5 <= nonzero_draws demo_draws)%nat) by (vm_compute; lia).
  split; [exact H|].
  destruct (hmc_leapfrog_records_trace_the_trajectory
              origin demo_params demo_gmm demo_draws H)
    as (r1 & leap & r3 & final & rest & trajectory & E & P & Hlen & _).
  exists r1, leap, r3, final, rest, trajectory. auto.
Defined.

Lemma nuts_tree_records_trace_the_path_witness :
  (6 <= nonzero_draws demo_draws)%nat
  /\ forallb selectable demo_draws = true
  /\ exists r1 tree r3 final rest,
       nutsGenerator origin demo_params demo_gmm demo_draws
       = (r1 :: tree ++ [r3], Some (final, rest)).
Proof.
  assert (H : (6 <= nonzero_draws demo_draws)%nat) by (vm_compute; lia).
  assert (Hs : forallb selectable demo_draws = true)
    by (vm_compute; reflexivity).
  split; [exact H|]. split; [exact Hs|].
  destruct (nuts_tree_records_trace_the_path
              origin demo_params demo_gmm demo_draws H Hs)
    as (z1 & u_x & z2 & v_x & z3 & u_y & z4 & v_y & u & r & rest
        & ss & st' & r1 & tree & r3 & final
        & _ & _ & _ & _ & E & _).
  exists r1, tree, r3, final, rest. exact E.
Defined.

Lemma nuts_reports_why_the_tree_stopped_witness :
  (6 <= nonzero_draws cap_draws)%nat
  /\ forallb selectable cap_draws = true
  /\ exists es r3 final rest reason,
       nutsGenerator origin demo_params demo_gmm cap_draws
       = (es ++ [r3], Some (final, rest))
       /\ description (details r3)
          = Some [Txt "Step 3: "; Txt reason;
                  Txt ". Sampling from trajectory... Done."].
Proof.
  assert (H : (6 <= nonzero_draws cap_draws)%nat) by (vm_compute; lia).
  assert (Hs : forallb selectable cap_draws = true)
    by (vm_compute; reflexivity).
  split; [exact H|]. split; [exact Hs|].
  destruct (nuts_reports_why_the_tree_stopped
              origin demo_params demo_gmm cap_draws H Hs)
    as (z1 & u_x & z2 & v_x & z3 & u_y & z4 & v_y & u & r & rest
        & ss & st' & es & r3 & final & reason
        & _ & _ & _ & _ & _ & E & _ & D & _).
  exists es, r3, final, rest, reason. auto.
Defined.

Lemma hmc_with_negative_numSteps_stays_witness :
  numSteps negative_steps_params = Some (-3)%Z
  /\ (-3 < 0)%Z
  /\ (5 <= nonzero_draws demo_draws)%nat
  /\ exists r1 r3 final rest,
       hmcGenerator origin negative_steps_params demo_gmm demo_draws
       = ([r1; r3], Some (final, rest))
       /\ current r3 = origin.
Proof.
  assert (H : (5 <= nonzero_draws demo_draws)%nat) by (vm_compute; lia).
  assert (Hneg : (-3 < 0)%Z) by lia.
  split; [reflexivity|]. split; [exact Hneg|]. split; [exact H|].
  destruct (hmc_with_negative_numSteps_stays
              origin negative_steps_params demo_gmm demo_draws
              (L := (-3)%Z) eq_refl Hneg H)
    as (r1 & r3 & final & rest & E & _ & _ & C & _).
  exists r1, r3, final, rest. auto.
Defined.

Lemma driver_keeps_its_invariants_witness :
  (stats_accepted (app_stats reset_state)
   <= stats_total (app_stats reset_state))%nat
  /\ (List.length (app_history reset_state) <= 2000)%nat
  /\ visibleHistory
       (app_history
          (fold_left apply_value
             (emitted (mhGenerator origin demo_params demo_gmm demo_draws))
             reset_state))
     = app_history
         (fold_left apply_value
            (emitted (mhGenerator origin demo_params demo_gmm demo_draws))
            reset_state).
Proof.
  assert (Hs : (stats_accepted (app_stats reset_state)
                <= stats_total (app_stats reset_state))%nat)
    by (simpl; lia).
  assert (Hh : (List.length (app_history reset_state) <= 2000)%nat)
    by (simpl; lia).
  split; [exact Hs|]. split; [exact Hh|].
  exact (proj2 (proj2 (proj2 (proj2
           (driver_keeps_its_invariants
              reset_state
              (emitted (mhGenerator origin demo_params demo_gmm demo_draws))
              Hs Hh))))).
Defined.

Lemma sample_once_appends_the_terminal_point_witness :
  (6 <= nonzero_draws demo_draws)%nat
  /\ forallb selectable demo_draws = true
  /\ stats_total
       (app_stats (sample_once true NUTS demo_params demo_gmm reset_state
                               demo_draws))
     = 1%nat
  /\ stats_accepted
       (app_stats (sample_once true NUTS demo_params demo_gmm reset_state
                               demo_draws))
     = 1%nat.
Proof.
  assert (H : (6 <= nonzero_draws demo_draws)%nat) by (vm_compute; lia).
  assert (Hs : forallb selectable demo_draws = true)
    by (vm_compute; reflexivity).
  split; [exact H|]. split; [exact Hs|].
  pose proof (sample_once_appends_the_terminal_point
                true NUTS demo_params demo_gmm reset_state demo_draws H Hs)
    as P.
  cbv zeta in P. destruct P as (_ & Ht & _ & Ha & _).
  split; [exact Ht | exact (Ha eq_refl)].
Defined.

Lemma step_log_after_one_sample_witness :
  (6 <= nonzero_draws demo_draws)%nat
  /\ forallb selectable demo_draws = true
  /\ app_stepLogs (sample_once true MH demo_params demo_gmm reset_state
                               demo_draws)
     = map (@details float)
           (emitted (mhGenerator origin demo_params demo_gmm demo_draws)).
Proof.
  assert (H : (6 <= nonzero_draws demo_draws)%nat) by (vm_compute; lia).
  assert (Hs : forallb selectable demo_draws = true)
    by (vm_compute; reflexivity).
  split; [exact H|]. split; [exact Hs|].
  exact (step_log_after_one_sample
           true MH demo_params demo_gmm reset_state demo_draws H Hs).
Defined.

Lemma timers_of_one_sample_witness :
  (6 <= nonzero_draws demo_draws)%nat
  /\ forallb selectable demo_draws = true
  /\ scheduled true
       (emitted (new_generator MH origin demo_params demo_gmm demo_draws))
     = 5000%Z.
Proof.
  assert (H : (6 <= nonzero_draws demo_draws)%nat) by (vm_compute; lia).
  assert (Hs : forallb selectable demo_draws = true)
    by (vm_compute; reflexivity).
  split; [exact H|]. split; [exact Hs|].
  pose proof (timers_of_one_sample MH origin demo_params demo_gmm
                                   demo_draws H Hs) as P.
  cbv beta iota zeta in P. destruct P as (_ & Ht & _).
  exact Ht.
Defined.

Lemma updateGMM_changes_one_number_witness :
  exists comp,
    nth_error demo_gmm 1 = Some comp
    /\ exists newGmm,
         updateGMM demo_gmm 1 field_muX 0.5 = Updated newGmm
         /\ List.length newGmm = 2%nat
         /\ map (@sigma float) newGmm = map (@sigma float) demo_gmm.
Proof.
  eexists. split; [reflexivity|].
  destruct (@updateGMM_changes_one_number _ demo_gmm 1 field_muX 0.5 _
              eq_refl)
    as (newGmm & comp' & E & Hlen & _ & _ & Hsig & _).
  exists newGmm. split; [exact E|]. split; [exact Hlen | exact Hsig].
Defined.

Lemma chain_of_samples_witness :
  (6 * 2 <= nonzero_draws two_sample_draws)%nat
  /\ forallb selectable two_sample_draws = true
  /\ stats_total
       (app_stats (sample_many true MH demo_params demo_gmm 2 reset_state
                               two_sample_draws))
     = (stats_total (app_stats reset_state) + 2)%nat.
Proof.
  assert (H : (6 * 2 <= nonzero_draws two_sample_draws)%nat)
    by (vm_compute; lia).
  assert (Hs : forallb selectable two_sample_draws = true)
    by (vm_compute; reflexivity).
  split; [exact H|]. split; [exact Hs|].
  pose proof (chain_of_samples true MH demo_params demo_gmm 2 reset_state
                               two_sample_draws H Hs) as P.
  cbv zeta in P. destruct P as (Ht & _).
  exact Ht.
Defined.
End PropertyRuns.
